(** * finance-api: ledger mutation protocol and smart-analytics engine

    A shallow embedding of
    - [src/transactions/transactions.service.ts] (create / update / remove and
      the two private balance helpers),
    - [src/accounts/accounts.service.ts] ([findOne], [updateBalance]),
    - [src/smart-analytics/services/auto-categorization.service.ts],
    - [src/smart-analytics/services/spending-prediction.service.ts],
    - [src/smart-analytics/services/anomaly-detection.service.ts],
    followed by the properties of the specification stated over it.

    Conventions.
    - Identifiers ([id], [accountId], [userId], ...) are integers ([Z]).
    - Money in the ledger (the [decimal(10,2)] columns [amount] and
      [balance]) is integral ([Z]): fractional amounts are left out of the
      model; [Math.abs] is [Z.abs].
    - The analytics services compute with JavaScript numbers.  For their
      algebraic properties these are modelled by [JsNumber.number]: an exact
      real, or one of the IEEE special values NaN, +Infinity, -Infinity;
      rounding of finite results is not modelled there, and zero is unsigned
      (a zero divisor counts as +0).  The z-score threshold of
      [detectAnomalies], which rounding can tip, is stated over
      [AnomalyDetection64], the same code over IEEE binary64 numbers.
    - [async] methods run to completion one after the other, except for
      the two [updateBalance] calls under a [Promise.all], which both read
      before either saves; an exception leaves the effects made so far in
      place, as in the source. *)

From Stdlib Require Import ZArith List String Ascii Bool Reals Lra Lia.
From Stdlib Require Import Sorted Permutation.
From Stdlib Require Floats.
From stdpp Require Import gmap.

Local Open Scope Z_scope.

(* ================================================================== *)
(** * Part I: the model                                                 *)
(* ================================================================== *)

(** ** Entities ([transaction.entity.ts], [account.entity.ts],
       [category.entity.ts]) *)

Inductive TransactionType := EXPENSE | INCOME | TRANSFER.

Definition TransactionType_eqb (a b : TransactionType) : bool :=
  match a, b with
  | EXPENSE, EXPENSE | INCOME, INCOME | TRANSFER, TRANSFER => true
  | _, _ => false
  end.

(** A row of the [transactions] table.  [description],
    [destinationAccountId] and [categoryId] are nullable columns; [date] is a
    JavaScript time value (milliseconds since the epoch, at UTC midnight of
    the calendar day); [category] is the name of the joined category when the
    relation is loaded. *)
Record Transaction := mkTransaction {
  id : Z;
  amount : Z;
  type : TransactionType;
  description : option string;
  date : Z;
  isPaid : bool;
  accountId : Z;
  destinationAccountId : option Z;
  categoryId : option Z;
  userId : Z;
  category : option string
}.

Record Account := mkAccount {
  account_id : Z;
  balance : Z;
  account_userId : Z
}.

(** JavaScript truthiness of a nullable numeric field: [null], [undefined]
    and [0] are falsy. *)
Definition truthy (x : option Z) : bool :=
  match x with
  | Some v => negb (v =? 0)
  | None => false
  end.

(** [a === b] on two possibly-undefined numbers. *)
Definition strict_eq (a b : option Z) : bool :=
  match a, b with
  | Some x, Some y => x =? y
  | None, None => true
  | _, _ => false
  end.

(** ** The ledger: repositories, exceptions and the effect monad *)

Module Ledger.

Record Store := mkStore {
  accounts : gmap Z Account;
  transactions : gmap Z Transaction;
  nextId : Z
}.

Inductive Exception :=
| NotFoundException
| BadRequestException
| InternalServerErrorException.

Inductive Outcome (A : Type) :=
| Ok (a : A)
| Throw (e : Exception).
Arguments Ok {A} a.
Arguments Throw {A} e.

(** A service method: it reads and writes the store and either returns or
    throws; the store it leaves behind is kept in both cases. *)
Definition Eff (A : Type) : Type := Store -> Outcome A * Store.

Definition ret {A} (a : A) : Eff A := fun s => (Ok a, s).
Definition throw {A} (e : Exception) : Eff A := fun s => (Throw e, s).
Definition bind {A B} (m : Eff A) (k : A -> Eff B) : Eff B :=
  fun s => match m s with
           | (Ok a, s') => k a s'
           | (Throw e, s') => (Throw e, s')
           end.

Notation "x <-- m ;; k" := (bind m (fun x => k))
  (at level 100, m at next level, right associativity).
Notation "m ;;; k" := (bind m (fun _ => k))
  (at level 100, right associativity).

(** [try { m } catch { throw new e() }]. *)
Definition try_rethrow {A} (m : Eff A) (e : Exception) : Eff A :=
  fun s => match m s with
           | (Ok a, s') => (Ok a, s')
           | (Throw _, s') => (Throw e, s')
           end.

Definition when (b : bool) (m : Eff unit) : Eff unit :=
  if b then m else ret tt.

(** *** AccountsService *)

(** [accountsService.findOne(id, userId)]. *)
Definition accounts_findOne (aid uid : Z) : Eff Account :=
  fun s => match accounts s !! aid with
           | Some a => if account_userId a =? uid then (Ok a, s)
                       else (Throw NotFoundException, s)
           | None => (Throw NotFoundException, s)
           end.

(** [accountsService.updateBalance(accountId, amount)]: the account is
    looked up by id alone and its balance is incremented by [amount]. *)
Definition updateBalance (accountId amount : Z) : Eff unit :=
  fun s => match accounts s !! accountId with
           | Some a =>
             let a' := mkAccount (account_id a) (balance a + amount)
                                 (account_userId a) in
             (Ok tt, mkStore (<[accountId := a']> (accounts s))
                             (transactions s) (nextId s))
           | None => (Throw NotFoundException, s)
           end.

(** [updateBalance] has two awaits: the [findOne] that loads the account,
    and the [save] of the loaded entity after its balance has been
    incremented.  [incremented k x s] is the entity that the call is going
    to save when it has read the store [s]; [land k row s] is the store
    once that save has reached the table. *)
Definition incremented (k x : Z) (s : Store) : option Account :=
  (fun a => mkAccount (account_id a) (balance a + x) (account_userId a))
    <$> accounts s !! k.

Definition land (k : Z) (row : option Account) (s : Store) : Store :=
  match row with
  | Some a => mkStore (<[k := a]> (accounts s)) (transactions s) (nextId s)
  | None => s
  end.

(** The order in which the saves of the two calls of a [Promise.all] reach
    the table: that of the array, or the other one.  The code does not
    fix it. *)
Inductive Landing := InOrder | Swapped.

(** [await Promise.all([updateBalance(k1, x1), updateBalance(k2, x2)])].
    Both calls are started before the pair is awaited, so both issue
    their [findOne] before either saves: each reads the balances as they
    were when the pair began.  A call whose account is missing rejects and
    saves nothing, the other one still saves; the pair rejects when either
    call does. *)
Definition promise_all_updateBalance (landing : Landing)
           (k1 x1 k2 x2 : Z) : Eff unit :=
  fun s =>
    let row1 := incremented k1 x1 s in
    let row2 := incremented k2 x2 s in
    let s' := match landing with
              | InOrder => land k2 row2 (land k1 row1 s)
              | Swapped => land k1 row1 (land k2 row2 s)
              end in
    match row1, row2 with
    | Some _, Some _ => (Ok tt, s')
    | _, _ => (Throw NotFoundException, s')
    end.

(** *** DTOs *)

Record CreateTransactionDto := mkCreateDto {
  c_amount : Z;
  c_type : TransactionType;
  c_description : option string;
  c_date : Z;
  c_isPaid : option bool;
  c_accountId : Z;
  c_destinationAccountId : option Z;
  c_categoryId : option Z
}.

(** [UpdateTransactionDto]: every field of the create DTO, optional. *)
Record UpdateTransactionDto := mkUpdateDto {
  u_amount : option Z;
  u_type : option TransactionType;
  u_description : option string;
  u_date : option Z;
  u_isPaid : option bool;
  u_accountId : option Z;
  u_destinationAccountId : option Z;
  u_categoryId : option Z
}.

(** *** TransactionsRepository *)

(** [repository.save] of an entity built by [repository.create]: the row
    gets the next generated id. *)
Definition save_new (mk : Z -> Transaction) : Eff Transaction :=
  fun s => let t := mk (nextId s) in
           (Ok t, mkStore (accounts s) (<[nextId s := t]> (transactions s))
                          (nextId s + 1)).

(** [repository.save] of a loaded entity: the row is overwritten. *)
Definition save (t : Transaction) : Eff Transaction :=
  fun s => (Ok t, mkStore (accounts s) (<[id t := t]> (transactions s))
                          (nextId s)).

Definition repo_remove (t : Transaction) : Eff unit :=
  fun s => (Ok tt, mkStore (accounts s) (delete (id t) (transactions s))
                           (nextId s)).

(** *** TransactionsService *)

Definition is_transfer_with_destination (t : Transaction) : bool :=
  TransactionType_eqb (type t) TRANSFER && truthy (destinationAccountId t).

Definition destination (t : Transaction) : Z :=
  match destinationAccountId t with Some d => d | None => 0 end.

(** [updateAccountBalance(transaction)], the saves of a transfer landing
    in the order [landing]. *)
Definition updateAccountBalanceWith (landing : Landing) (t : Transaction)
  : Eff unit :=
  try_rethrow
    (if is_transfer_with_destination t then
       promise_all_updateBalance landing
         (accountId t) (- Z.abs (amount t))
         (destination t) (Z.abs (amount t))
     else updateBalance (accountId t) (amount t))
    InternalServerErrorException.

(** [reverseAccountBalance(transaction)], likewise. *)
Definition reverseAccountBalanceWith (landing : Landing) (t : Transaction)
  : Eff unit :=
  try_rethrow
    (if is_transfer_with_destination t then
       promise_all_updateBalance landing
         (accountId t) (Z.abs (amount t))
         (destination t) (- Z.abs (amount t))
     else updateBalance (accountId t) (- amount t))
    InternalServerErrorException.

(** Where nothing else is said the saves land in the order of the array.
    The order only matters for a transfer whose destination is its source
    account; the properties that depend on it are stated for every
    order. *)
Definition updateAccountBalance (t : Transaction) : Eff unit :=
  updateAccountBalanceWith InOrder t.

Definition reverseAccountBalance (t : Transaction) : Eff unit :=
  reverseAccountBalanceWith InOrder t.

Definition findOne (tid uid : Z) : Eff Transaction :=
  fun s => match transactions s !! tid with
           | Some t => if userId t =? uid then (Ok t, s)
                       else (Throw NotFoundException, s)
           | None => (Throw NotFoundException, s)
           end.

(** [create(userId, createTransactionDto)]. *)
Definition create (uid : Z) (dto : CreateTransactionDto) : Eff Transaction :=
  accounts_findOne (c_accountId dto) uid ;;;
  when (TransactionType_eqb (c_type dto) TRANSFER
        && truthy (c_destinationAccountId dto))
       (accounts_findOne (default 0 (c_destinationAccountId dto)) uid ;;;
        when (strict_eq (Some (c_accountId dto)) (c_destinationAccountId dto))
             (throw BadRequestException)) ;;;
  savedTransaction <-- save_new (fun newId =>
    {| id := newId;
       amount := if TransactionType_eqb (c_type dto) EXPENSE
                 then - Z.abs (c_amount dto) else c_amount dto;
       type := c_type dto;
       description := c_description dto;
       date := c_date dto;
       isPaid := default false (c_isPaid dto);
       accountId := c_accountId dto;
       destinationAccountId := c_destinationAccountId dto;
       categoryId := c_categoryId dto;
       userId := uid;
       category := None |}) ;;
  when (isPaid savedTransaction) (updateAccountBalance savedTransaction) ;;;
  ret savedTransaction.

(** [a || b] on an optional number: the left operand when it is truthy. *)
Definition or_else (a : option Z) (b : Z) : Z :=
  if truthy a then default 0 a else b.

(** The block of [update] that re-signs the amount: it runs when the DTO
    carries a type different from the stored one, and writes
    [updateTransactionDto.amount]. *)
Definition resign (t : Transaction) (dto : UpdateTransactionDto)
  : UpdateTransactionDto :=
  match u_type dto with
  | Some newType =>
    if negb (TransactionType_eqb newType (type t)) then
      if TransactionType_eqb newType EXPENSE then
        mkUpdateDto (Some (- Z.abs (or_else (u_amount dto) (amount t))))
                    (u_type dto) (u_description dto) (u_date dto)
                    (u_isPaid dto) (u_accountId dto)
                    (u_destinationAccountId dto) (u_categoryId dto)
      else if TransactionType_eqb (type t) EXPENSE then
        mkUpdateDto (Some (Z.abs (or_else (u_amount dto) (amount t))))
                    (u_type dto) (u_description dto) (u_date dto)
                    (u_isPaid dto) (u_accountId dto)
                    (u_destinationAccountId dto) (u_categoryId dto)
      else dto
    else dto
  | None => dto
  end.

(** [Object.assign(transaction, updateTransactionDto)]: the fields present
    in the DTO overwrite those of the entity. *)
Definition assign (t : Transaction) (dto : UpdateTransactionDto)
  : Transaction :=
  {| id := id t;
     amount := default (amount t) (u_amount dto);
     type := default (type t) (u_type dto);
     description := match u_description dto with
                    | Some d => Some d | None => description t end;
     date := default (date t) (u_date dto);
     isPaid := default (isPaid t) (u_isPaid dto);
     accountId := default (accountId t) (u_accountId dto);
     destinationAccountId := match u_destinationAccountId dto with
                             | Some d => Some d
                             | None => destinationAccountId t end;
     categoryId := match u_categoryId dto with
                   | Some c => Some c | None => categoryId t end;
     userId := userId t;
     category := category t |}.

(** The account checks at the head of [update]. *)
Definition validate_update (t : Transaction) (uid : Z)
           (dto : UpdateTransactionDto) : Eff unit :=
  when (truthy (u_accountId dto)
        && negb (strict_eq (u_accountId dto) (Some (accountId t))))
       (accounts_findOne (default 0 (u_accountId dto)) uid ;;; ret tt) ;;;
  when (TransactionType_eqb (type t) TRANSFER
        && truthy (u_destinationAccountId dto)
        && negb (strict_eq (u_destinationAccountId dto)
                           (destinationAccountId t)))
       (accounts_findOne (default 0 (u_destinationAccountId dto)) uid ;;;
        when (strict_eq (u_accountId dto) (u_destinationAccountId dto))
             (throw BadRequestException)).

(** [update(id, userId, updateTransactionDto)]. *)
Definition update (tid uid : Z) (dto : UpdateTransactionDto)
  : Eff Transaction :=
  transaction <-- findOne tid uid ;;
  let oldTransaction := transaction in
  let oldIsPaid := isPaid transaction in
  validate_update transaction uid dto ;;;
  let transaction' := assign transaction (resign transaction dto) in
  when oldIsPaid (reverseAccountBalance oldTransaction) ;;;
  updatedTransaction <-- save transaction' ;;
  when (isPaid updatedTransaction)
       (updateAccountBalance updatedTransaction) ;;;
  ret updatedTransaction.

(** [remove(id, userId)]. *)
Definition remove (tid uid : Z) : Eff unit :=
  transaction <-- findOne tid uid ;;
  when (isPaid transaction) (reverseAccountBalance transaction) ;;;
  repo_remove transaction.

Definition balanceOf (s : Store) (a : Z) : option Z :=
  balance <$> accounts s !! a.

(** *** Auxiliary notions used to state the properties *)

(** The store after [updateBalance k x] has run on an existing account. *)
Definition adjust (k x : Z) (s : Store) : Store :=
  match accounts s !! k with
  | Some a =>
    mkStore (<[k := mkAccount (account_id a) (balance a + x)
                              (account_userId a)]> (accounts s))
            (transactions s) (nextId s)
  | None => s
  end.

(** The accounts that the balance effect of [t] touches are present. *)
Definition touched_exist (t : Transaction) (s : Store) : Prop :=
  is_Some (accounts s !! accountId t)
  /\ (is_transfer_with_destination t = true ->
      is_Some (accounts s !! destination t)).

(** The store [s] once the save of an [updateBalance k x] that has read
    the store [s0] has landed on it. *)
Definition adjust_from (s0 : Store) (k x : Z) (s : Store) : Store :=
  land k (incremented k x s0) s.

(** What [updateAccountBalance] and [reverseAccountBalance] leave behind
    when the touched accounts exist: for a transfer the source is saved
    first and the destination after it, both as read in [s]. *)
Definition applied (t : Transaction) (s : Store) : Store :=
  if is_transfer_with_destination t
  then adjust_from s (destination t) (Z.abs (amount t))
                   (adjust (accountId t) (- Z.abs (amount t)) s)
  else adjust (accountId t) (amount t) s.

Definition reversed (t : Transaction) (s : Store) : Store :=
  if is_transfer_with_destination t
  then adjust_from s (destination t) (- Z.abs (amount t))
                   (adjust (accountId t) (Z.abs (amount t)) s)
  else adjust (accountId t) (- amount t) s.

(** Of two increments saved on the same row, both computed from the
    balance read before either save, the one that lands last stays. *)
Definition lastSaved (landing : Landing) (x1 x2 : Z) : Z :=
  match landing with
  | InOrder => x2
  | Swapped => x1
  end.

(** The two operations that store a transaction. *)
Inductive Request :=
| Create (uid : Z) (dto : CreateTransactionDto)
| Update (tid uid : Z) (dto : UpdateTransactionDto).

Definition perform (r : Request) : Eff Transaction :=
  match r with
  | Create uid dto => create uid dto
  | Update tid uid dto => update tid uid dto
  end.

End Ledger.

(** ** JavaScript numbers *)

Module JsNumber.

Local Open Scope R_scope.

Inductive number :=
| Fin (x : R)
| PosInf
| NegInf
| NaN.

Definition Rltb (x y : R) : bool := if Rlt_dec x y then true else false.
Definition Reqb (x y : R) : bool := if Req_dec_T x y then true else false.

Definition of_Z (z : Z) : number := Fin (IZR z).
Definition of_nat (n : nat) : number := Fin (INR n).

(** The infinity that a non-zero finite value produces when divided by (or
    multiplied into) an unbounded magnitude; NaN for zero. *)
Definition inf_of_sign (x : R) : number :=
  if Rltb 0 x then PosInf else if Rltb x 0 then NegInf else NaN.

Definition neg (a : number) : number :=
  match a with
  | Fin x => Fin (- x)
  | PosInf => NegInf
  | NegInf => PosInf
  | NaN => NaN
  end.

Definition add (a b : number) : number :=
  match a, b with
  | NaN, _ | _, NaN => NaN
  | Fin x, Fin y => Fin (x + y)
  | PosInf, NegInf | NegInf, PosInf => NaN
  | PosInf, _ | _, PosInf => PosInf
  | NegInf, _ | _, NegInf => NegInf
  end.

Definition sub (a b : number) : number := add a (neg b).

Definition mul (a b : number) : number :=
  match a, b with
  | NaN, _ | _, NaN => NaN
  | Fin x, Fin y => Fin (x * y)
  | Fin x, PosInf | PosInf, Fin x => inf_of_sign x
  | Fin x, NegInf | NegInf, Fin x => inf_of_sign (- x)
  | PosInf, PosInf | NegInf, NegInf => PosInf
  | PosInf, NegInf | NegInf, PosInf => NegInf
  end.

Definition div (a b : number) : number :=
  match a, b with
  | NaN, _ | _, NaN => NaN
  | Fin x, Fin y => if Reqb y 0 then inf_of_sign x else Fin (x / y)
  | Fin _, PosInf | Fin _, NegInf => Fin 0
  | PosInf, Fin y => if Rltb y 0 then NegInf else PosInf
  | NegInf, Fin y => if Rltb y 0 then PosInf else NegInf
  | _, _ => NaN
  end.

(** [Math.abs], [Math.sqrt], [Math.min] and [Math.pow(_, 2)]. *)
Definition abs (a : number) : number :=
  match a with
  | Fin x => Fin (Rabs x)
  | PosInf | NegInf => PosInf
  | NaN => NaN
  end.

Definition sqrt (a : number) : number :=
  match a with
  | Fin x => if Rltb x 0 then NaN else Fin (R_sqrt.sqrt x)
  | PosInf => PosInf
  | NegInf | NaN => NaN
  end.

(** [a < b]; false as soon as one operand is NaN. *)
Definition lt (a b : number) : bool :=
  match a, b with
  | NaN, _ | _, NaN => false
  | Fin x, Fin y => Rltb x y
  | _, NegInf => false
  | NegInf, _ => true
  | PosInf, _ => false
  | _, PosInf => true
  end.

Definition gt (a b : number) : bool := lt b a.

Definition min (a b : number) : number :=
  match a, b with
  | NaN, _ | _, NaN => NaN
  | _, _ => if lt b a then b else a
  end.

Definition max (a b : number) : number :=
  match a, b with
  | NaN, _ | _, NaN => NaN
  | _, _ => if lt a b then b else a
  end.

Definition sq (a : number) : number := mul a a.

(** [xs.reduce((acc, x) => acc + x, 0)]. *)
Definition sum (xs : list number) : number :=
  fold_left add xs (Fin 0).

(** A value that [Math.sqrt] can return: not negative, not -Infinity. *)
Definition nonneg (s : number) : Prop :=
  match s with
  | Fin y => 0 <= y
  | NegInf => False
  | _ => True
  end.

End JsNumber.

(** ** Sums, means and deviations of finite samples *)

Module Stats.

Local Open Scope R_scope.

Definition total (xs : list R) : R := fold_right Rplus 0 xs.

Definition mean (xs : list R) : R := total xs / INR (length xs).

(** Population variance of the sample around [c]. *)
Definition populationVariance (xs : list R) (c : R) : R :=
  total (map (fun x => (x - c) * (x - c)) xs) / INR (length xs).

Definition stdDevAround (xs : list R) (c : R) : R :=
  R_sqrt.sqrt (populationVariance xs c).

End Stats.

(** ** JavaScript dates (ECMAScript time values, local time zone UTC) *)

Module JsDate.

Definition msPerDay : Z := 1000 * 60 * 60 * 24.

Definition Day (t : Z) : Z := t / msPerDay.
Definition TimeWithinDay (t : Z) : Z := t mod msPerDay.

(** Day number of a civil date (proleptic Gregorian calendar), month in
    1..12, days counted from 1970-01-01. *)
Definition days_from_civil (y m d : Z) : Z :=
  let y' := if m <=? 2 then y - 1 else y in
  let era := y' / 400 in
  let yoe := y' - era * 400 in
  let mp := if 2 <? m then m - 3 else m + 9 in
  let doy := (153 * mp + 2) / 5 + d - 1 in
  let doe := yoe * 365 + yoe / 4 - yoe / 100 + doy in
  era * 146097 + doe - 719468.

(** Civil date (year, month in 1..12, day in 1..31) of a day number. *)
Definition civil_from_days (z : Z) : Z * Z * Z :=
  let z' := z + 719468 in
  let era := z' / 146097 in
  let doe := z' - era * 146097 in
  let yoe := (doe - doe / 1460 + doe / 36524 - doe / 146096) / 365 in
  let doy := doe - (365 * yoe + yoe / 4 - yoe / 100) in
  let mp := (5 * doy + 2) / 153 in
  let d := doy - (153 * mp + 2) / 5 + 1 in
  let m := if mp <? 10 then mp + 3 else mp - 9 in
  (if m <=? 2 then yoe + era * 400 + 1 else yoe + era * 400, m, d).

Definition getFullYear (t : Z) : Z := fst (fst (civil_from_days (Day t))).
(** [getMonth] is zero-based. *)
Definition getMonth (t : Z) : Z := snd (fst (civil_from_days (Day t))) - 1.
Definition getDate (t : Z) : Z := snd (civil_from_days (Day t)).

(** [MakeDay(year, month, date)]: the month may lie outside 0..11 and the
    date outside the month; both carry over. *)
Definition MakeDay (year month dt : Z) : Z :=
  let ym := year + month / 12 in
  let mn := month mod 12 in
  days_from_civil ym (mn + 1) 1 + dt - 1.

Definition MakeDate (day time : Z) : Z := day * msPerDay + time.

Definition setMonth (t month : Z) : Z :=
  MakeDate (MakeDay (getFullYear t) month (getDate t)) (TimeWithinDay t).

Definition setDate (t dt : Z) : Z :=
  MakeDate (MakeDay (getFullYear t) (getMonth t) dt) (TimeWithinDay t).

(** The time value of a calendar day at UTC midnight. *)
Definition utc (y m d : Z) : Z := MakeDate (days_from_civil y m d) 0.

(** The key [`${getFullYear()}-${String(getMonth() + 1).padStart(2, '0')}`],
    kept as the pair (year, month in 1..12) it prints.  On such keys with
    four-digit years [localeCompare] is the lexicographic order of the pair. *)
Definition MonthKey : Type := Z * Z.

Definition monthKey (t : Z) : MonthKey := (getFullYear t, getMonth t + 1).

Definition MonthKey_eqb (a b : MonthKey) : bool :=
  (fst a =? fst b) && (snd a =? snd b).

(** [a.localeCompare(b) <= 0]. *)
Definition MonthKey_leb (a b : MonthKey) : bool :=
  (fst a <? fst b) || ((fst a =? fst b) && (snd a <=? snd b)).

(** [Math.round(n / d)] for integers [n] and [d > 0]: halves round up. *)
Definition round_div (n d : Z) : Z := (2 * n + d) / (2 * d).

End JsDate.

(** ** Arrays and strings *)

Module Js.

(** [Array.prototype.sort] and SQL [ORDER BY]: a stable sort, here by
    insertion; [leb a b] says that [a] may stay in front of [b]. *)
Section Sort.
Context {A : Type} (leb : A -> A -> bool).

Fixpoint insert_sorted (x : A) (l : list A) : list A :=
  match l with
  | [] => [x]
  | y :: l' => if leb x y then x :: l else y :: insert_sorted x l'
  end.

Definition sortBy (l : list A) : list A :=
  fold_right insert_sorted [] l.
End Sort.

(** [xs.slice(0, end)]. *)
Definition slice0 {A} (e : Z) (l : list A) : list A :=
  let len := Z.of_nat (length l) in
  firstn (Z.to_nat (if e <? 0 then Z.max (len + e) 0 else Z.min e len)) l.

(** Strings are ASCII text. *)
Definition code (c : ascii) : N := N_of_ascii c.

Definition is_space (c : ascii) : bool :=
  (N.eqb (code c) 32 || (N.leb 9 (code c) && N.leb (code c) 13))%N.

Definition is_upper (c : ascii) : bool :=
  (N.leb 65 (code c) && N.leb (code c) 90)%N.

Definition is_word (c : ascii) : bool :=
  (is_upper c
   || (N.leb 97 (code c) && N.leb (code c) 122)
   || (N.leb 48 (code c) && N.leb (code c) 57)
   || N.eqb (code c) 95)%N.

Definition lower (c : ascii) : ascii :=
  if is_upper c then ascii_of_N (code c + 32) else c.

Fixpoint map_string (f : ascii -> ascii) (s : string) : string :=
  match s with
  | EmptyString => EmptyString
  | String c r => String (f c) (map_string f r)
  end.

Fixpoint filter_string (f : ascii -> bool) (s : string) : string :=
  match s with
  | EmptyString => EmptyString
  | String c r => if f c then String c (filter_string f r)
                  else filter_string f r
  end.

Definition toLowerCase (s : string) : string := map_string lower s.

Fixpoint trimStart (s : string) : string :=
  match s with
  | String c r => if is_space c then trimStart r else s
  | EmptyString => EmptyString
  end.

(** [trimEnd]: a character is dropped when it is a space and everything
    after it has been dropped. *)
Fixpoint trimEnd (s : string) : string :=
  match s with
  | EmptyString => EmptyString
  | String c r =>
    match trimEnd r with
    | EmptyString => if is_space c then EmptyString
                     else String c EmptyString
    | r' => String c r'
    end
  end.

Definition trim (s : string) : string := trimEnd (trimStart s).

(** [s.includes(sub)]. *)
Fixpoint includes (s sub : string) : bool :=
  String.prefix sub s
  || match s with
     | EmptyString => false
     | String _ r => includes r sub
     end.

End Js.

(** ** Read-only queries of the transaction and category tables

    The analytics services read the tables through these queries.  A table
    is the list of its rows, most recently created first. *)

Inductive CategoryType := CategoryType_EXPENSE | CategoryType_INCOME
                        | CategoryType_BOTH.

Definition CategoryType_eqb (a b : CategoryType) : bool :=
  match a, b with
  | CategoryType_EXPENSE, CategoryType_EXPENSE
  | CategoryType_INCOME, CategoryType_INCOME
  | CategoryType_BOTH, CategoryType_BOTH => true
  | _, _ => false
  end.

Record Category := mkCategory {
  category_id : Z;
  name : string;
  category_type : CategoryType;
  category_userId : Z
}.

Module Queries.

(** [transactionsService.findRecent(userId, limit)]:
    [order: { date: 'DESC', createdAt: 'DESC' }, take: limit]. *)
Definition findRecent (uid : Z) (limit : nat) (rows : list Transaction)
  : list Transaction :=
  firstn limit
    (Js.sortBy (fun a b => date b <=? date a)
               (List.filter (fun t => userId t =? uid) rows)).

(** [transactionsService.findByPeriod(userId, startDate, endDate)]:
    paid rows of the user dated within the period, [order: { date: 'ASC' }]. *)
Definition findByPeriod (uid startDate endDate : Z) (rows : list Transaction)
  : list Transaction :=
  Js.sortBy (fun a b => date a <=? date b)
            (List.filter (fun t => (userId t =? uid) && isPaid t
                              && (startDate <=? date t)
                              && (date t <=? endDate)) rows).

(** [categoriesService.findAll(userId, type)]: the user's categories of
    the given type or of type BOTH, [order: { name: 'ASC' }]. *)
Definition findAll (uid : Z) (ty : CategoryType) (cats : list Category)
  : list Category :=
  Js.sortBy (fun a b => String.leb (name a) (name b))
            (List.filter (fun c => (category_userId c =? uid)
                              && (CategoryType_eqb (category_type c) ty
                                  || CategoryType_eqb (category_type c)
                                                      CategoryType_BOTH))
                    cats).

End Queries.

(** ** AutoCategorizationService *)

Module AutoCategorization.

Import JsNumber.

Record Suggestion := mkSuggestion {
  s_categoryId : option Z;
  confidence : number
}.

(** A [TypeError] raised inside the [try] block of [suggestCategory]. *)
Inductive Attempt (A : Type) :=
| Returned (a : A)
| Raised.
Arguments Returned {A} a.
Arguments Raised {A}.

(** [normalizeText]: lower-case, strip what is neither a word character
    nor white space. *)
Definition normalizeText (text : string) : string :=
  Js.filter_string (fun c => Js.is_word c || Js.is_space c)
                   (Js.toLowerCase text).

Definition getAmountRange (amount : Z) : string :=
  if amount <? 50 then "valor_muito_baixo"%string
  else if amount <? 100 then "valor_baixo"%string
  else if amount <? 500 then "valor_medio"%string
  else if amount <? 1000 then "valor_alto"%string
  else "valor_muito_alto"%string.

Definition polarity (amount : Z) : CategoryType :=
  if amount <? 0 then CategoryType_EXPENSE else CategoryType_INCOME.

(** The entry that the keyword map itself holds under [key]. *)
Fixpoint keywords (keywordMap : list (string * list string)) (key : string)
  : option (list string) :=
  match keywordMap with
  | [] => None
  | (k, v) :: rest => if String.eqb k key then Some v else keywords rest key
  end.

(** The keyword map is an object literal, so [this.keywordMap[key]] finds,
    under a key for which the map holds no entry, the member of that name
    that every object inherits from [Object.prototype].  The keys are
    lower-cased names, and two inherited members have a name in lower
    case: the function [constructor] and the accessor [__proto__].  Both
    are truthy, neither is iterable and neither has an [includes]. *)
Definition inherited (key : string) : bool :=
  String.eqb key "constructor"%string || String.eqb key "__proto__"%string.

Section Service.

(** The [natural] library: the word tokenizer, and the trained Bayes
    classifier with the label of each classification already read by
    [parseInt(_, 10)]. *)
Variable tokenize : string -> list string.
Variable getClassifications : string -> list (Z * number).

(** The mutable fields of the service. *)
Variable isModelTrained : bool.
Variable keywordMap : list (string * list string).

(** The tables. *)
Variable rows : list Transaction.
Variable cats : list Category.

Definition extractFeatures (description : string) (amount : Z) : string :=
  let normalizedDesc := normalizeText description in
  let tokens := tokenize normalizedDesc in
  let amountType :=
      if amount <? 0 then "despesa"%string else "receita"%string in
  let amountRange := getAmountRange (Z.abs amount) in
  String.concat " "%string (tokens ++ [amountType; amountRange])%list.

Definition fallbackCategorization (amount uid : Z) : option Suggestion :=
  match Queries.findAll uid (polarity amount) cats with
  | c :: _ => Some (mkSuggestion (Some (category_id c)) (Fin 0.3))
  | [] => None
  end.

(** The loop of [findSimilarTransaction]; [normalizeText] of a [null]
    description raises. *)
Fixpoint scanSimilar (query : string)
         (recentTransactions : list Transaction)
  : Attempt (option Transaction) :=
  match recentTransactions with
  | [] => Returned None
  | transaction :: rest =>
    match description transaction with
    | None => Raised
    | Some d =>
      let normalizedTransactionDesc := normalizeText d in
      if Js.includes normalizedTransactionDesc query
         || Js.includes query normalizedTransactionDesc
      then Returned (Some transaction)
      else scanSimilar query rest
    end
  end.

Definition findSimilarTransaction (description : string) (uid : Z)
  : Attempt (option Transaction) :=
  scanSimilar description (Queries.findRecent uid 100 rows).

(** The loop of [matchCategoryByKeywords].  [this.keywordMap[key]] is the
    map's own entry when there is one; otherwise, under an inherited key,
    a member of [Object.prototype], on which the [for ... of] raises;
    otherwise [undefined], and the category is skipped. *)
Fixpoint scanKeywords (description : string) (userCategories : list Category)
  : Attempt (option Suggestion) :=
  match userCategories with
  | [] => Returned None
  | c :: rest =>
    match keywords keywordMap (Js.toLowerCase (name c)) with
    | Some keywordsForCategory =>
      if existsb (Js.includes description) keywordsForCategory
      then Returned (Some (mkSuggestion (Some (category_id c)) (Fin 0.7)))
      else scanKeywords description rest
    | None =>
      if inherited (Js.toLowerCase (name c)) then Raised
      else scanKeywords description rest
    end
  end.

Definition matchCategoryByKeywords (description : string) (amount uid : Z)
  : Attempt (option Suggestion) :=
  scanKeywords description (Queries.findAll uid (polarity amount) cats).

(** Step 1 of [suggestCategory]. *)
Definition classify (description : string) (amount : Z)
  : option Suggestion :=
  if isModelTrained then
    match getClassifications (extractFeatures description amount) with
    | (label, value) :: _ =>
      if gt value (Fin 0.3) then Some (mkSuggestion (Some label) value)
      else None
    | [] => None
    end
  else None.

(** The body of the [try] block. *)
Definition trySuggest (description : string) (amount uid : Z)
  : Attempt (option Suggestion) :=
  match classify description amount with
  | Some r => Returned (Some r)
  | None =>
    match findSimilarTransaction (normalizeText description) uid with
    | Raised => Raised
    | Returned (Some similarTransaction) =>
      Returned (Some (mkSuggestion (categoryId similarTransaction)
                                   (Fin 0.85)))
    | Returned None =>
      match matchCategoryByKeywords (normalizeText description)
                                    amount uid with
      | Raised => Raised
      | Returned (Some matchedCategory) => Returned (Some matchedCategory)
      | Returned None => Returned (fallbackCategorization amount uid)
      end
    end
  end.

Definition isBlank (description : option string) : bool :=
  match description with
  | None => true
  | Some d => String.eqb d ""%string || String.eqb (Js.trim d) ""%string
  end.

Definition suggestCategory (description : option string) (amount uid : Z)
  : option Suggestion :=
  if isBlank description then fallbackCategorization amount uid
  else
    match trySuggest (default ""%string description) amount uid with
    | Returned r => r
    | Raised => fallbackCategorization amount uid
    end.

(** *** Auxiliary notions used to state the properties *)

(** The transaction has a description whose normal form contains the
    normalized query or is contained in it. *)
Definition similar (query : string) (t : Transaction) : bool :=
  match description t with
  | Some d => Js.includes (normalizeText d) query
              || Js.includes query (normalizeText d)
  | None => false
  end.

(** The keyword map has an entry for the category's name, and one of its
    keywords occurs in the normalized query. *)
Definition keywordHit (query : string) (c : Category) : bool :=
  match keywords keywordMap (Js.toLowerCase (name c)) with
  | Some keywordsForCategory =>
    existsb (Js.includes query) keywordsForCategory
  | None => false
  end.

(** The keyword map has no entry for the category's name, and that name
    is an inherited key: the loop over its keywords raises. *)
Definition unreadable (c : Category) : bool :=
  match keywords keywordMap (Js.toLowerCase (name c)) with
  | Some _ => false
  | None => inherited (Js.toLowerCase (name c))
  end.

(** The transaction has a description and is not similar to the query. *)
Definition passedOver (query : string) (t : Transaction) : Prop :=
  description t <> None /\ similar query t = false.

(** The loop over the category's keywords ends without a hit. *)
Definition skipped (query : string) (c : Category) : Prop :=
  keywordHit query c = false /\ unreadable c = false.

End Service.

End AutoCategorization.

(** ** SpendingPredictionService *)

Module SpendingPrediction.

Import JsNumber JsDate Stats.

Record MonthlyAggregate := mkMonthly {
  month : MonthKey;
  m_amount : number
}.

Record Prediction := mkPrediction {
  p_amount : number;
  p_confidence : number
}.

(** [!x] on a number. *)
Definition falsy (a : number) : bool :=
  match a with
  | Fin x => Reqb x 0
  | NaN => true
  | _ => false
  end.

(** One round of the grouping loop of [aggregateByMonth] on the object
    [monthlyMap], whose keys are kept in insertion order:
    [if (!monthlyMap[k]) monthlyMap[k] = 0; monthlyMap[k] += a]. *)
Fixpoint accumulate (k : MonthKey) (a : number)
         (monthlyMap : list (MonthKey * number)) : list (MonthKey * number) :=
  match monthlyMap with
  | [] => [(k, add (Fin 0) a)]
  | (k', v) :: rest =>
    if MonthKey_eqb k k'
    then (k', add (if falsy v then Fin 0 else v) a) :: rest
    else (k', v) :: accumulate k a rest
  end.

Definition aggregateByMonth (transactions : list Transaction)
  : list MonthlyAggregate :=
  map (fun e => mkMonthly (fst e) (abs (snd e)))
      (fold_left (fun monthlyMap t =>
                    accumulate (monthKey (date t)) (of_Z (amount t))
                               monthlyMap)
                 transactions []).

(** The weighting loop: index [i], accumulators [weightedSum], [weightSum]. *)
Fixpoint weigh (i : nat) (sortedData : list MonthlyAggregate)
         (weightedSum weightSum : number) : number * number :=
  match sortedData with
  | [] => (weightedSum, weightSum)
  | item :: rest =>
    let weight := of_nat (i + 1) in
    weigh (S i) rest (add weightedSum (mul (m_amount item) weight))
          (add weightSum weight)
  end.

Definition calculateWeightedMovingAverage (monthlyData : list MonthlyAggregate)
  : Prediction :=
  if (length monthlyData <? 3)%nat then
    let sum := fold_left (fun total item => add total (m_amount item))
                         monthlyData (Fin 0) in
    mkPrediction (if (0 <? length monthlyData)%nat
                  then div sum (of_nat (length monthlyData)) else Fin 0)
                 (Fin 0.3)
  else
    let sortedData :=
        Js.sortBy (fun a b => MonthKey_leb (month a) (month b)) monthlyData in
    let '(weightedSum, weightSum) := weigh 0 sortedData (Fin 0) (Fin 0) in
    let weightedAverage := div weightedSum weightSum in
    let variance :=
        div (fold_left (fun total item =>
                          add total (sq (sub (m_amount item) weightedAverage)))
                       sortedData (Fin 0))
            (of_nat (length sortedData)) in
    let stdDev := sqrt variance in
    let coefficientOfVariation := div stdDev weightedAverage in
    let confidence := sub (Fin 1) (min coefficientOfVariation (Fin 1)) in
    let confidence :=
        mul confidence (min (div (of_nat (length sortedData)) (Fin 12))
                            (Fin 1)) in
    mkPrediction weightedAverage confidence.

(** The [while (current <= endDate)] loop of [fillMissingMonths].  Every
    round moves [current] forward by at least 28 days; [None] stands for a
    loop that is still running when the fuel is spent, which the fuel that
    [fillMissingMonths] gives it rules out. *)
Fixpoint fillLoop (fuel : nat) (existingMonths : list MonthKey)
         (current endDate : Z) (result : list MonthlyAggregate)
  : option (list MonthlyAggregate) :=
  match fuel with
  | O => None
  | S fuel' =>
    if current <=? endDate then
      let key := monthKey current in
      let result' := if existsb (MonthKey_eqb key) existingMonths
                     then result
                     else (result ++ [mkMonthly key (Fin 0)])%list in
      fillLoop fuel' existingMonths
               (setMonth current (getMonth current + 1)) endDate result'
    else Some result
  end.

Definition fillMissingMonths (data : list MonthlyAggregate)
           (startDate endDate : Z) : option (list MonthlyAggregate) :=
  fillLoop (Z.to_nat (Z.max 0 ((endDate - startDate) / (28 * msPerDay)) + 2))
           (map month data) startDate endDate data.

(** [getCategoryTrend(userId, categoryId, months)] called at time [now]. *)
Definition getCategoryTrend (now : Z) (rows : list Transaction)
           (uid cid months : Z) : option (list MonthlyAggregate) :=
  let endDate := now in
  let startDate := setMonth now (getMonth now - months) in
  let transactions := Queries.findByPeriod uid startDate endDate rows in
  let categoryTransactions :=
      List.filter (fun t => strict_eq (categoryId t) (Some cid))
             transactions in
  let monthlyData := aggregateByMonth categoryTransactions in
  match fillMissingMonths monthlyData startDate endDate with
  | Some monthlyData =>
    Some (Js.sortBy (fun a b => MonthKey_leb (month a) (month b)) monthlyData)
  | None => None
  end.

(** *** The weighted moving average in the words of the specification *)

Local Open Scope R_scope.

(** The simple average, 0 for the empty list. *)
Definition simpleAverage (xs : list R) : R :=
  match xs with
  | [] => 0
  | _ => total xs / INR (length xs)
  end.

(** Linear weights [1..n]. *)
Definition weights (n : nat) : list R := map INR (seq 1 n).

(** [Σ(amount_i * weight_i) / Σ(weight_i)], amounts oldest first. *)
Definition weightedAverage (xs : list R) : R :=
  total (map (fun p => fst p * snd p) (combine xs (weights (length xs))))
  / total (weights (length xs)).

(** [(1 - min(stdDev / weightedAverage, 1)) * min(n / 12, 1)]. *)
Definition confidenceOf (xs : list R) : number :=
  mul (sub (Fin 1)
           (min (div (Fin (stdDevAround xs (weightedAverage xs)))
                     (Fin (weightedAverage xs)))
                (Fin 1)))
      (min (Fin (INR (length xs) / 12)) (Fin 1)).

(** A monthly aggregate with a finite amount. *)
Definition monthly (e : MonthKey * R) : MonthlyAggregate :=
  mkMonthly (fst e) (Fin (snd e)).

(** Ascending by month. *)
Definition byMonth (data : list (MonthKey * R)) : list (MonthKey * R) :=
  Js.sortBy (fun a b => MonthKey_leb (fst a) (fst b)) data.

End SpendingPrediction.

(** ** AnomalyDetectionService *)

Module AnomalyDetection.

Import JsNumber JsDate.

Record CategoryStats := mkStats {
  mean : number;
  median : number;
  stdDev : number;
  s_min : number;
  s_max : number
}.

(** The text built by [getAnomalyReason], kept as its variant and the
    percentage it prints; [NoCategory] is ['Transação sem categoria']. *)
Inductive Deviation :=
| ExceptionallyHigh | AboveNormal | ExceptionallyLow | BelowNormal.

Inductive Reason :=
| Deviates (d : Deviation) (percent : number)
| NoCategory.

Record Anomaly := mkAnomaly {
  transactionId : Z;
  a_description : option string;
  a_amount : Z;
  a_date : Z;
  a_categoryId : option Z;
  categoryName : string;
  anomalyScore : number;
  reason : Reason
}.

Record MissingRecurrence := mkMissing {
  r_description : option string;
  r_category : string;
  lastDate : Z;
  expectedDate : number;
  daysPastDue : number;
  averageAmount : number
}.

(** [transaction.category?.name || 'Desconhecida']. *)
Definition categoryNameOf (t : Transaction) : string :=
  match category t with
  | Some n => if String.eqb n "" then "Desconhecida"%string else n
  | None => "Desconhecida"%string
  end.

Definition amounts (transactions : list Transaction) : list number :=
  map (fun t => of_Z (amount t)) transactions.

Definition calculateCategoryStats (transactions : list Transaction)
  : CategoryStats :=
  let values := amounts transactions in
  let sum := JsNumber.sum values in
  let mean := div sum (of_nat (length values)) in
  let squaredDiffs := map (fun val => sq (sub val mean)) values in
  let variance :=
      div (JsNumber.sum squaredDiffs) (of_nat (length values)) in
  let stdDev := sqrt variance in
  let sortedValues :=
      Js.sortBy (fun a b => negb (gt (sub a b) (Fin 0))) values in
  let middle := (length sortedValues / 2)%nat in
  let median :=
      if Nat.even (length sortedValues)
      then div (add (nth (middle - 1) sortedValues NaN)
                    (nth middle sortedValues NaN)) (Fin 2)
      else nth middle sortedValues NaN in
  mkStats mean median stdDev
          (fold_left JsNumber.min values PosInf)
          (fold_left JsNumber.max values NegInf).

Definition getAnomalyReason (transaction : Transaction)
           (stats : CategoryStats) : Reason :=
  let amount := of_Z (amount transaction) in
  let percentDiff :=
      mul (div (sub amount (mean stats)) (abs (mean stats))) (Fin 100) in
  if gt amount (mean stats) then
    if gt amount (mul (s_max stats) (Fin 0.9))
    then Deviates ExceptionallyHigh (abs percentDiff)
    else Deviates AboveNormal (abs percentDiff)
  else
    if lt amount (mul (s_min stats) (Fin 1.1))
    then Deviates ExceptionallyLow (abs percentDiff)
    else Deviates BelowNormal (abs percentDiff).

(** [transactionsByCategory[k].push(t)] on an object with integer keys,
    which [Object.entries] lists in ascending order (category ids are
    positive). *)
Fixpoint pushByCategory (k : Z) (t : Transaction)
         (groups : list (Z * list Transaction)) : list (Z * list Transaction) :=
  match groups with
  | [] => [(k, [t])]
  | (k', ts) :: rest =>
    if k =? k' then (k', ts ++ [t])%list :: rest
    else if k <? k' then (k, [t]) :: groups
    else (k', ts) :: pushByCategory k t rest
  end.

Definition groupByCategory (transactions : list Transaction)
  : list (Z * list Transaction) :=
  fold_left (fun groups t =>
               if truthy (categoryId t)
               then pushByCategory (default 0 (categoryId t)) t groups
               else groups)
            transactions [].

Definition zScore (transaction : Transaction) (stats : CategoryStats)
  : number :=
  abs (div (sub (of_Z (amount transaction)) (mean stats)) (stdDev stats)).

(** The anomaly pushed for [transaction] in the group of key [cid]. *)
Definition zAnomaly (cid : Z) (stats : CategoryStats)
           (transaction : Transaction) : Anomaly :=
  mkAnomaly (id transaction) (description transaction) (amount transaction)
            (date transaction) (Some cid) (categoryNameOf transaction)
            (JsNumber.min (div (zScore transaction stats) (Fin 4)) (Fin 1))
            (getAnomalyReason transaction stats).

(** The body of the loop over [Object.entries(transactionsByCategory)]. *)
Definition scanCategory (entry : Z * list Transaction) : list Anomaly :=
  let '(cid, categoryTransactions) := entry in
  if (length categoryTransactions <? 3)%nat then []
  else
    let stats := calculateCategoryStats categoryTransactions in
    flat_map (fun transaction =>
                if gt (zScore transaction stats) (Fin 2)
                then [zAnomaly cid stats transaction]
                else [])
             categoryTransactions.

Definition uncategorized (transaction : Transaction) : Anomaly :=
  mkAnomaly (id transaction) (description transaction) (amount transaction)
            (date transaction) None "Não categorizada"%string (Fin 0.7)
            NoCategory.

(** The z-score anomalies pushed for the period's transactions. *)
Definition zScoreAnomalies (transactions : list Transaction) : list Anomaly :=
  flat_map scanCategory (groupByCategory transactions).

Definition period (now days : Z) : Z := setDate now (getDate now - days).

(** [detectAnomalies(userId, maxResults)] called at time [now]. *)
Definition detectAnomalies (now : Z) (rows : list Transaction)
           (uid maxResults : Z) : list Anomaly :=
  let endDate := now in
  let startDate := period now 90 in
  let transactions := Queries.findByPeriod uid startDate endDate rows in
  if (length transactions <? 5)%nat then []
  else
    let anomalies :=
        (zScoreAnomalies transactions
         ++ map uncategorized
                (List.filter (fun t => negb (truthy (categoryId t)))
                             transactions))%list
    in
    let sortedAnomalies :=
        Js.sortBy (fun a b =>
                     negb (gt (sub (anomalyScore b) (anomalyScore a)) (Fin 0)))
                  anomalies in
    Js.slice0 maxResults sortedAnomalies.

(** *** Recurrence *)

Definition normalizeDescription (description : string) : string :=
  Js.trim (AutoCategorization.normalizeText description).

Definition areDescriptionsSimilar (desc1 desc2 : string) : bool :=
  Js.includes desc1 desc2 || Js.includes desc2 desc1.

(** Keys of a JavaScript object are listed with the canonical array
    indices first, in ascending order, then the other strings in insertion
    order. *)
Fixpoint digitsValue (s : string) (acc : N) : option N :=
  match s with
  | EmptyString => Some acc
  | String c r =>
    if (N.leb 48 (Js.code c) && N.leb (Js.code c) 57)%N
    then digitsValue r (10 * acc + (Js.code c - 48))%N
    else None
  end.

Definition arrayIndex (s : string) : option N :=
  match s with
  | EmptyString => None
  | String c r =>
    if (N.eqb (Js.code c) 48 && negb (String.eqb r ""))%N then None
    else match digitsValue s 0 with
         | Some v => if (v <=? 4294967294)%N then Some v else None
         | None => None
         end
  end.

Fixpoint insertIndexKey (n : N) (k : string) (t : Transaction)
         (groups : list (string * list Transaction))
  : list (string * list Transaction) :=
  match groups with
  | [] => [(k, [t])]
  | (k', ts) :: rest =>
    match arrayIndex k' with
    | Some n' => if (n <? n')%N then (k, [t]) :: groups
                 else (k', ts) :: insertIndexKey n k t rest
    | None => (k, [t]) :: groups
    end
  end.

(** [groups[k] = [t]] for a key that is not yet present.  [groups] is an
    object literal: under the key [__proto__] the assignment runs the
    setter inherited from [Object.prototype], which makes the array the
    prototype of [groups]; no entry is made, and the transaction is in no
    group. *)
Definition newGroup (k : string) (t : Transaction)
           (groups : list (string * list Transaction))
  : list (string * list Transaction) :=
  if String.eqb k "__proto__" then groups
  else
    match arrayIndex k with
    | Some n => insertIndexKey n k t groups
    | None => (groups ++ [(k, [t])])%list
    end.

(** The inner loop of [groupSimilarTransactions]: the transaction joins
    the first group whose key is similar; [None] when there is none. *)
Fixpoint joinGroup (normalizedDesc : string) (t : Transaction)
         (groups : list (string * list Transaction))
  : option (list (string * list Transaction)) :=
  match groups with
  | [] => None
  | (groupKey, ts) :: rest =>
    if areDescriptionsSimilar normalizedDesc groupKey
    then Some ((groupKey, ts ++ [t])%list :: rest)
    else match joinGroup normalizedDesc t rest with
         | Some rest' => Some ((groupKey, ts) :: rest')
         | None => None
         end
  end.

(** [groupSimilarTransactions]; a [null] description raises. *)
Fixpoint groupSimilarFrom (groups : list (string * list Transaction))
         (transactions : list Transaction)
  : AutoCategorization.Attempt (list (string * list Transaction)) :=
  match transactions with
  | [] => AutoCategorization.Returned groups
  | t :: rest =>
    match description t with
    | None => AutoCategorization.Raised
    | Some d =>
      let normalizedDesc := normalizeDescription d in
      match joinGroup normalizedDesc t groups with
      | Some groups' => groupSimilarFrom groups' rest
      | None => groupSimilarFrom (newGroup normalizedDesc t groups) rest
      end
    end
  end.

Definition groupSimilarTransactions (transactions : list Transaction) :=
  groupSimilarFrom [] transactions.

Record RecurringGroup := mkRecurring {
  g_description : string;
  g_transactions : list Transaction;
  avgInterval : number;
  g_stdDev : number;
  lastTransaction : Transaction
}.

(** Day differences between consecutive transactions. *)
Fixpoint intervalsOf (sortedTransactions : list Transaction) : list Z :=
  match sortedTransactions with
  | prev :: (curr :: _) as rest =>
    round_div (date curr - date prev) msPerDay :: intervalsOf rest
  | _ => []
  end.

Definition sortByDate (transactions : list Transaction) : list Transaction :=
  Js.sortBy (fun a b => date a <=? date b) transactions.

Definition intervalMean (intervals : list Z) : number :=
  div (JsNumber.sum (map of_Z intervals)) (of_nat (length intervals)).

Definition intervalStdDev (intervals : list Z) : number :=
  let avgInterval := intervalMean intervals in
  let squaredDiffs := map (fun val => sq (sub (of_Z val) avgInterval))
                          intervals in
  sqrt (div (JsNumber.sum squaredDiffs) (of_nat (length intervals))).

(** The body of the loop of [identifyRecurringGroups]. *)
Definition recurringOf (entry : string * list Transaction)
  : list RecurringGroup :=
  let '(key, transactions) := entry in
  if (length transactions <? 3)%nat then []
  else
    let sortedTransactions := sortByDate transactions in
    let intervals := intervalsOf sortedTransactions in
    let avgInterval := intervalMean intervals in
    let stdDev := intervalStdDev intervals in
    let coefficientOfVariation := div stdDev avgInterval in
    if lt coefficientOfVariation (Fin 0.3) then
      match sortedTransactions with
      | first :: _ =>
        [mkRecurring key sortedTransactions avgInterval stdDev
                     (List.last sortedTransactions first)]
      | [] => []
      end
    else [].

Definition identifyRecurringGroups
           (groups : list (string * list Transaction)) : list RecurringGroup :=
  flat_map recurringOf groups.

Definition daysSince (now : Z) (t : Transaction) : Z :=
  round_div (now - date t) msPerDay.

(** The record pushed by [detectInterruptedPatterns]; [expectedDate] is the
    time value handed to [new Date(...)]. *)
Definition missingOf (now : Z) (group : RecurringGroup) : MissingRecurrence :=
  let lastTxDate := date (lastTransaction group) in
  let daysSinceLastTx := daysSince now (lastTransaction group) in
  mkMissing (description (lastTransaction group))
            (categoryNameOf (lastTransaction group))
            lastTxDate
            (add (of_Z lastTxDate)
                 (mul (mul (mul (mul (avgInterval group) (Fin 24)) (Fin 60))
                           (Fin 60)) (Fin 1000)))
            (sub (of_Z daysSinceLastTx) (avgInterval group))
            (abs (div (JsNumber.sum (amounts (g_transactions group)))
                      (of_nat (length (g_transactions group))))).

Definition isOverdue (now : Z) (group : RecurringGroup) : bool :=
  gt (of_Z (daysSince now (lastTransaction group)))
     (mul (avgInterval group) (Fin 1.5)).

Definition detectInterruptedPatterns (now : Z)
           (recurringGroups : list RecurringGroup) : list MissingRecurrence :=
  map (missingOf now) (List.filter (isOverdue now) recurringGroups).

(** [detectUnusualFrequency(userId)] called at time [now]. *)
Definition detectUnusualFrequency (now : Z) (rows : list Transaction)
           (uid : Z) : list MissingRecurrence :=
  let endDate := now in
  let startDate := period now 180 in
  let transactions := Queries.findByPeriod uid startDate endDate rows in
  match groupSimilarTransactions transactions with
  | AutoCategorization.Returned descriptionGroups =>
    detectInterruptedPatterns now (identifyRecurringGroups descriptionGroups)
  | AutoCategorization.Raised => []
  end.

(** *** Auxiliary notions used to state the properties *)

(** The amounts of a group as a sample of reals. *)
Definition sample (transactions : list Transaction) : list R :=
  map (fun t => IZR (amount t)) transactions.

(** The z-score in the form [|amount - mean| / stdDev]. *)
Definition zOf (stats : CategoryStats) (t : Transaction) : number :=
  div (abs (sub (of_Z (amount t)) (mean stats))) (stdDev stats).

(** The comparator of the final sort, descending by score. *)
Definition byScore (a b : Anomaly) : bool :=
  negb (gt (sub (anomalyScore b) (anomalyScore a)) (Fin 0)).

(** The day intervals of a group as a sample of reals. *)
Definition intervalSample (transactions : list Transaction) : list R :=
  map IZR (intervalsOf (sortByDate transactions)).

Definition lastOf (transactions : list Transaction) : option Transaction :=
  match transactions with
  | [] => None
  | first :: _ => Some (List.last transactions first)
  end.

(** The record that the specification describes for a recurring group
    whose last transaction is [lastTx], with average interval [avg] (days),
    [days] days after that transaction. *)
Definition missingSpec (lastTx : Transaction) (avg : R) (days : Z)
           (averageAmount : R) : MissingRecurrence :=
  mkMissing (description lastTx) (categoryNameOf lastTx) (date lastTx)
            (Fin (IZR (date lastTx) + avg * 24 * 60 * 60 * 1000))
            (Fin (IZR days - avg))
            (Fin averageAmount).

End AnomalyDetection.

(** ** IEEE 754 binary64 numbers

    JavaScript numbers as they are: doubles, every operation rounded to
    the nearest double, ties to even.  The operations are the primitive
    floats of the kernel; [Math.sqrt] is the correctly rounded square root
    and [Math.pow(x, 2)] is [x * x], as in V8. *)

Module Binary64.

Import Floats.
Set Warnings "-inexact-float".

(** The double nearest to an integer. *)
Definition of_Z (z : Z) : float :=
  SF2Prim (binary_normalize prec emax z 0 false).

(** The length of an array, which lies below 2^32. *)
Definition of_nat (n : nat) : float :=
  PrimFloat.of_uint63 (Uint63.of_Z (Z.of_nat n)).

(** [a > b]; false as soon as one operand is NaN. *)
Definition gt (a b : float) : bool := PrimFloat.ltb b a.

(** [Math.min(a, b)] and [Math.max(a, b)]: NaN when either operand is, and
    -0 below +0. *)
Definition min (a b : float) : float :=
  if PrimFloat.is_nan a || PrimFloat.is_nan b then PrimFloat.nan
  else if PrimFloat.ltb b a then b
  else if PrimFloat.ltb a b then a
  else if PrimFloat.get_sign a then a else b.

Definition max (a b : float) : float :=
  if PrimFloat.is_nan a || PrimFloat.is_nan b then PrimFloat.nan
  else if PrimFloat.ltb a b then b
  else if PrimFloat.ltb b a then a
  else if PrimFloat.get_sign a then b else a.

(** [Math.pow(a, 2)]. *)
Definition sq (a : float) : float := PrimFloat.mul a a.

(** [xs.reduce((acc, x) => acc + x, 0)]. *)
Definition sum (xs : list float) : float :=
  fold_left PrimFloat.add xs PrimFloat.zero.


End Binary64.

(** ** AnomalyDetectionService over doubles

    [detectAnomalies] once more, with the arithmetic of the code: whether a
    transaction is flagged hangs on the comparison [zScore > 2], which
    rounding can tip.  The grouping, the period and the category names are
    those of [AnomalyDetection]. *)

Module AnomalyDetection64.

Import Floats Binary64.
Set Warnings "-inexact-float".

Record CategoryStats := mkStats {
  mean : float;
  median : float;
  stdDev : float;
  s_min : float;
  s_max : float
}.

Inductive Reason :=
| Deviates (d : AnomalyDetection.Deviation) (percent : float)
| NoCategory.

Record Anomaly := mkAnomaly {
  transactionId : Z;
  a_description : option string;
  a_amount : Z;
  a_date : Z;
  a_categoryId : option Z;
  categoryName : string;
  anomalyScore : float;
  reason : Reason
}.

Definition amounts (transactions : list Transaction) : list float :=
  map (fun t => of_Z (amount t)) transactions.

Definition calculateCategoryStats (transactions : list Transaction)
  : CategoryStats :=
  let values := amounts transactions in
  let sum := Binary64.sum values in
  let mean := PrimFloat.div sum (of_nat (length values)) in
  let squaredDiffs := map (fun val => sq (PrimFloat.sub val mean)) values in
  let variance :=
      PrimFloat.div (Binary64.sum squaredDiffs) (of_nat (length values)) in
  let stdDev := PrimFloat.sqrt variance in
  let sortedValues :=
      Js.sortBy (fun a b => negb (gt (PrimFloat.sub a b) PrimFloat.zero))
                values in
  let middle := (length sortedValues / 2)%nat in
  let median :=
      if Nat.even (length sortedValues)
      then PrimFloat.div
             (PrimFloat.add (nth (middle - 1) sortedValues PrimFloat.nan)
                            (nth middle sortedValues PrimFloat.nan))
             2%float
      else nth middle sortedValues PrimFloat.nan in
  mkStats mean median stdDev
          (fold_left Binary64.min values PrimFloat.infinity)
          (fold_left Binary64.max values PrimFloat.neg_infinity).

Definition getAnomalyReason (transaction : Transaction)
           (stats : CategoryStats) : Reason :=
  let amount := of_Z (amount transaction) in
  let percentDiff :=
      PrimFloat.mul
        (PrimFloat.div (PrimFloat.sub amount (mean stats))
                       (PrimFloat.abs (mean stats)))
        100%float in
  if gt amount (mean stats) then
    if gt amount (PrimFloat.mul (s_max stats) 0.9%float)
    then Deviates AnomalyDetection.ExceptionallyHigh
                  (PrimFloat.abs percentDiff)
    else Deviates AnomalyDetection.AboveNormal (PrimFloat.abs percentDiff)
  else
    if PrimFloat.ltb amount (PrimFloat.mul (s_min stats) 1.1%float)
    then Deviates AnomalyDetection.ExceptionallyLow
                  (PrimFloat.abs percentDiff)
    else Deviates AnomalyDetection.BelowNormal (PrimFloat.abs percentDiff).

(** [Math.abs((transaction.amount - stats.mean) / stats.stdDev)]. *)
Definition zScore (transaction : Transaction) (stats : CategoryStats)
  : float :=
  PrimFloat.abs
    (PrimFloat.div (PrimFloat.sub (of_Z (amount transaction)) (mean stats))
                   (stdDev stats)).

(** The anomaly pushed for [transaction] in the group of key [cid]. *)
Definition zAnomaly (cid : Z) (stats : CategoryStats)
           (transaction : Transaction) : Anomaly :=
  mkAnomaly (id transaction) (description transaction) (amount transaction)
            (date transaction) (Some cid)
            (AnomalyDetection.categoryNameOf transaction)
            (Binary64.min (PrimFloat.div (zScore transaction stats) 4%float)
                          1%float)
            (getAnomalyReason transaction stats).

(** The body of the loop over [Object.entries(transactionsByCategory)]. *)
Definition scanCategory (entry : Z * list Transaction) : list Anomaly :=
  let '(cid, categoryTransactions) := entry in
  if (length categoryTransactions <? 3)%nat then []
  else
    let stats := calculateCategoryStats categoryTransactions in
    flat_map (fun transaction =>
                if gt (zScore transaction stats) 2%float
                then [zAnomaly cid stats transaction]
                else [])
             categoryTransactions.

Definition uncategorized (transaction : Transaction) : Anomaly :=
  mkAnomaly (id transaction) (description transaction) (amount transaction)
            (date transaction) None "Não categorizada"%string 0.7%float
            NoCategory.

(** The z-score anomalies pushed for the period's transactions. *)
Definition zScoreAnomalies (transactions : list Transaction) : list Anomaly :=
  flat_map scanCategory (AnomalyDetection.groupByCategory transactions).

(** [(a, b) => b.anomalyScore - a.anomalyScore] as the order of a stable
    sort: [a] stays in front of [b] unless the difference is positive. *)
Definition byScore (a b : Anomaly) : bool :=
  negb (gt (PrimFloat.sub (anomalyScore b) (anomalyScore a)) PrimFloat.zero).

(** [detectAnomalies(userId, maxResults)] called at time [now]. *)
Definition detectAnomalies (now : Z) (rows : list Transaction)
           (uid maxResults : Z) : list Anomaly :=
  let endDate := now in
  let startDate := AnomalyDetection.period now 90 in
  let transactions := Queries.findByPeriod uid startDate endDate rows in
  if (length transactions <? 5)%nat then []
  else
    let anomalies :=
        (zScoreAnomalies transactions
         ++ map uncategorized
                (List.filter (fun t => negb (truthy (categoryId t)))
                             transactions))%list
    in
    let sortedAnomalies := Js.sortBy byScore anomalies in
    Js.slice0 maxResults sortedAnomalies.

End AnomalyDetection64.

(** ** Notions used to describe the result of [detectAnomalies] *)

Module AnomalyNotions.

Import JsNumber JsDate AnomalyDetection.


(** The keys of the category groups are in ascending order. *)
Definition ascending (groups : list (Z * list Transaction)) : Prop :=
  StronglySorted (fun a b => fst a < fst b) groups.

(** The anomaly reports the transaction. *)
Definition reports (a : Anomaly) (t : Transaction) : Prop :=
  transactionId a = id t /\ a_description a = description t
  /\ a_amount a = amount t /\ a_date a = date t.

(** A paid transaction of the user dated within the last [days] days. *)
Definition inWindow (now days uid : Z) (rows : list Transaction)
           (t : Transaction) : Prop :=
  In t rows /\ userId t = uid /\ isPaid t = true
  /\ now - days * msPerDay <= date t <= now.

(** The two kinds of anomaly: a transaction without category, at the
    fixed score 0.7; or a transaction that stands out in its category,
    at a score above 0.5 and at most 1. *)
Definition scored (a : Anomaly) (t : Transaction) : Prop :=
  (truthy (categoryId t) = false /\ a_categoryId a = None
   /\ anomalyScore a = Fin 0.7 /\ reason a = NoCategory)
  \/ (truthy (categoryId t) = true /\ a_categoryId a = categoryId t
      /\ exists s, anomalyScore a = Fin s /\ (0.5 < s <= 1)%R).

(** Descending by score, on finite scores. *)
Definition scoreNotBelow (a b : Anomaly) : Prop :=
  exists x y, anomalyScore a = Fin x /\ anomalyScore b = Fin y
              /\ (y <= x)%R.

End AnomalyNotions.

(** ** Notions used to describe the description groups *)

Module GroupNotions.

Import AnomalyDetection.

(** The transaction has a description whose normal form contains the key
    or is contained in it. *)
Definition belongsTo (key : string) (t : Transaction) : Prop :=
  exists d, description t = Some d
            /\ areDescriptionsSimilar (normalizeDescription d) key = true.

(** The normal form of the transaction's description can be the key of a
    group: it is not [__proto__]. *)
Definition keyed (t : Transaction) : Prop :=
  forall d, description t = Some d ->
            normalizeDescription d <> "__proto__"%string.

End GroupNotions.

(** ** Months on the day line *)

Module Calendar.

Import JsDate.

(** The day number of the first day of the month of index
    [n = 12 * year + month], [month] counted from 0. *)
Definition monthStart (n : Z) : Z :=
  days_from_civil (n / 12) (n mod 12 + 1) 1.

(** The index of the month in which the time value [t] falls. *)
Definition monthIndex (t : Z) : Z := 12 * getFullYear t + getMonth t.

End Calendar.

(** ** SpendingPredictionService: the forecast per category *)

Module SpendingForecast.

Import JsNumber JsDate SpendingPrediction.

Inductive Trend := increasing | decreasing | stable.

Record CategoryPrediction := mkCategoryPrediction {
  cp_categoryId : Z;
  cp_categoryName : string;
  currentMonthActual : number;
  nextMonthPrediction : number;
  trend : Trend;
  cp_confidence : number
}.

Definition determineTrend (prediction : Prediction) (currentAmount : number)
  : Trend :=
  let percentChange :=
      if gt currentAmount (Fin 0)
      then mul (div (sub (p_amount prediction) currentAmount) currentAmount)
               (Fin 100)
      else Fin 0 in
  let threshold := Fin 5 in
  if gt percentChange threshold then increasing
  else if lt percentChange (neg threshold) then decreasing
  else stable.

(** The body of the loop over the categories in
    [predictNextMonthSpending]; [None] when nothing is pushed.
    [getCurrentMonthString] reads the clock at the same time [now]. *)
Definition predictCategory (now : Z) (transactions : list Transaction)
           (category : Category) : option CategoryPrediction :=
  let categoryTransactions :=
      List.filter (fun t => strict_eq (categoryId t)
                                      (Some (category_id category)))
                  transactions in
  if (0 <? length categoryTransactions)%nat then
    let monthlyAggregates := aggregateByMonth categoryTransactions in
    let prediction := calculateWeightedMovingAverage monthlyAggregates in
    let currentMonth := monthKey now in
    let currentMonthData :=
        find (fun m => MonthKey_eqb (month m) currentMonth)
             monthlyAggregates in
    let currentMonthAmount :=
        match currentMonthData with
        | Some data => abs (m_amount data)
        | None => Fin 0
        end in
    let trend := determineTrend prediction currentMonthAmount in
    Some (mkCategoryPrediction (category_id category) (name category)
                               currentMonthAmount (p_amount prediction)
                               trend (p_confidence prediction))
  else None.

(** [predictNextMonthSpending(userId)] called at time [now]. *)
Definition predictNextMonthSpending (now : Z) (rows : list Transaction)
           (cats : list Category) (uid : Z) : list CategoryPrediction :=
  let categories := Queries.findAll uid CategoryType_EXPENSE cats in
  let endDate := now in
  let startDate := setMonth now (getMonth now - 12) in
  let transactions := Queries.findByPeriod uid startDate endDate rows in
  if (length transactions =? 0)%nat then []
  else
    let predictions :=
        flat_map (fun category =>
                    match predictCategory now transactions category with
                    | Some prediction => [prediction]
                    | None => []
                    end)
                 categories in
    Js.sortBy (fun a b =>
                 negb (gt (sub (nextMonthPrediction b)
                               (nextMonthPrediction a)) (Fin 0)))
              predictions.

(** *** Auxiliary notions used to state the properties *)

(** The month keys of the transactions, each once, in the order in which
    they first occur. *)
Definition monthsOf (transactions : list Transaction) : list MonthKey :=
  fold_left (fun months t =>
               if existsb (MonthKey_eqb (monthKey (date t))) months
               then months
               else (months ++ [monthKey (date t)])%list)
            transactions [].

(** The signed sum of the amounts of the transactions of one month. *)
Definition monthTotal (k : MonthKey) (transactions : list Transaction) : Z :=
  fold_right Z.add 0
    (map amount
         (List.filter (fun t => MonthKey_eqb (monthKey (date t)) k)
                      transactions)).

End SpendingForecast.

(** ** AutoCategorizationService: training and feedback *)

Module AutoCategorizationLearning.

Import AutoCategorization.

(** [s.split(' ')]: the pieces between single spaces; the empty string
    gives one empty piece. *)
Fixpoint splitSpaces (s : string) : list string :=
  match s with
  | EmptyString => [EmptyString]
  | String c r =>
    if N.eqb (Js.code c) 32 then EmptyString :: splitSpaces r
    else match splitSpaces r with
         | piece :: pieces => String c piece :: pieces
         | [] => [String c EmptyString]
         end
  end.

(** The words of a description that feedback turns into keywords. *)
Definition relevantWords (description : string) : list string :=
  List.filter (fun w => (3 <? String.length w)%nat)
              (splitSpaces (normalizeText description)).

(** [for (const word of words) if (!list.includes(word)) list.push(word)]. *)
Definition pushNew (known : list string) (word : string) : list string :=
  if existsb (String.eqb word) known then known else (known ++ [word])%list.

Definition learnWords (words known : list string) : list string :=
  fold_left pushNew words known.

(** [this.keywordMap[key] = list]. *)
Fixpoint setKeywords (key : string) (known : list string)
         (keywordMap : list (string * list string))
  : list (string * list string) :=
  match keywordMap with
  | [] => [(key, known)]
  | (k, v) :: rest =>
    if String.eqb k key then (k, known) :: rest
    else (k, v) :: setKeywords key known rest
  end.

(** The keyword part of [learnFromFeedback] for a category named
    [categoryName] and a transaction described [description].  Under an
    inherited key the first [includes] raises and nothing is stored. *)
Definition updateKeywords (categoryName description : string)
           (keywordMap : list (string * list string))
  : list (string * list string) :=
  let key := Js.toLowerCase categoryName in
  if inherited key then keywordMap
  else
    let known := match keywords keywordMap key with
                 | Some l => l
                 | None => []
                 end in
    setKeywords key (learnWords (relevantWords description) known)
                keywordMap.

(** The learner: the documents handed to the classifier, each with its
    label, and the keyword map. *)
Record Learner := mkLearner {
  docs : list (string * Z);
  keywordMap : list (string * list string);
  isModelTrained : bool
}.

(** [transactionsService.findOne(id, userId)] and
    [categoriesService.findOne(id, userId)] on the tables; [None] stands
    for the [NotFoundException]. *)
Definition findTransaction (tid uid : Z) (rows : list Transaction)
  : option Transaction :=
  find (fun t => (id t =? tid) && (userId t =? uid)) rows.

Definition findCategory (cid uid : Z) (cats : list Category)
  : option Category :=
  find (fun c => (category_id c =? cid) && (category_userId c =? uid)) cats.

Section Training.

Variable tokenize : string -> list string.

(** [learnFromFeedback(transactionId, categoryId, userId)]; every
    exception is caught and what has been done so far stays.  The
    classifier's own [addDocument] and [train] are taken to return. *)
Definition learnFromFeedback (rows : list Transaction) (cats : list Category)
           (transactionId cid uid : Z) (m : Learner) : Learner :=
  match findTransaction transactionId uid rows with
  | None => m
  | Some transaction =>
    match description transaction with
    | None => m
    | Some d =>
      let features := extractFeatures tokenize d (amount transaction) in
      let docs' := (docs m ++ [(features, cid)])%list in
      match findCategory cid uid cats with
      | None => mkLearner docs' (keywordMap m) (isModelTrained m)
      | Some category =>
        mkLearner docs' (updateKeywords (name category) d (keywordMap m))
                  (isModelTrained m)
      end
    end
  end.

(** A call of [learnFromFeedback] together with the tables as they are
    when it is made, and a run of such calls. *)
Record Feedback := mkFeedback {
  f_rows : list Transaction;
  f_cats : list Category;
  f_transactionId : Z;
  f_categoryId : Z;
  f_userId : Z
}.

Definition learnFrom (m : Learner) (f : Feedback) : Learner :=
  learnFromFeedback (f_rows f) (f_cats f) (f_transactionId f)
                    (f_categoryId f) (f_userId f) m.

Definition learnFromAll (calls : list Feedback) (m : Learner) : Learner :=
  fold_left learnFrom calls m.

(** [transactionsService.findCategorized(limit)]: rows of all users with a
    category, most recent first. *)
Definition findCategorized (limit : nat) (rows : list Transaction)
  : list Transaction :=
  firstn limit
    (Js.sortBy (fun a b => date b <=? date a)
               (List.filter (fun t => match categoryId t with
                                      | Some _ => true
                                      | None => false
                                      end) rows)).

(** The loop of [trainModelWithHistoricalData]: documents are added until
    a description is [null], which raises. *)
Fixpoint addDocuments (transactions : list Transaction)
         (documents : list (string * Z)) : list (string * Z) * bool :=
  match transactions with
  | [] => (documents, true)
  | t :: rest =>
    match description t with
    | None => (documents, false)
    | Some d =>
      addDocuments rest
        (documents ++ [(extractFeatures tokenize d (amount t),
                        default 0 (categoryId t))])%list
    end
  end.

(** [trainModelWithHistoricalData()]. *)
Definition trainModelWithHistoricalData (rows : list Transaction)
           (m : Learner) : Learner :=
  let categorizedTransactions := findCategorized 5000 rows in
  if (0 <? length categorizedTransactions)%nat then
    match addDocuments categorizedTransactions (docs m) with
    | (docs', true) =>
      if (0 <? length docs')%nat
      then mkLearner docs' (keywordMap m) true
      else mkLearner docs' (keywordMap m) (isModelTrained m)
    | (docs', false) => mkLearner docs' (keywordMap m) (isModelTrained m)
    end
  else m.

End Training.

End AutoCategorizationLearning.

(** ** The three sources of a category suggestion *)

Module SuggestionSources.

Import JsNumber AutoCategorization.

Section Sources.

Variable tokenize : string -> list string.
Variable getClassifications : string -> list (Z * number).
Variable isModelTrained : bool.
Variable rows : list Transaction.
Variable cats : list Category.

(** The suggestion is the classifier's top label for the description. *)
Definition fromClassifier (desc : option string) (amount : Z)
           (r : Suggestion) : Prop :=
  isModelTrained = true
  /\ exists d label rest,
      desc = Some d
      /\ getClassifications (extractFeatures tokenize d amount)
         = (label, confidence r) :: rest
      /\ s_categoryId r = Some label
      /\ gt (confidence r) (Fin 0.3) = true.

(** The suggestion is the category of one of the user's own transactions
    with a similar description. *)
Definition fromHistory (desc : option string) (uid : Z)
           (r : Suggestion) : Prop :=
  confidence r = Fin 0.85
  /\ exists d t,
      desc = Some d /\ In t rows /\ userId t = uid
      /\ similar (normalizeText d) t = true
      /\ s_categoryId r = categoryId t.

(** The suggestion is one of the user's own categories, of the type that
    goes with the sign of the amount or of type BOTH. *)
Definition fromCategories (amount uid : Z) (r : Suggestion) : Prop :=
  (confidence r = Fin 0.7 \/ confidence r = Fin 0.3)
  /\ exists c,
      In c cats /\ category_userId c = uid
      /\ (category_type c = polarity amount
          \/ category_type c = CategoryType_BOTH)
      /\ s_categoryId r = Some (category_id c).

End Sources.

End SuggestionSources.

(** ** AccountsService: summary and removal *)

Module AccountsService.

Import Ledger.

(** [accountsService.findAll(userId)]: the user's accounts.  The query
    orders them by name, a column the model does not carry; [getSummary]
    does not depend on the order. *)
Definition findAll (uid : Z) (s : Store) : list Account :=
  List.filter (fun a => account_userId a =? uid)
              (map snd (map_to_list (accounts s))).



(** [transactionsService.hasTransactionsForAccount(accountId)]: some row
    has the account as source or as destination. *)
Definition references (aid : Z) (t : Transaction) : bool :=
  (accountId t =? aid) || strict_eq (destinationAccountId t) (Some aid).

Definition hasTransactionsForAccount (aid : Z) (s : Store) : bool :=
  (0 <? length (List.filter (references aid)
                            (map snd (map_to_list (transactions s)))))%nat.


(** How [accountsService.remove(id, userId)] ends. *)
Inductive Removal :=
| Removed
| ThrewNotFound
| ThrewForbidden.

Definition remove (aid uid : Z) (s : Store) : Removal * Store :=
  match accounts_findOne aid uid s with
  | (Ok account, _) =>
    if hasTransactionsForAccount aid s then (ThrewForbidden, s)
    else (Removed, mkStore (delete aid (accounts s)) (transactions s)
                           (nextId s))
  | (Throw _, _) => (ThrewNotFound, s)
  end.

End AccountsService.

(** ** Stores met along the ledger operations *)

Module LedgerNotions.

Import Ledger.

(** The entity that [create] hands to [repository.save], once it has
    received the id [newId]. *)
Definition entity (uid : Z) (dto : CreateTransactionDto) (newId : Z)
  : Transaction :=
  {| id := newId;
     amount := if TransactionType_eqb (c_type dto) EXPENSE
               then - Z.abs (c_amount dto) else c_amount dto;
     type := c_type dto;
     description := c_description dto;
     date := c_date dto;
     isPaid := default false (c_isPaid dto);
     accountId := c_accountId dto;
     destinationAccountId := c_destinationAccountId dto;
     categoryId := c_categoryId dto;
     userId := uid;
     category := None |}.

(** The store after a new row has been saved, after a loaded row has been
    saved, and after a row has been removed. *)
Definition inserted (t : Transaction) (s : Store) : Store :=
  mkStore (accounts s) (<[nextId s := t]> (transactions s)) (nextId s + 1).

Definition overwritten (t : Transaction) (s : Store) : Store :=
  mkStore (accounts s) (<[id t := t]> (transactions s)) (nextId s).

Definition removed (t : Transaction) (s : Store) : Store :=
  mkStore (accounts s) (delete (id t) (transactions s)) (nextId s).

(** What a transaction contributes to the balance of its account when it
    is not a transfer: its amount if paid, nothing otherwise. *)
Definition posted (t : Transaction) : Z :=
  if isPaid t then amount t else 0.

End LedgerNotions.

(** ** Concrete inputs used by the examples below *)

Module Scenario.

Import Ledger.

(** User 7 owns account 1 (balance 1000) and account 2 (balance 500). *)
Definition twoAccounts : Store :=
  mkStore (<[2 := mkAccount 2 500 7]> (<[1 := mkAccount 1 1000 7]> ∅)) ∅ 1.

Definition paidExpense50 : CreateTransactionDto :=
  mkCreateDto 50 EXPENSE None 0 (Some true) 1 None None.

Definition amountTo80 : UpdateTransactionDto :=
  mkUpdateDto (Some 80) None None None None None None None.

Definition income_minus5 : CreateTransactionDto :=
  mkCreateDto (-5) INCOME None 0 (Some true) 1 None None.

Definition paidTransfer200 : CreateTransactionDto :=
  mkCreateDto 200 TRANSFER None 0 (Some true) 1 (Some 2) None.

Definition destinationTo1 : UpdateTransactionDto :=
  mkUpdateDto None None None None None None (Some 1) None.

Definition sourceTo2 : UpdateTransactionDto :=
  mkUpdateDto None None None None None (Some 2) None None.

(** The transfer of 200 from account 1 to account 2, as stored. *)
Definition transfer200 : Transaction :=
  mkTransaction 1 200 TRANSFER None 0 true 1 (Some 2) None 7 None.

(** The same transfer once [update] has moved its destination onto its
    source account. *)
Definition selfTransfer200 : Transaction :=
  mkTransaction 1 200 TRANSFER None 0 true 1 (Some 1) None 7 None.

(** User 7 has the expense category 3; the older transaction 1 is a ride
    filed under category 9, the newer transaction 2 has no description. *)
Definition ride : Transaction :=
  mkTransaction 1 (-10) EXPENSE (Some "Uber"%string) 100 true 1 None
                (Some 9) 7 None.

Definition undescribed : Transaction :=
  mkTransaction 2 (-10) EXPENSE None 200 true 1 None None 7 None.

Definition transport : Category :=
  mkCategory 3 "Transporte" CategoryType_EXPENSE 7.

(** Another expense category of user 7, under a name that every object
    inherits a member for. *)
Definition builder : Category :=
  mkCategory 5 "Constructor" CategoryType_EXPENSE 7.

(** Scenario 3 of the specification: four months of totals, listed out
    of order. *)
Definition food : list (JsDate.MonthKey * R) :=
  [((2024, 3), 110%R); ((2024, 1), 100%R); ((2024, 4), 130%R);
   ((2024, 2), 120%R)].

(** Three transactions of user 7 with the same description, 30 days
    apart, two expenses of 100 and one income of 100; [today] is 50 days
    after the last one. *)
Definition january : Transaction :=
  mkTransaction 1 (-100) EXPENSE (Some "Netflix"%string)
                (JsDate.utc 2024 1 1) true 1 None (Some 2) 7 None.

Definition february : Transaction :=
  mkTransaction 2 (-100) EXPENSE (Some "Netflix"%string)
                (JsDate.utc 2024 1 31) true 1 None (Some 2) 7 None.

Definition march : Transaction :=
  mkTransaction 3 100 INCOME (Some "Netflix"%string)
                (JsDate.utc 2024 3 1) true 1 None (Some 2) 7 None.

Definition subscription : list Transaction := [january; february; march].

Definition today : Z := JsDate.utc 2024 4 20.

(** The classifier of an untrained service. *)
Definition noTokens (_ : string) : list string := [].
Definition noClasses (_ : string) : list (Z * JsNumber.number) := [].

End Scenario.

(** Further inputs, for the properties beyond the specification. *)

Module Cases.

Import JsDate.

(** A ride paid on 2024-03-10 by user 7, in category 3. *)
Definition marchRide : Transaction :=
  mkTransaction 1 (-40) EXPENSE (Some "Uber"%string) (utc 2024 3 10) true 1
                None (Some 3) 7 None.

Definition midApril : Z := utc 2024 4 15.



End Cases.

(* ================================================================== *)
(** * Part II: properties                                               *)
(* ================================================================== *)

(** ** The ledger mutation protocol *)

Module LedgerFacts.

Import Ledger.

Lemma updateBalance_adjust k x s :
  is_Some (accounts s !! k) ->
  updateBalance k x s = (Ok tt, adjust k x s).
Proof.
  intros [a Ha]. unfold updateBalance, adjust. now rewrite Ha.
Qed.

Lemma updateBalance_missing k x s :
  accounts s !! k = None ->
  updateBalance k x s = (Throw NotFoundException, s).
Proof. intros Ha. unfold updateBalance. now rewrite Ha. Qed.

Lemma adjust_lookup_same k x s :
  accounts (adjust k x s) !! k =
  (fun a => mkAccount (account_id a) (balance a + x) (account_userId a))
    <$> accounts s !! k.
Proof.
  unfold adjust. destruct (accounts s !! k) as [a|] eqn:Ha; simpl.
  - now rewrite lookup_insert_eq.
  - now rewrite Ha.
Qed.

Lemma adjust_lookup_other k j x s :
  k <> j -> accounts (adjust k x s) !! j = accounts s !! j.
Proof.
  intros Hne. unfold adjust. destruct (accounts s !! k); simpl; [|done].
  now rewrite lookup_insert_ne.
Qed.

Lemma adjust_is_Some k j x s :
  is_Some (accounts s !! j) -> is_Some (accounts (adjust k x s) !! j).
Proof.
  intros Hj. destruct (decide (k = j)) as [->|Hne].
  - rewrite adjust_lookup_same. destruct Hj as [a ->]. now eexists.
  - now rewrite adjust_lookup_other.
Qed.

Lemma adjust_transactions k x s :
  transactions (adjust k x s) = transactions s.
Proof. unfold adjust. now destruct (accounts s !! k). Qed.

Lemma adjust_nextId k x s : nextId (adjust k x s) = nextId s.
Proof. unfold adjust. now destruct (accounts s !! k). Qed.

Lemma store_eq s1 s2 :
  accounts s1 = accounts s2 -> transactions s1 = transactions s2 ->
  nextId s1 = nextId s2 -> s1 = s2.
Proof. destruct s1, s2; simpl; congruence. Qed.

Lemma adjust_adjust k x y s :
  adjust k y (adjust k x s) = adjust k (x + y) s.
Proof.
  apply store_eq; rewrite ?adjust_transactions, ?adjust_nextId; try done.
  apply map_eq. intros j. destruct (decide (k = j)) as [->|Hne].
  - rewrite !adjust_lookup_same. destruct (accounts s !! j) as [a|]; simpl;
      [|done]. do 2 f_equal. lia.
  - now rewrite !adjust_lookup_other.
Qed.

Lemma adjust_zero k s : adjust k 0 s = s.
Proof.
  apply store_eq; rewrite ?adjust_transactions, ?adjust_nextId; try done.
  apply map_eq. intros j. destruct (decide (k = j)) as [->|Hne].
  - rewrite adjust_lookup_same. destruct (accounts s !! j) as [a|]; simpl;
      [|done]. destruct a; simpl. do 2 f_equal. lia.
  - now rewrite adjust_lookup_other.
Qed.

Lemma adjust_comm k j x y s :
  k <> j -> adjust k x (adjust j y s) = adjust j y (adjust k x s).
Proof.
  intros Hne.
  apply store_eq; rewrite ?adjust_transactions, ?adjust_nextId; try done.
  apply map_eq. intros i.
  destruct (decide (k = i)) as [->|Hk]; destruct (decide (j = i)) as [->|Hj];
    try congruence;
    rewrite ?adjust_lookup_same, ?adjust_lookup_other by done;
    rewrite ?adjust_lookup_same, ?adjust_lookup_other by done; done.
Qed.

Lemma balanceOf_adjust_same k x s :
  balanceOf (adjust k x s) k = (fun b => b + x) <$> balanceOf s k.
Proof.
  unfold balanceOf. rewrite adjust_lookup_same.
  now destruct (accounts s !! k).
Qed.

Lemma balanceOf_adjust_other k j x s :
  k <> j -> balanceOf (adjust k x s) j = balanceOf s j.
Proof. intros H. unfold balanceOf. now rewrite adjust_lookup_other. Qed.

Lemma adjust_land k x s : adjust k x s = land k (incremented k x s) s.
Proof. unfold adjust, land, incremented. now destruct (accounts s !! k). Qed.

Lemma incremented_is_Some k x s :
  is_Some (accounts s !! k) -> is_Some (incremented k x s).
Proof. intros [a Ha]. unfold incremented. rewrite Ha. now eexists. Qed.

Lemma land_comm k j r1 r2 s :
  k <> j -> land k r1 (land j r2 s) = land j r2 (land k r1 s).
Proof.
  intros Hne. destruct r1 as [a|], r2 as [b|]; simpl; try reflexivity.
  f_equal. now apply insert_insert_ne.
Qed.

Lemma land_transactions k r s : transactions (land k r s) = transactions s.
Proof. now destruct r. Qed.

Lemma land_nextId k r s : nextId (land k r s) = nextId s.
Proof. now destruct r. Qed.

Lemma adjust_from_transactions s0 k x s :
  transactions (adjust_from s0 k x s) = transactions s.
Proof. apply land_transactions. Qed.

Lemma adjust_from_nextId s0 k x s :
  nextId (adjust_from s0 k x s) = nextId s.
Proof. apply land_nextId. Qed.

(** A save that lands on another row has read what it would read now. *)
Lemma adjust_from_other k j x y s :
  k <> j -> adjust_from s j x (adjust k y s) = adjust j x (adjust k y s).
Proof.
  intros Hne. unfold adjust_from. rewrite (adjust_land j).
  unfold incremented. now rewrite adjust_lookup_other.
Qed.

Lemma adjust_from_lookup_same s0 k x s :
  is_Some (accounts s0 !! k) ->
  accounts (adjust_from s0 k x s) !! k = incremented k x s0.
Proof.
  intros [a Ha]. unfold adjust_from, incremented. rewrite Ha. simpl.
  apply lookup_insert_eq.
Qed.

Lemma adjust_from_lookup_other s0 k j x s :
  k <> j -> accounts (adjust_from s0 k x s) !! j = accounts s !! j.
Proof.
  intros Hne. unfold adjust_from. destruct (incremented k x s0); simpl;
    [|done]. now apply lookup_insert_ne.
Qed.

Lemma adjust_from_is_Some s0 k j x s :
  is_Some (accounts s !! j) -> is_Some (accounts (adjust_from s0 k x s) !! j).
Proof.
  intros Hj. unfold adjust_from. destruct (incremented k x s0); simpl;
    [|done]. destruct (decide (k = j)) as [->|Hne].
  - rewrite lookup_insert_eq. now eexists.
  - now rewrite lookup_insert_ne.
Qed.

(** The pair of calls, by the order of its saves. *)
Lemma promise_all_updateBalance_Ok landing k1 x1 k2 x2 s :
  is_Some (accounts s !! k1) -> is_Some (accounts s !! k2) ->
  promise_all_updateBalance landing k1 x1 k2 x2 s
  = (Ok tt, match landing with
            | InOrder => adjust_from s k2 x2 (adjust k1 x1 s)
            | Swapped => adjust_from s k1 x1 (adjust k2 x2 s)
            end).
Proof.
  intros H1 H2. unfold promise_all_updateBalance, adjust_from.
  rewrite !adjust_land.
  destruct (incremented_is_Some k1 x1 s H1) as [a ->].
  destruct (incremented_is_Some k2 x2 s H2) as [b ->].
  now destruct landing.
Qed.

Lemma promise_all_updateBalance_distinct landing k1 x1 k2 x2 s :
  is_Some (accounts s !! k1) -> is_Some (accounts s !! k2) -> k1 <> k2 ->
  promise_all_updateBalance landing k1 x1 k2 x2 s
  = (Ok tt, adjust k2 x2 (adjust k1 x1 s)).
Proof.
  intros H1 H2 Hne. rewrite promise_all_updateBalance_Ok by done.
  destruct landing.
  - now rewrite adjust_from_other.
  - rewrite adjust_from_other by congruence. now rewrite adjust_comm.
Qed.

Lemma promise_all_updateBalance_second_missing landing k1 x1 k2 x2 s :
  is_Some (accounts s !! k1) -> accounts s !! k2 = None ->
  promise_all_updateBalance landing k1 x1 k2 x2 s
  = (Throw NotFoundException, adjust k1 x1 s).
Proof.
  intros [a Ha] H2. unfold promise_all_updateBalance, adjust, incremented.
  rewrite Ha, H2. now destruct landing.
Qed.

Lemma promise_all_updateBalance_transactions landing k1 x1 k2 x2 s :
  transactions (snd (promise_all_updateBalance landing k1 x1 k2 x2 s))
  = transactions s.
Proof.
  unfold promise_all_updateBalance.
  destruct (incremented k1 x1 s), (incremented k2 x2 s), landing; reflexivity.
Qed.

Lemma updateAccountBalance_applied t s :
  touched_exist t s -> updateAccountBalance t s = (Ok tt, applied t s).
Proof.
  intros [Hsrc Hdst].
  unfold updateAccountBalance, updateAccountBalanceWith, applied, try_rethrow.
  destruct (is_transfer_with_destination t).
  - now rewrite promise_all_updateBalance_Ok by auto.
  - now rewrite (updateBalance_adjust _ _ _ Hsrc).
Qed.

Lemma reverseAccountBalance_reversed t s :
  touched_exist t s -> reverseAccountBalance t s = (Ok tt, reversed t s).
Proof.
  intros [Hsrc Hdst].
  unfold reverseAccountBalance, reverseAccountBalanceWith, reversed,
    try_rethrow.
  destruct (is_transfer_with_destination t).
  - now rewrite promise_all_updateBalance_Ok by auto.
  - now rewrite (updateBalance_adjust _ _ _ Hsrc).
Qed.

(** Between two accounts the order of the saves makes no difference. *)
Lemma updateAccountBalanceWith_applied landing t s :
  touched_exist t s ->
  (is_transfer_with_destination t = true -> accountId t <> destination t) ->
  updateAccountBalanceWith landing t s = (Ok tt, applied t s).
Proof.
  intros [Hsrc Hdst] Hne.
  unfold updateAccountBalanceWith, applied, try_rethrow.
  destruct (is_transfer_with_destination t).
  - rewrite promise_all_updateBalance_distinct by auto.
    now rewrite adjust_from_other by auto.
  - now rewrite (updateBalance_adjust _ _ _ Hsrc).
Qed.

Lemma reverseAccountBalanceWith_reversed landing t s :
  touched_exist t s ->
  (is_transfer_with_destination t = true -> accountId t <> destination t) ->
  reverseAccountBalanceWith landing t s = (Ok tt, reversed t s).
Proof.
  intros [Hsrc Hdst] Hne.
  unfold reverseAccountBalanceWith, reversed, try_rethrow.
  destruct (is_transfer_with_destination t).
  - rewrite promise_all_updateBalance_distinct by auto.
    now rewrite adjust_from_other by auto.
  - now rewrite (updateBalance_adjust _ _ _ Hsrc).
Qed.

Lemma touched_exist_applied t s :
  touched_exist t s -> touched_exist t (applied t s).
Proof.
  intros [Hsrc Hdst]. unfold applied, touched_exist.
  destruct (is_transfer_with_destination t).
  - split; [|intros _]; apply adjust_from_is_Some, adjust_is_Some; auto.
  - split; [|discriminate]. now apply adjust_is_Some.
Qed.

(** Two saves on the same row: the later one stays. *)
Lemma adjust_from_same s0 k x y s :
  is_Some (accounts s0 !! k) ->
  adjust_from s0 k x (adjust_from s0 k y s) = adjust_from s0 k x s.
Proof.
  intros [a Ha]. unfold adjust_from, incremented. rewrite Ha. simpl.
  f_equal. apply insert_insert_eq.
Qed.

Lemma adjust_from_self k x s :
  adjust_from s k x s = adjust k x s.
Proof. unfold adjust_from. now rewrite adjust_land. Qed.

Lemma reversed_applied t s : reversed t (applied t s) = s.
Proof.
  unfold reversed, applied. destruct (is_transfer_with_destination t).
  - destruct (decide (accountId t = destination t)) as [Heq|Hne].
    + rewrite <- Heq. set (k := accountId t). set (x := Z.abs (amount t)).
      destruct (accounts s !! k) as [a|] eqn:Ha.
      * apply store_eq.
        -- apply map_eq. intros j. destruct (decide (k = j)) as [<-|Hj].
           ++ rewrite adjust_from_lookup_same.
              ** unfold incremented. rewrite adjust_from_lookup_same
                   by (rewrite Ha; now eexists).
                 unfold incremented. rewrite Ha. simpl. destruct a; simpl.
                 do 2 f_equal. lia.
              ** apply adjust_from_is_Some, adjust_is_Some. rewrite Ha.
                 now eexists.
           ++ repeat first [rewrite adjust_from_lookup_other by done
                           |rewrite adjust_lookup_other by done].
              reflexivity.
        -- repeat first [rewrite adjust_from_transactions
                        |rewrite adjust_transactions]. reflexivity.
        -- repeat first [rewrite adjust_from_nextId|rewrite adjust_nextId].
           reflexivity.
      * assert (Hid : forall y s1,
                   accounts s1 !! k = None ->
                   adjust_from s1 k y s1 = s1 /\ adjust k y s1 = s1).
        { intros y s1 H1. unfold adjust_from, incremented, adjust.
          now rewrite H1. }
        rewrite (proj2 (Hid (- x) s Ha)), (proj1 (Hid x s Ha)).
        now rewrite (proj2 (Hid x s Ha)), (proj1 (Hid (- x) s Ha)).
    + rewrite !adjust_from_other by done.
      rewrite (adjust_comm (accountId t) (destination t)) by done.
      rewrite adjust_adjust, Z.add_opp_diag_r, adjust_zero.
      rewrite adjust_adjust, Z.add_opp_diag_l. apply adjust_zero.
  - rewrite adjust_adjust, Z.add_opp_diag_r. apply adjust_zero.
Qed.


(** Effects on the transaction table. *)

Lemma updateBalance_transactions k x s :
  transactions (snd (updateBalance k x s)) = transactions s.
Proof. unfold updateBalance. now destruct (accounts s !! k). Qed.

Lemma updateAccountBalanceWith_transactions landing t s :
  transactions (snd (updateAccountBalanceWith landing t s)) = transactions s.
Proof.
  unfold updateAccountBalanceWith, try_rethrow.
  destruct (is_transfer_with_destination t).
  - pose proof (promise_all_updateBalance_transactions landing
                  (accountId t) (- Z.abs (amount t))
                  (destination t) (Z.abs (amount t)) s) as H1.
    destruct (promise_all_updateBalance _ _ _ _ _ s) as [[]]; exact H1.
  - pose proof (updateBalance_transactions (accountId t) (amount t) s) as H1.
    destruct (updateBalance (accountId t) _ s) as [[]]; simpl in *; congruence.
Qed.

Lemma reverseAccountBalanceWith_transactions landing t s :
  transactions (snd (reverseAccountBalanceWith landing t s)) = transactions s.
Proof.
  unfold reverseAccountBalanceWith, try_rethrow.
  destruct (is_transfer_with_destination t).
  - pose proof (promise_all_updateBalance_transactions landing
                  (accountId t) (Z.abs (amount t))
                  (destination t) (- Z.abs (amount t)) s) as H1.
    destruct (promise_all_updateBalance _ _ _ _ _ s) as [[]]; exact H1.
  - pose proof (updateBalance_transactions (accountId t) (- amount t) s) as H1.
    destruct (updateBalance (accountId t) _ s) as [[]]; simpl in *; congruence.
Qed.

Lemma updateAccountBalance_transactions t s :
  transactions (snd (updateAccountBalance t s)) = transactions s.
Proof. apply updateAccountBalanceWith_transactions. Qed.

Lemma reverseAccountBalance_transactions t s :
  transactions (snd (reverseAccountBalance t s)) = transactions s.
Proof. apply reverseAccountBalanceWith_transactions. Qed.

Lemma accounts_findOne_store aid uid s :
  snd (accounts_findOne aid uid s) = s.
Proof.
  unfold accounts_findOne. destruct (accounts s !! aid); [|done].
  now destruct (_ =? _).
Qed.

Lemma findOne_store tid uid s : snd (findOne tid uid s) = s.
Proof.
  unfold findOne. destruct (transactions s !! tid); [|done].
  now destruct (_ =? _).
Qed.

Lemma findOne_Ok tid uid s t s' :
  findOne tid uid s = (Ok t, s') ->
  transactions s !! tid = Some t /\ userId t = uid /\ s' = s.
Proof.
  unfold findOne. destruct (transactions s !! tid) as [t0|]; [|discriminate].
  destruct (userId t0 =? uid) eqn:E; [|discriminate].
  intros [= -> ->]. repeat split. lia.
Qed.

(** The validation at the head of [update] only reads the store. *)
Lemma validate_update_store t uid dto s :
  snd (validate_update t uid dto s) = s.
Proof.
  unfold validate_update, bind, when, ret, throw.
  destruct (truthy (u_accountId dto) && _); simpl.
  - pose proof (accounts_findOne_store (default 0 (u_accountId dto)) uid s)
      as H1.
    destruct (accounts_findOne (default 0 (u_accountId dto)) uid s)
      as [[a|e] s1]; simpl in H1; subst s1; [|done].
    destruct (_ && _ && _); [|done].
    pose proof (accounts_findOne_store
                  (default 0 (u_destinationAccountId dto)) uid s) as H2.
    destruct (accounts_findOne (default 0 (u_destinationAccountId dto)) uid s)
      as [[a'|e'] s2]; simpl in H2; subst s2; [|done].
    now destruct (strict_eq _ _).
  - destruct (_ && _ && _); [|done].
    pose proof (accounts_findOne_store
                  (default 0 (u_destinationAccountId dto)) uid s) as H2.
    destruct (accounts_findOne (default 0 (u_destinationAccountId dto)) uid s)
      as [[a'|e'] s2]; simpl in H2; subst s2; [|done].
    now destruct (strict_eq _ _).
Qed.

(** [update] is: reverse the snapshot if it was paid, save the revised
    entity, apply it if it is paid. *)
Lemma update_protocol tid uid dto s t :
  findOne tid uid s = (Ok t, s) ->
  validate_update t uid dto s = (Ok tt, s) ->
  update tid uid dto s =
  (when (isPaid t) (reverseAccountBalance t) ;;;
   updatedTransaction <-- save (assign t (resign t dto)) ;;
   when (isPaid updatedTransaction)
        (updateAccountBalance updatedTransaction) ;;;
   ret updatedTransaction) s.
Proof.
  intros Hfind Hval. unfold update. unfold bind at 1. rewrite Hfind.
  unfold bind at 1. now rewrite Hval.
Qed.


(** *** Reverse after apply *)

(** On one and the same row the save that lands last decides. *)
Lemma promise_all_updateBalance_same landing k x1 x2 s a :
  accounts s !! k = Some a ->
  exists s',
    promise_all_updateBalance landing k x1 k x2 s = (Ok tt, s')
    /\ accounts s' !! k
       = Some (mkAccount (account_id a)
                         (balance a + lastSaved landing x1 x2)
                         (account_userId a)).
Proof.
  intros Ha. eexists. split.
  - apply promise_all_updateBalance_Ok; rewrite Ha; now eexists.
  - destruct landing; rewrite adjust_from_lookup_same
      by (rewrite Ha; now eexists); unfold incremented; now rewrite Ha.
Qed.

(** C2. Applying the balance effect of a transaction snapshot and then
    reversing it with the same snapshot, whenever the touched accounts
    exist and whatever the order in which the saves of either step land:
    for a transaction that is not a transfer, and for a transfer between
    two accounts, both steps succeed and give back the very store they
    started from, the apply step having moved the single account by
    [amount], or the source by [-|amount|] and the destination by
    [+|amount|].  For a transfer whose destination is its source account
    both steps succeed as well, but each keeps only the increment saved
    last: the apply step leaves the balance [|amount|] above or below where
    it was, and the balance comes back only if the saves of the reverse
    step land in the same order as those of the apply step; otherwise it
    ends [2 * |amount|] off. *)
Theorem apply_then_reverse_outcome (l1 l2 : Landing) (t : Transaction)
        (s : Store) :
  touched_exist t s ->
  exists s1 s2,
    updateAccountBalanceWith l1 t s = (Ok tt, s1)
    /\ reverseAccountBalanceWith l2 t s1 = (Ok tt, s2)
    /\ (if is_transfer_with_destination t then
          (accountId t <> destination t ->
           s2 = s
           /\ balanceOf s1 (accountId t)
              = (fun b => b + - Z.abs (amount t))
                  <$> balanceOf s (accountId t)
           /\ balanceOf s1 (destination t)
              = (fun b => b + Z.abs (amount t))
                  <$> balanceOf s (destination t))
          /\ (accountId t = destination t ->
              balanceOf s1 (accountId t)
              = (fun b => b + lastSaved l1 (- Z.abs (amount t))
                                        (Z.abs (amount t)))
                  <$> balanceOf s (accountId t)
              /\ balanceOf s2 (accountId t)
                 = (fun b => b + lastSaved l1 (- Z.abs (amount t))
                                           (Z.abs (amount t))
                              + lastSaved l2 (Z.abs (amount t))
                                          (- Z.abs (amount t)))
                     <$> balanceOf s (accountId t))
        else
          s2 = s
          /\ balanceOf s1 (accountId t)
             = (fun b => b + amount t) <$> balanceOf s (accountId t)).
Proof.
  intros Hex.
  destruct (is_transfer_with_destination t) eqn:Ht.
  - destruct (decide (accountId t = destination t)) as [Heq|Hne].
    + destruct Hex as [[a Ha] _].
      unfold updateAccountBalanceWith, reverseAccountBalanceWith, try_rethrow.
      rewrite Ht, <- Heq.
      destruct (promise_all_updateBalance_same l1 (accountId t)
                  (- Z.abs (amount t)) (Z.abs (amount t)) s a Ha)
        as (s1 & E1 & Ha1).
      destruct (promise_all_updateBalance_same l2 (accountId t)
                  (Z.abs (amount t)) (- Z.abs (amount t)) s1 _ Ha1)
        as (s2 & E2 & Ha2).
      exists s1, s2. rewrite E1, E2. split; [reflexivity|].
      split; [reflexivity|]. split; [intros Hne; now destruct Hne|].
      intros _. unfold balanceOf. rewrite Ha, Ha1, Ha2. split; reflexivity.
    + exists (applied t s), s.
      assert (Hd : is_transfer_with_destination t = true ->
                   accountId t <> destination t) by (intros _; exact Hne).
      split; [now apply updateAccountBalanceWith_applied|].
      split.
      * rewrite reverseAccountBalanceWith_reversed
          by (try apply touched_exist_applied; assumption).
        now rewrite reversed_applied.
      * split; [|intros Heq; now destruct Hne]. intros _.
        split; [reflexivity|]. unfold applied. rewrite Ht.
        rewrite adjust_from_other by exact Hne. split.
        -- rewrite balanceOf_adjust_other by congruence.
           apply balanceOf_adjust_same.
        -- rewrite balanceOf_adjust_same.
           now rewrite balanceOf_adjust_other by done.
  - exists (applied t s), s.
    assert (Hd : is_transfer_with_destination t = true ->
                 accountId t <> destination t) by (rewrite Ht; discriminate).
    split; [now apply updateAccountBalanceWith_applied|].
    split.
    + rewrite reverseAccountBalanceWith_reversed
        by (try apply touched_exist_applied; assumption).
      now rewrite reversed_applied.
    + split; [reflexivity|]. unfold applied. rewrite Ht.
      apply balanceOf_adjust_same.
Qed.

(** The transfer of 200 from account 1 onto itself, on the balance 1000:
    the apply step, its saves landing in array order, leaves 1200; the
    reverse step, its saves landing in the other order, leaves 1400. *)
Lemma apply_then_reverse_outcome_witness :
  touched_exist Scenario.selfTransfer200 Scenario.twoAccounts
  /\ balanceOf Scenario.twoAccounts 1 = Some 1000
  /\ exists s1 s2,
      updateAccountBalanceWith InOrder Scenario.selfTransfer200
                               Scenario.twoAccounts = (Ok tt, s1)
      /\ reverseAccountBalanceWith Swapped Scenario.selfTransfer200 s1
         = (Ok tt, s2)
      /\ balanceOf s1 1 = Some 1200
      /\ balanceOf s2 1 = Some 1400.
Proof.
  assert (Hex : touched_exist Scenario.selfTransfer200 Scenario.twoAccounts).
  { split; [|intros _]; eexists; vm_compute; reflexivity. }
  split; [exact Hex|]. split; [reflexivity|].
  destruct (apply_then_reverse_outcome InOrder Swapped
              Scenario.selfTransfer200 Scenario.twoAccounts Hex)
    as (s1 & s2 & Happ & Hrev & Hbal).
  exists s1, s2. split; [exact Happ|]. split; [exact Hrev|].
  simpl in Hbal. destruct Hbal as [_ Hsame].
  destruct (Hsame eq_refl) as [H1 H2].
  split; [exact H1 | exact H2].
Defined.

(** *** Scenario 1 of the specification *)

(** C1. On an account with balance 1000, creating a paid EXPENSE of amount
    50 gives balance 950; updating that transaction with amount 80 stores
    the amount 80 unsigned, because the type does not change, and gives
    balance 1080 (the specification expects 920); deleting it gives 1000. *)
Theorem update_amount_scenario :
  let r1 := create 7 Scenario.paidExpense50 Scenario.twoAccounts in
  let r2 := update 1 7 Scenario.amountTo80 (snd r1) in
  let r3 := remove 1 7 (snd r2) in
  (exists t1, fst r1 = Ok t1 /\ id t1 = 1 /\ amount t1 = -50)
  /\ balanceOf (snd r1) 1 = Some 950
  /\ (exists t2, fst r2 = Ok t2 /\ type t2 = EXPENSE /\ amount t2 = 80)
  /\ balanceOf (snd r2) 1 = Some 1080
  /\ balanceOf (snd r2) 1 <> Some 920
  /\ fst r3 = Ok tt
  /\ balanceOf (snd r3) 1 = Some 1000.
Proof.
  vm_compute. repeat split; try (eexists; repeat split); congruence.
Qed.

(** *** Sign of the stored amount *)

Ltac step H :=
  match type of H with
  | bind ?m _ ?s = _ =>
    let r := fresh "r" in let s1 := fresh "s" in let E := fresh "E" in
    unfold bind at 1 in H;
    destruct (m s) as [r s1] eqn:E; destruct r; cbv beta iota in H;
    [|discriminate H]
  end.

Lemma when_transactions b m s :
  (forall s0, transactions (snd (m s0)) = transactions s0) ->
  transactions (snd (when b m s)) = transactions s.
Proof. intros H. destruct b; simpl; [apply H|done]. Qed.

Lemma create_Ok uid dto s t s' :
  create uid dto s = (Ok t, s') ->
  transactions s' !! id t = Some t
  /\ type t = c_type dto
  /\ amount t = (if TransactionType_eqb (c_type dto) EXPENSE
                 then - Z.abs (c_amount dto) else c_amount dto).
Proof.
  unfold create. intros H.
  step H. step H. step H. unfold save_new in E1.
  injection E1 as E1 E1'. step H. unfold ret in H. injection H as -> <-.
  pose proof (when_transactions (isPaid t) (updateAccountBalance t) s2
                (updateAccountBalance_transactions t)) as Ht.
  rewrite E2 in Ht. simpl in Ht. rewrite Ht. subst s2 t. simpl.
  now rewrite lookup_insert_eq.
Qed.

Lemma update_Ok tid uid dto s t s' t0 :
  update tid uid dto s = (Ok t, s') ->
  transactions s !! tid = Some t0 ->
  t = assign t0 (resign t0 dto) /\ transactions s' !! id t = Some t.
Proof.
  unfold update. intros H H0.
  step H. apply findOne_Ok in E as (Hl & _ & ->).
  assert (a = t0) as -> by congruence.
  step H.
  pose proof (validate_update_store t0 uid dto s) as Hv.
  rewrite E in Hv. simpl in Hv. subst s0.
  step H. step H. unfold save in E1. injection E1 as E1 E1'.
  step H. unfold ret in H. injection H as -> <-.
  split; [done|].
  pose proof (when_transactions (isPaid t) (updateAccountBalance t) s1
                (updateAccountBalance_transactions t)) as Ht.
  rewrite E2 in Ht. simpl in Ht. rewrite Ht. subst t s1. simpl.
  apply lookup_insert_eq.
Qed.

Lemma TransactionType_eqb_eq a b : TransactionType_eqb a b = true <-> a = b.
Proof. destruct a, b; simpl; split; congruence. Qed.

(** C3 (as amended). A transaction stored by [create] has the type of the
    request and the amount [-|amount|] when that type is EXPENSE, hence
    [amount <= 0]; for INCOME and TRANSFER the amount is stored with the
    sign it was given.  A transaction stored by an [update] that changes
    the type has [amount <= 0] when the new type is EXPENSE and
    [amount >= 0] when the old type was EXPENSE. *)
Theorem stored_amount_sign (r : Request) (s s' : Store) (t : Transaction) :
  perform r s = (Ok t, s') ->
  transactions s' !! id t = Some t
  /\ match r with
     | Create uid dto =>
       type t = c_type dto
       /\ (type t = EXPENSE -> amount t = - Z.abs (c_amount dto)
                               /\ amount t <= 0)
       /\ (type t <> EXPENSE -> amount t = c_amount dto)
     | Update tid uid dto =>
       forall t0 ty,
         transactions s !! tid = Some t0 ->
         u_type dto = Some ty -> ty <> type t0 ->
         type t = ty
         /\ (ty = EXPENSE -> amount t <= 0)
         /\ (type t0 = EXPENSE -> 0 <= amount t)
     end.
Proof.
  destruct r as [uid dto|tid uid dto]; simpl; intros H.
  - apply create_Ok in H as (Hst & Hty & Ham). split; [done|].
    split; [done|]. rewrite Hty. split.
    + intros He. rewrite He in Ham. simpl in Ham. lia.
    + intros Hne. destruct (TransactionType_eqb (c_type dto) EXPENSE) eqn:E;
        [apply TransactionType_eqb_eq in E; congruence|done].
  - pose proof H as H'. unfold update in H'. step H'.
    apply findOne_Ok in E as (Hl & _ & _). clear H'.
    destruct (update_Ok _ _ _ _ _ _ _ H Hl) as [Heq Hst].
    split; [exact Hst|].
    intros t0 ty Hl0 Hty Hne.
    assert (t0 = a) as -> by congruence. subst t.
    unfold resign. rewrite Hty.
    destruct (TransactionType_eqb ty (type a)) eqn:E;
      [apply TransactionType_eqb_eq in E; congruence|]. simpl.
    destruct (TransactionType_eqb ty EXPENSE) eqn:E1; simpl.
    + split; [done|]. split; [lia|].
      apply TransactionType_eqb_eq in E1. congruence.
    + assert (ty <> EXPENSE)
        by (intros ->; simpl in E1; discriminate).
      destruct (TransactionType_eqb (type a) EXPENSE) eqn:E2; simpl.
      * split; [done|]. split; [done|lia].
      * rewrite Hty. simpl. split; [done|]. split; [done|].
        intros He. rewrite He in E2. discriminate.
Qed.

Lemma stored_amount_sign_witness :
  exists t s',
    perform (Create 7 Scenario.paidExpense50) Scenario.twoAccounts = (Ok t, s')
    /\ transactions s' !! id t = Some t
    /\ type t = EXPENSE /\ amount t <= 0.
Proof.
  destruct (perform (Create 7 Scenario.paidExpense50) Scenario.twoAccounts)
    as [[t|e] s'] eqn:E; [|vm_compute in E; discriminate E].
  exists t, s'. split; [reflexivity|].
  destruct (stored_amount_sign _ _ _ _ E) as (Hst & Hty & Hexp & _).
  split; [exact Hst|]. split; [exact Hty|]. now apply Hexp.
Defined.

(** C3, counterexample. [create] stores an INCOME transaction with the
    negative amount it is given. *)
Lemma create_income_negative_amount :
  exists t s',
    create 7 Scenario.income_minus5 Scenario.twoAccounts = (Ok t, s')
    /\ transactions s' !! id t = Some t
    /\ type t = INCOME /\ ~ (amount t >= 0).
Proof.
  eexists _, _. split; [vm_compute; reflexivity|].
  split; [vm_compute; reflexivity|]. split; [reflexivity|]. simpl. lia.
Qed.

(** *** Transfers onto the same account *)

(** [create] never stores a transfer whose destination is its source. *)
Lemma create_rejects_same_account uid dto s :
  c_type dto = TRANSFER ->
  c_destinationAccountId dto = Some (c_accountId dto) ->
  c_accountId dto <> 0 ->
  exists e, create uid dto s = (Throw e, s)
            /\ (fst (accounts_findOne (c_accountId dto) uid s)
                <> Throw NotFoundException
                -> e = BadRequestException).
Proof.
  intros Hty Hd Hnz. unfold create, bind, when.
  rewrite Hty, Hd. simpl.
  assert ((c_accountId dto =? 0) = false) as -> by lia. simpl.
  pose proof (accounts_findOne_store (c_accountId dto) uid s) as Hs.
  destruct (accounts_findOne (c_accountId dto) uid s) as [[a|e] s1] eqn:E;
    simpl in Hs; subst s1.
  - rewrite E. rewrite Z.eqb_refl. simpl. eexists. split; [reflexivity|done].
  - exists e. split; [reflexivity|]. simpl. intros Hne.
    unfold accounts_findOne in E.
    destruct (accounts s !! c_accountId dto) as [a|].
    + destruct (_ =? _); [discriminate|]. now injection E as <-.
    + now injection E as <-.
Qed.

(** C4. An [update] of a stored TRANSFER that moves only the destination
    onto the source account, or only the source onto the destination
    account, is accepted: it returns the revised transaction, whose source
    and destination coincide, and stores it. *)
Theorem update_accepts_same_account_transfer :
  let s1 := snd (create 7 Scenario.paidTransfer200 Scenario.twoAccounts) in
  transactions s1 !! 1 = Some Scenario.transfer200
  /\ (exists t s2,
        update 1 7 Scenario.destinationTo1 s1 = (Ok t, s2)
        /\ type t = TRANSFER
        /\ destinationAccountId t = Some (accountId t)
        /\ transactions s2 !! 1 = Some t)
  /\ (exists t s2,
        update 1 7 Scenario.sourceTo2 s1 = (Ok t, s2)
        /\ type t = TRANSFER
        /\ destinationAccountId t = Some (accountId t)
        /\ transactions s2 !! 1 = Some t).
Proof.
  split; [vm_compute; reflexivity|].
  split; eexists _, _; (split; [vm_compute; reflexivity|]);
    repeat split; vm_compute; reflexivity.
Qed.

End LedgerFacts.

(** ** Category suggestion *)

Module AutoCategorizationFacts.

Import JsNumber AutoCategorization.

Section Chain.

Variable tokenize : string -> list string.
Variable getClassifications : string -> list (Z * number).
Variable isModelTrained : bool.
Variable keywordMap : list (string * list string).
Variable rows : list Transaction.
Variable cats : list Category.

Abbreviation suggest := (suggestCategory tokenize getClassifications
                                     isModelTrained keywordMap rows cats).
Abbreviation fallback := (fallbackCategorization cats).
Abbreviation top := (classify tokenize getClassifications isModelTrained).

Lemma scanSimilar_found q pre t post :
  Forall (passedOver q) pre -> similar q t = true ->
  scanSimilar q (pre ++ t :: post) = Returned (Some t).
Proof.
  intros Hpre Ht. induction Hpre as [|u pre [Hd Hs] _ IH]; simpl.
  - unfold similar in Ht. destruct (description t); [|discriminate].
    now rewrite Ht.
  - unfold similar in Hs. destruct (description u); [|congruence].
    now rewrite Hs.
Qed.

Lemma scanSimilar_raised q pre t post :
  Forall (passedOver q) pre -> description t = None ->
  scanSimilar q (pre ++ t :: post) = Raised.
Proof.
  intros Hpre Ht. induction Hpre as [|u pre [Hd Hs] _ IH]; simpl.
  - now rewrite Ht.
  - unfold similar in Hs. destruct (description u); [|congruence].
    now rewrite Hs.
Qed.

Lemma scanSimilar_none q l :
  Forall (passedOver q) l -> scanSimilar q l = Returned None.
Proof.
  intros Hl. induction Hl as [|u l [Hd Hs] _ IH]; simpl; [done|].
  unfold similar in Hs. destruct (description u); [|congruence].
  now rewrite Hs.
Qed.

Lemma scanKeywords_found q pre c post :
  Forall (skipped keywordMap q) pre ->
  keywordHit keywordMap q c = true ->
  scanKeywords keywordMap q (pre ++ c :: post)
  = Returned (Some (mkSuggestion (Some (category_id c)) (Fin 0.7))).
Proof.
  intros Hpre Hc. induction Hpre as [|c' pre [Hc' Hr] _ IH]; simpl.
  - unfold keywordHit in Hc.
    destruct (keywords keywordMap (Js.toLowerCase (name c)));
      [|discriminate]. now rewrite Hc.
  - unfold keywordHit in Hc'. unfold unreadable in Hr.
    destruct (keywords keywordMap (Js.toLowerCase (name c')));
      [now rewrite Hc'|now rewrite Hr].
Qed.

Lemma scanKeywords_raised q pre c post :
  Forall (skipped keywordMap q) pre ->
  unreadable keywordMap c = true ->
  scanKeywords keywordMap q (pre ++ c :: post) = Raised.
Proof.
  intros Hpre Hc. induction Hpre as [|c' pre [Hc' Hr] _ IH]; simpl.
  - unfold unreadable in Hc.
    destruct (keywords keywordMap (Js.toLowerCase (name c)));
      [discriminate|]. now rewrite Hc.
  - unfold keywordHit in Hc'. unfold unreadable in Hr.
    destruct (keywords keywordMap (Js.toLowerCase (name c')));
      [now rewrite Hc'|now rewrite Hr].
Qed.

Lemma scanKeywords_none q l :
  Forall (skipped keywordMap q) l ->
  scanKeywords keywordMap q l = Returned None.
Proof.
  intros Hl. induction Hl as [|c' l [Hc' Hr] _ IH]; simpl; [done|].
  unfold keywordHit in Hc'. unfold unreadable in Hr.
  destruct (keywords keywordMap (Js.toLowerCase (name c')));
    [now rewrite Hc'|now rewrite Hr].
Qed.

(** How [suggestCategory] resolves.  A blank description gives the
    type-only fallback (the user's first category of the amount's polarity
    with confidence 0.3, or null); otherwise (1) a trained model whose top
    posterior exceeds 0.3 gives that label with that probability; (2)
    otherwise the first of the 100 most recent transactions similar to the
    normalized description gives its categoryId with confidence 0.85,
    provided every more recent transaction has a description; when the
    scan meets a transaction without description before any match, the
    error is caught and the result is the fallback; (3) otherwise the
    first polarity-matching category with a keyword hit gives confidence
    0.7, provided no category before it has an inherited key for which the
    map holds no entry; when the scan meets such a category before any
    hit, the error is caught and the result is the fallback; (4) otherwise
    the fallback. *)
Lemma suggestCategory_chain (desc : option string) (amount uid : Z) :
  let recent := Queries.findRecent uid 100 rows in
  let matching := Queries.findAll uid (polarity amount) cats in
  (fallback amount uid
   = match matching with
     | c :: _ => Some (mkSuggestion (Some (category_id c)) (Fin 0.3))
     | [] => None
     end)
  /\ (isBlank desc = true ->
      suggest desc amount uid = fallback amount uid)
  /\ (forall d, desc = Some d -> isBlank desc = false ->
      let q := normalizeText d in
      (forall label value rest,
          isModelTrained = true ->
          getClassifications (extractFeatures tokenize d amount)
          = (label, value) :: rest ->
          gt value (Fin 0.3) = true ->
          suggest desc amount uid
          = Some (mkSuggestion (Some label) value))
      /\ (top d amount = None ->
          (forall pre t post,
              recent = (pre ++ t :: post)%list ->
              Forall (passedOver q) pre -> similar q t = true ->
              suggest desc amount uid
              = Some (mkSuggestion (categoryId t) (Fin 0.85)))
          /\ (forall pre t post,
                 recent = (pre ++ t :: post)%list ->
                 Forall (passedOver q) pre -> description t = None ->
                 suggest desc amount uid = fallback amount uid)
          /\ (Forall (passedOver q) recent ->
              (forall pre c post,
                  matching = (pre ++ c :: post)%list ->
                  Forall (skipped keywordMap q) pre ->
                  keywordHit keywordMap q c = true ->
                  suggest desc amount uid
                  = Some (mkSuggestion (Some (category_id c)) (Fin 0.7)))
              /\ (forall pre c post,
                     matching = (pre ++ c :: post)%list ->
                     Forall (skipped keywordMap q) pre ->
                     unreadable keywordMap c = true ->
                     suggest desc amount uid = fallback amount uid)
              /\ (Forall (skipped keywordMap q) matching ->
                  suggest desc amount uid = fallback amount uid)))).
Proof.
  intros recent matching. split; [reflexivity|]. split.
  - intros Hb. unfold suggestCategory. now rewrite Hb.
  - intros d -> Hb q. unfold suggestCategory. rewrite Hb.
    change (default ""%string (Some d)) with d.
    unfold trySuggest. split.
    + intros label value rest Htr Hcl Hgt. unfold classify.
      now rewrite Htr, Hcl, Hgt.
    + intros ->. unfold findSimilarTransaction. fold recent. fold q.
      split; [|split].
      * intros pre t post -> Hpre Ht.
        now rewrite (scanSimilar_found q pre t post Hpre Ht).
      * intros pre t post -> Hpre Ht.
        now rewrite (scanSimilar_raised q pre t post Hpre Ht).
      * intros Hrec. rewrite (scanSimilar_none q recent Hrec).
        unfold matchCategoryByKeywords. fold matching. split; [|split].
        -- intros pre c post -> Hpre Hc.
           now rewrite (scanKeywords_found q pre c post Hpre Hc).
        -- intros pre c post -> Hpre Hc.
           now rewrite (scanKeywords_raised q pre c post Hpre Hc).
        -- intros Hall. now rewrite (scanKeywords_none q matching Hall).
Qed.

End Chain.

(** C5. The model is untrained and the user's recent transactions contain
    one whose normalized description equals the normalized query, but a
    more recent transaction has no description: [normalizeText] of that
    [null] raises, and the result is the fallback with confidence 0.3, not
    that transaction's category with confidence 0.85. *)
Theorem suggestCategory_undescribed_recent :
  let rows := [Scenario.ride; Scenario.undescribed] in
  let result := suggestCategory Scenario.noTokens Scenario.noClasses false []
                                rows [Scenario.transport]
                                (Some "uber"%string) (-10) 7 in
  classify Scenario.noTokens Scenario.noClasses false "uber" (-10) = None
  /\ Queries.findRecent 7 100 rows = [Scenario.undescribed; Scenario.ride]
  /\ similar (normalizeText "uber") Scenario.ride = true
  /\ result = Some (mkSuggestion (Some 3) (Fin 0.3))
  /\ result <> Some (mkSuggestion (categoryId Scenario.ride) (Fin 0.85)).
Proof.
  repeat split; try reflexivity.
  intros H. apply (f_equal (fun r => confidence <$> r)) in H.
  simpl in H. injection H as H. lra.
Qed.

(** The same end through step (3): the model is untrained, no recent
    transaction is similar, and the keyword map has the keyword of the
    query under the user's category [Transporte]; but the user's first
    category is named [Constructor], the lookup under that name finds the
    inherited member, and the result is the fallback, that first category
    with confidence 0.3, not [Transporte] with confidence 0.7. *)
Lemma suggestCategory_inherited_key :
  let keywordMap := [("transporte", ["uber"])]%string in
  let cats := [Scenario.transport; Scenario.builder] in
  let result := suggestCategory Scenario.noTokens Scenario.noClasses false
                                keywordMap [] cats
                                (Some "uber"%string) (-10) 7 in
  Queries.findAll 7 (polarity (-10)) cats
  = [Scenario.builder; Scenario.transport]
  /\ unreadable keywordMap Scenario.builder = true
  /\ keywordHit keywordMap (normalizeText "uber") Scenario.transport = true
  /\ result = Some (mkSuggestion (Some 5) (Fin 0.3))
  /\ result <> Some (mkSuggestion (Some 3) (Fin 0.7)).
Proof.
  repeat split; try reflexivity.
  intros H. apply (f_equal (fun r => confidence <$> r)) in H.
  simpl in H. injection H as H. lra.
Qed.

End AutoCategorizationFacts.

(** ** JavaScript arithmetic on finite values *)

Module JsNumberFacts.

Import JsNumber.
Local Open Scope R_scope.

Lemma Rltb_true x y : x < y -> Rltb x y = true.
Proof. intros H. unfold Rltb. now destruct (Rlt_dec x y). Qed.

Lemma Rltb_false x y : ~ x < y -> Rltb x y = false.
Proof. intros H. unfold Rltb. now destruct (Rlt_dec x y). Qed.

Lemma Rltb_iff x y : Rltb x y = true <-> x < y.
Proof.
  unfold Rltb. destruct (Rlt_dec x y); split; intros; try done.
Qed.

Lemma Reqb_true x y : x = y -> Reqb x y = true.
Proof. intros H. unfold Reqb. now destruct (Req_dec_T x y). Qed.

Lemma Reqb_false x y : x <> y -> Reqb x y = false.
Proof. intros H. unfold Reqb. now destruct (Req_dec_T x y). Qed.

Lemma div_fin x y : y <> 0 -> div (Fin x) (Fin y) = Fin (x / y).
Proof. intros H. simpl. now rewrite Reqb_false. Qed.

Lemma div_zero_zero : div (Fin 0) (Fin 0) = NaN.
Proof.
  simpl. rewrite Reqb_true by reflexivity. unfold inf_of_sign.
  now rewrite !Rltb_false by lra.
Qed.

Lemma sqrt_fin x : 0 <= x -> sqrt (Fin x) = Fin (R_sqrt.sqrt x).
Proof. intros H. simpl. now rewrite Rltb_false by lra. Qed.

Lemma sum_from a xs :
  fold_left add (map Fin xs) (Fin a) = Fin (a + fold_right Rplus 0 xs).
Proof.
  revert a. induction xs as [|x xs IH]; intros a; simpl.
  - f_equal. lra.
  - rewrite IH. f_equal. lra.
Qed.

Lemma sum_fin xs : sum (map Fin xs) = Fin (fold_right Rplus 0 xs).
Proof. unfold sum. rewrite sum_from. f_equal. lra. Qed.

Lemma INR_pos_ne n : (0 < n)%nat -> INR n <> 0.
Proof. intros H. apply not_0_INR. lia. Qed.

Lemma total_squares_nonneg (f : R -> R) xs :
  0 <= fold_right Rplus 0 (map (fun x => f x * f x) xs).
Proof.
  induction xs as [|x xs IH]; simpl; [lra|].
  pose proof (Rle_0_sqr (f x)) as H. unfold Rsqr in H. lra.
Qed.

End JsNumberFacts.

(** ** Spending forecast *)

Module SpendingPredictionFacts.

Import JsNumber JsDate Stats SpendingPrediction JsNumberFacts.
Local Open Scope R_scope.

Lemma sortBy_map {A B} (f : A -> B) (leA : A -> A -> bool)
      (leB : B -> B -> bool) (l : list A) :
  (forall a b, leB (f a) (f b) = leA a b) ->
  Js.sortBy leB (map f l) = map f (Js.sortBy leA l).
Proof.
  intros Hle. unfold Js.sortBy. induction l as [|x l IH]; simpl; [done|].
  rewrite IH. generalize (fold_right (Js.insert_sorted leA) [] l).
  intros sorted. induction sorted as [|y sorted IHs]; simpl; [done|].
  rewrite Hle. destruct (leA x y); simpl; [done|]. now rewrite IHs.
Qed.

Lemma insert_sorted_length {A} (le : A -> A -> bool) x l :
  length (Js.insert_sorted le x l) = S (length l).
Proof.
  induction l as [|y l IH]; simpl; [done|].
  destruct (le x y); simpl; [done|]. now rewrite IH.
Qed.

Lemma sortBy_length {A} (le : A -> A -> bool) (l : list A) :
  length (Js.sortBy le l) = length l.
Proof.
  unfold Js.sortBy. induction l as [|x l IH]; simpl; [done|].
  now rewrite insert_sorted_length, IH.
Qed.

Lemma amounts_from a (data : list (MonthKey * R)) :
  fold_left (fun total item => add total (m_amount item))
            (map monthly data) (Fin a)
  = Fin (a + total (map snd data)).
Proof.
  revert a. induction data as [|e data IH]; intros a; simpl.
  - f_equal. lra.
  - rewrite IH. f_equal. simpl. lra.
Qed.

Lemma weigh_from i a b (data : list (MonthKey * R)) :
  weigh i (map monthly data) (Fin a) (Fin b)
  = (Fin (a + total (map (fun p => fst p * snd p)
                         (combine (map snd data)
                                  (map INR (seq (S i) (length data)))))),
     Fin (b + total (map INR (seq (S i) (length data))))).
Proof.
  revert i a b. induction data as [|e data IH]; intros i a b; simpl.
  - f_equal; f_equal; lra.
  - unfold of_nat. rewrite Nat.add_1_r. simpl mul. simpl add.
    rewrite IH. f_equal; f_equal; simpl; lra.
Qed.

Lemma weights_total_pos i n :
  (0 < n)%nat -> 0 < total (map INR (seq (S i) n)).
Proof.
  intros Hn. destruct n as [|n]; [lia|]. clear Hn.
  revert i. induction n as [|n IH]; intros i.
  - simpl. pose proof (lt_0_INR (S i) ltac:(lia)). simpl in *. lra.
  - change (seq (S i) (S (S n))) with (S i :: seq (S (S i)) (S n)).
    simpl map. simpl total.
    pose proof (IH (S i)). pose proof (lt_0_INR (S i) ltac:(lia)).
    simpl in *. lra.
Qed.

Lemma squares_from a c (data : list (MonthKey * R)) :
  fold_left (fun total item => add total (sq (sub (m_amount item) (Fin c))))
            (map monthly data) (Fin a)
  = Fin (a + total (map (fun x => (x - c) * (x - c)) (map snd data))).
Proof.
  revert a. induction data as [|e data IH]; intros a; simpl.
  - f_equal. lra.
  - rewrite IH. f_equal. simpl. lra.
Qed.

Lemma food_prediction :
  p_amount (calculateWeightedMovingAverage (map monthly Scenario.food))
  = Fin 119.
Proof.
  unfold calculateWeightedMovingAverage.
  change (length (map monthly Scenario.food) <? 3)%nat with false.
  cbv iota.
  rewrite (sortBy_map monthly (fun a b => MonthKey_leb (fst a) (fst b)))
    by reflexivity.
  change (Js.sortBy _ Scenario.food)
    with [((2024, 1)%Z, 100); ((2024, 2)%Z, 120); ((2024, 3)%Z, 110);
          ((2024, 4)%Z, 130)].
  rewrite weigh_from. cbn [p_amount].
  rewrite div_fin by (simpl; lra). f_equal. simpl. lra.
Qed.

(** C6 (as amended). With fewer than 3 monthly aggregates the prediction
    is their simple average (0 for none) with confidence 0.3; otherwise,
    with the aggregates sorted ascending by month and weights 1..n, it is
    [Σ(amount_i * weight_i) / Σ(weight_i)] with confidence
    [(1 - min(stdDev / weightedAverage, 1)) * min(n / 12, 1)], stdDev being
    the square root of the population variance around the weighted
    average.  For the monthly totals 100, 120, 110, 130 (oldest to newest)
    the prediction is 1190 / 10 = 119. *)
Theorem weighted_moving_average (data : list (MonthKey * R)) :
  calculateWeightedMovingAverage (map monthly data)
  = (if (length data <? 3)%nat
     then mkPrediction (Fin (simpleAverage (map snd data))) (Fin 0.3)
     else mkPrediction (Fin (weightedAverage (map snd (byMonth data))))
                       (confidenceOf (map snd (byMonth data))))
  /\ map snd (byMonth Scenario.food) = [100; 120; 110; 130]
  /\ p_amount (calculateWeightedMovingAverage (map monthly Scenario.food))
     = Fin (1190 / 10)
  /\ 1190 / 10 = 119.
Proof.
  split; [|split; [reflexivity|split;
                   [rewrite food_prediction; f_equal; lra|lra]]].
  unfold calculateWeightedMovingAverage. rewrite length_map.
  destruct (length data <? 3)%nat eqn:E.
  - rewrite amounts_from. destruct data as [|e data]; [reflexivity|].
    change (0 <? length (e :: data))%nat with true. cbv iota.
    unfold of_nat. rewrite div_fin by (apply INR_pos_ne; simpl; lia).
    unfold simpleAverage. simpl map. rewrite Rplus_0_l.
    simpl length. now rewrite length_map.
  - apply Nat.ltb_ge in E.
    rewrite (sortBy_map monthly (fun a b => MonthKey_leb (fst a) (fst b)))
      by reflexivity.
    fold (byMonth data).
    assert (Hlen : length (byMonth data) = length data)
      by apply sortBy_length.
    rewrite weigh_from, !Rplus_0_l.
    set (xs := map snd (byMonth data)).
    assert (Hxs : length xs = length data)
      by (unfold xs; now rewrite length_map).
    rewrite length_map, Hlen, <- Hxs.
    fold (weights (length xs)).
    rewrite div_fin
      by (apply Rgt_not_eq, weights_total_pos; lia).
    fold (weightedAverage xs).
    rewrite squares_from, Rplus_0_l. fold xs.
    unfold of_nat.
    rewrite div_fin by (apply INR_pos_ne; lia).
    fold (populationVariance xs (weightedAverage xs)).
    rewrite sqrt_fin.
    2:{ unfold populationVariance. apply Rmult_le_pos.
        - apply (total_squares_nonneg (fun x => x - weightedAverage xs)).
        - left. apply Rinv_0_lt_compat. apply lt_0_INR. lia. }
    fold (stdDevAround xs (weightedAverage xs)).
    rewrite (div_fin (INR (length xs)) 12) by lra.
    reflexivity.
Qed.

(** C6, counterexample. For the monthly totals 100, 120, 110, 130 the
    prediction is not 121. *)
Lemma food_prediction_is_not_121 :
  map snd (byMonth Scenario.food) = [100; 120; 110; 130]
  /\ p_amount (calculateWeightedMovingAverage (map monthly Scenario.food))
     <> Fin 121.
Proof.
  split; [reflexivity|]. rewrite food_prediction. intros [= H]. lra.
Qed.

(** *** The monthly trend *)

(** C7. Called on 2024-01-31 for the trailing 12 months, with no
    transaction in the window, [getCategoryTrend] returns a series from
    January 2023 to January 2024 that has no entry for February 2023,
    although the whole of that month lies inside the window: stepping from
    January 31 by [setMonth(getMonth() + 1)] lands on March 3. *)
Theorem getCategoryTrend_skips_a_month :
  let now := utc 2024 1 31 in
  let startDate := setMonth now (getMonth now - 12) in
  startDate = utc 2023 1 31
  /\ setMonth startDate (getMonth startDate + 1) = utc 2023 3 3
  /\ (startDate <= utc 2023 2 1 /\ utc 2023 2 28 <= now)%Z
  /\ exists series,
      getCategoryTrend now [] 7 3 12 = Some series
      /\ map month series
         = [(2023, 1); (2023, 3); (2023, 4); (2023, 5); (2023, 6);
            (2023, 7); (2023, 8); (2023, 9); (2023, 10); (2023, 11);
            (2023, 12); (2024, 1)]%Z
      /\ ~ In (2023, 2)%Z (map month series).
Proof.
  split; [vm_compute; reflexivity|]. split; [vm_compute; reflexivity|].
  split; [split; vm_compute; discriminate|].
  exists (map (fun k => mkMonthly k (Fin 0))
              [(2023, 1); (2023, 3); (2023, 4); (2023, 5); (2023, 6);
               (2023, 7); (2023, 8); (2023, 9); (2023, 10); (2023, 11);
               (2023, 12); (2024, 1)]%Z).
  split; [vm_compute; reflexivity|]. split; [reflexivity|].
  simpl. intros H.
  repeat (destruct H as [H|H]; [discriminate H|]). exact H.
Qed.

End SpendingPredictionFacts.

(** ** Anomaly detection *)

Module AnomalyDetectionFacts.

Import JsNumber JsDate Stats AnomalyDetection JsNumberFacts.
Local Open Scope R_scope.

Lemma sqrt_nonneg a : nonneg (sqrt a).
Proof.
  destruct a as [x| | |]; simpl; try done.
  destruct (Rltb x 0); simpl; [done|]. apply sqrt_pos.
Qed.

Lemma abs_div_nonneg x s : nonneg s -> abs (div x s) = div (abs x) s.
Proof.
  destruct x as [a| | |], s as [y| | |]; simpl; try done; intros Hy.
  - destruct (Req_dec_T y 0) as [->|Hne].
    + rewrite Reqb_true by reflexivity. unfold inf_of_sign.
      destruct (Rlt_dec 0 a) as [Hpos|Hnpos].
      * rewrite (Rltb_true 0 a) by done. simpl.
        rewrite Rltb_true; [done|]. rewrite Rabs_right; lra.
      * rewrite (Rltb_false 0 a) by done.
        destruct (Rlt_dec a 0) as [Hneg|Hnneg].
        -- rewrite (Rltb_true a 0) by done. simpl.
           rewrite Rltb_true; [done|]. rewrite Rabs_left; lra.
        -- rewrite (Rltb_false a 0) by done.
           assert (a = 0) as -> by lra. rewrite Rabs_R0.
           now rewrite !Rltb_false by lra.
    + rewrite Reqb_false by done. simpl. f_equal.
      unfold Rdiv. rewrite Rabs_mult, Rabs_inv.
      rewrite (Rabs_right y) by lra. reflexivity.
  - now rewrite Rabs_R0.
  - now rewrite Rltb_false by lra.
  - now rewrite Rltb_false by lra.
Qed.

(** The code's z-score is the claimed quotient. *)
Lemma zScore_zOf group t :
  zScore t (calculateCategoryStats group)
  = zOf (calculateCategoryStats group) t.
Proof.
  unfold zScore, zOf. apply abs_div_nonneg. simpl. apply sqrt_nonneg.
Qed.

Lemma amounts_sample group : amounts group = map Fin (sample group).
Proof. unfold amounts, sample. now rewrite map_map. Qed.

Lemma squares_sum c xs :
  sum (map (fun val => sq (sub val (Fin c))) (map Fin xs))
  = Fin (total (map (fun x => (x - c) * (x - c)) xs)).
Proof.
  rewrite map_map.
  change (map (fun x => sq (sub (Fin x) (Fin c))) xs)
    with (map (fun x => Fin ((x - c) * (x - c))) xs).
  rewrite <- (map_map (fun x => (x - c) * (x - c)) Fin).
  apply sum_fin.
Qed.

(** On a non-empty group the statistics are the arithmetic mean and the
    population standard deviation of the amounts. *)
Lemma stats_of_sample group :
  group <> [] ->
  mean (calculateCategoryStats group) = Fin (Stats.mean (sample group))
  /\ stdDev (calculateCategoryStats group)
     = Fin (stdDevAround (sample group) (Stats.mean (sample group))).
Proof.
  intros Hne. unfold calculateCategoryStats. simpl.
  rewrite amounts_sample, sum_fin, length_map.
  assert (Hn : INR (length (sample group)) <> 0).
  { apply INR_pos_ne. unfold sample. rewrite length_map.
    destruct group; [done|simpl; lia]. }
  unfold of_nat. rewrite div_fin by done. split; [reflexivity|].
  fold (Stats.mean (sample group)).
  rewrite squares_sum, div_fin by done.
  rewrite sqrt_fin; [reflexivity|].
  apply Rmult_le_pos.
  - apply (total_squares_nonneg (fun x => x - Stats.mean (sample group))).
  - left. apply Rinv_0_lt_compat.
    destruct (Rle_lt_or_eq_dec _ _ (pos_INR (length (sample group))));
      [done|congruence].
Qed.

Lemma flat_map_filter cid stats (l : list Transaction) :
  (forall t, zScore t stats = zOf stats t) ->
  flat_map (fun t => if gt (zScore t stats) (Fin 2)
                     then [zAnomaly cid stats t] else []) l
  = map (zAnomaly cid stats)
        (List.filter (fun t => gt (zOf stats t) (Fin 2)) l).
Proof.
  intros Hz. induction l as [|t l IH]; [done|].
  cbn [flat_map List.filter]. rewrite IH, Hz.
  now destruct (gt (zOf stats t) (Fin 2)).
Qed.

Lemma scanCategory_filter cid group :
  (3 <= length group)%nat ->
  scanCategory (cid, group)
  = map (zAnomaly cid (calculateCategoryStats group))
        (List.filter
           (fun t => gt (zOf (calculateCategoryStats group) t) (Fin 2))
           group).
Proof.
  intros Hlen. unfold scanCategory.
  assert ((length group <? 3)%nat = false) as -> by now apply Nat.ltb_ge.
  apply flat_map_filter. intros t. apply zScore_zOf.
Qed.

Lemma scanCategory_small cid group :
  (length group < 3)%nat -> scanCategory (cid, group) = [].
Proof.
  intros Hlen. unfold scanCategory.
  now assert ((length group <? 3)%nat = true) as -> by now apply Nat.ltb_lt.
Qed.








(** *** Missing recurrences *)

Lemma insert_sorted_total {A} (le : A -> A -> bool) (f : A -> R) x l :
  total (map f (Js.insert_sorted le x l)) = f x + total (map f l).
Proof.
  induction l as [|y l IH]; simpl; [done|].
  destruct (le x y); simpl; [done|]. rewrite IH. lra.
Qed.

Lemma sortBy_total {A} (le : A -> A -> bool) (f : A -> R) l :
  total (map f (Js.sortBy le l)) = total (map f l).
Proof.
  unfold Js.sortBy. induction l as [|x l IH]; simpl; [done|].
  now rewrite insert_sorted_total, IH.
Qed.

Lemma sortByDate_length txs : length (sortByDate txs) = length txs.
Proof. apply SpendingPredictionFacts.sortBy_length. Qed.

Lemma sample_sortByDate_mean txs :
  Stats.mean (sample (sortByDate txs)) = Stats.mean (sample txs).
Proof.
  unfold Stats.mean, sample, sortByDate.
  now rewrite sortBy_total, !length_map,
    SpendingPredictionFacts.sortBy_length.
Qed.

Lemma intervalsOf_length l : length (intervalsOf l) = (length l - 1)%nat.
Proof.
  induction l as [|a [|b l] IH]; simpl in *; try done.
  rewrite IH. lia.
Qed.

Lemma intervalMean_fin ivs :
  ivs <> [] -> intervalMean ivs = Fin (Stats.mean (map IZR ivs)).
Proof.
  intros Hne. unfold intervalMean, of_nat.
  change (map of_Z ivs) with (map (fun z => Fin (IZR z)) ivs).
  rewrite <- (map_map IZR Fin), sum_fin, div_fin.
  - unfold Stats.mean. now rewrite length_map.
  - apply INR_pos_ne. destruct ivs; [done|simpl; lia].
Qed.

Lemma intervalStdDev_fin ivs :
  ivs <> [] ->
  intervalStdDev ivs
  = Fin (stdDevAround (map IZR ivs) (Stats.mean (map IZR ivs))).
Proof.
  intros Hne. unfold intervalStdDev. rewrite intervalMean_fin by done.
  assert (Hn : INR (length ivs) <> 0)
    by (apply INR_pos_ne; destruct ivs; [done|simpl; lia]).
  change (map (fun val => sq (sub (of_Z val) (Fin ?c))) ivs)
    with (map (fun val => sq (sub (Fin (IZR val)) (Fin c))) ivs).
  set (c := Stats.mean (map IZR ivs)).
  rewrite <- (map_map IZR (fun x => sq (sub (Fin x) (Fin c)))).
  rewrite <- (map_map Fin (fun val => sq (sub val (Fin c)))).
  rewrite squares_sum. unfold of_nat. rewrite div_fin by done.
  rewrite sqrt_fin.
  - unfold stdDevAround, populationVariance. now rewrite length_map.
  - apply Rmult_le_pos.
    + apply (total_squares_nonneg (fun x => x - Stats.mean (map IZR ivs))).
    + left. apply Rinv_0_lt_compat.
      destruct (Rle_lt_or_eq_dec _ _ (pos_INR (length ivs)));
        [done|congruence].
Qed.

(** A group of at least 3 transactions is recurring exactly when the
    coefficient of variation of its day intervals is below 0.3; its
    average interval is then their arithmetic mean. *)
Lemma recurringOf_spec key txs :
  (3 <= length txs)%nat ->
  let xs := intervalSample txs in
  recurringOf (key, txs)
  = if lt (div (Fin (stdDevAround xs (Stats.mean xs))) (Fin (Stats.mean xs)))
          (Fin 0.3)
    then match lastOf (sortByDate txs) with
         | Some lastTx =>
           [mkRecurring key (sortByDate txs) (Fin (Stats.mean xs))
                        (Fin (stdDevAround xs (Stats.mean xs))) lastTx]
         | None => []
         end
    else [].
Proof.
  intros Hlen xs. unfold recurringOf.
  assert ((length txs <? 3)%nat = false) as -> by now apply Nat.ltb_ge.
  assert (Hne : intervalsOf (sortByDate txs) <> []).
  { intros Heq. apply (f_equal (@length Z)) in Heq.
    rewrite intervalsOf_length, sortByDate_length in Heq. simpl in Heq. lia. }
  rewrite intervalStdDev_fin, intervalMean_fin by done.
  fold (intervalSample txs). fold xs.
  destruct (lt _ _); [|done]. unfold lastOf.
  now destruct (sortByDate txs).
Qed.

(** The record pushed for a recurring group with finite average interval. *)
Lemma missingOf_spec now key txs avg sd lastTx :
  txs <> [] ->
  missingOf now (mkRecurring key (sortByDate txs) (Fin avg) sd lastTx)
  = missingSpec lastTx avg (daysSince now lastTx)
                (Rabs (Stats.mean (sample txs))).
Proof.
  intros Hne. unfold missingOf, missingSpec. simpl.
  assert (Hlen : length (sortByDate txs) = length (sample (sortByDate txs)))
    by (unfold sample; now rewrite length_map).
  rewrite amounts_sample, sum_fin, Hlen.
  unfold of_nat. rewrite div_fin.
  - now rewrite <- sample_sortByDate_mean.
  - apply INR_pos_ne. rewrite <- Hlen, sortByDate_length.
    destruct txs; [done|simpl; lia].
Qed.

(** C9 (as amended). [detectUnusualFrequency] emits exactly one record
    for every description group of at least 3 transactions whose day
    intervals have [stdDev / mean < 0.3] and whose last transaction lies
    more than [1.5 * avgInterval] days back; the record has
    [expectedDate = lastDate + avgInterval] days,
    [daysPastDue = daysSinceLastTransaction - avgInterval], and
    [averageAmount] equal to the absolute value of the mean of the group's
    signed amounts. *)
Theorem missing_recurrence_fields (now : Z) (rows : list Transaction)
        (uid : Z) (r : MissingRecurrence) :
  In r (detectUnusualFrequency now rows uid) <->
  exists groups key txs lastTx,
    groupSimilarTransactions
      (Queries.findByPeriod uid (period now 180) now rows)
    = AutoCategorization.Returned groups
    /\ In (key, txs) groups
    /\ (3 <= length txs)%nat
    /\ lastOf (sortByDate txs) = Some lastTx
    /\ let avgInterval := Stats.mean (intervalSample txs) in
       let daysSinceLastTransaction := daysSince now lastTx in
       lt (div (Fin (stdDevAround (intervalSample txs) avgInterval))
               (Fin avgInterval)) (Fin 0.3) = true
       /\ gt (of_Z daysSinceLastTransaction) (Fin (avgInterval * 1.5)) = true
       /\ r = missingSpec lastTx avgInterval daysSinceLastTransaction
                          (Rabs (Stats.mean (sample txs))).
Proof.
  unfold detectUnusualFrequency, detectInterruptedPatterns,
    identifyRecurringGroups.
  destruct (groupSimilarTransactions _) as [groups|]; split.
  - intros Hin. apply in_map_iff in Hin as (g & <- & Hg).
    apply filter_In in Hg as [Hg Hover].
    apply in_flat_map in Hg as ([key txs] & Hgroup & Hg).
    destruct (Nat.lt_ge_cases (length txs) 3) as [Hlt|Hge].
    { unfold recurringOf in Hg. apply Nat.ltb_lt in Hlt.
      rewrite Hlt in Hg. destruct Hg. }
    rewrite recurringOf_spec in Hg by done.
    destruct (lt _ _) eqn:Hcv; [|destruct Hg].
    destruct (lastOf (sortByDate txs)) as [lastTx|] eqn:Hlast; [|destruct Hg].
    destruct Hg as [<-|[]].
    exists groups, key, txs, lastTx.
    split; [reflexivity|]. split; [exact Hgroup|]. split; [exact Hge|].
    split; [exact Hlast|]. split; [exact Hcv|]. split; [exact Hover|].
    rewrite missingOf_spec; [reflexivity|].
    intros ->. simpl in Hge. lia.
  - intros (groups' & key & txs & lastTx & [= <-] & Hgroup & Hge & Hlast
            & Hcv & Hover & ->).
    rewrite <- (missingOf_spec now key txs _
                  (Fin (stdDevAround (intervalSample txs)
                                     (Stats.mean (intervalSample txs))))
                  lastTx)
      by (intros ->; simpl in Hge; lia).
    apply in_map. apply filter_In. split; [|exact Hover].
    apply in_flat_map. exists (key, txs). split; [done|].
    rewrite recurringOf_spec by done. rewrite Hcv, Hlast. now left.
  - intros [].
  - intros (groups' & key & txs & lastTx & [=] & _).
Qed.

Lemma subscription_statistics :
  intervalSample Scenario.subscription = [30; 30]
  /\ Stats.mean [30; 30] = 30
  /\ stdDevAround [30; 30] 30 = 0
  /\ daysSince Scenario.today Scenario.march = 50%Z
  /\ Stats.mean (sample Scenario.subscription) = - (100 / 3)
  /\ Stats.mean (map Rabs (sample Scenario.subscription)) = 100.
Proof.
  split; [|split; [|split; [|split; [|split]]]].
  - unfold intervalSample.
    assert (intervalsOf (sortByDate Scenario.subscription) = [30; 30]%Z)
      as -> by (vm_compute; reflexivity).
    reflexivity.
  - unfold Stats.mean; simpl; lra.
  - unfold stdDevAround, populationVariance. simpl.
    replace ((30 - 30) * (30 - 30) + ((30 - 30) * (30 - 30) + 0)) with 0
      by lra.
    unfold Rdiv. rewrite Rmult_0_l. apply sqrt_0.
  - vm_compute; reflexivity.
  - unfold Stats.mean; simpl; lra.
  - unfold Stats.mean. simpl.
    rewrite (Rabs_left (-100)) by lra. rewrite (Rabs_right 100) by lra. lra.
Qed.

(** The record emitted for the subscription of the example. *)
Lemma subscription_emitted :
  In (missingSpec Scenario.march 30 50
                  (Rabs (Stats.mean (sample Scenario.subscription))))
     (detectUnusualFrequency Scenario.today Scenario.subscription 7).
Proof.
  destruct subscription_statistics as (Hiv & Hmean & Hsd & Hdays & _).
  assert (Hgroups :
            groupSimilarTransactions
              (Queries.findByPeriod 7 (period Scenario.today 180)
                                    Scenario.today Scenario.subscription)
            = AutoCategorization.Returned
                [("netflix"%string, Scenario.subscription)])
    by (vm_compute; reflexivity).
  assert (Hlast : lastOf (sortByDate Scenario.subscription)
                  = Some Scenario.march) by reflexivity.
  unfold detectUnusualFrequency. rewrite Hgroups.
  unfold identifyRecurringGroups, detectInterruptedPatterns.
  cbn [flat_map]. rewrite app_nil_r.
  rewrite recurringOf_spec by (simpl; lia).
  rewrite Hiv, Hmean, Hsd, Hlast. rewrite div_fin by lra.
  assert (lt (Fin (0 / 30)) (Fin 0.3) = true) as ->
      by (simpl; apply Rltb_true; lra).
  cbn [List.filter].
  assert (isOverdue Scenario.today
            (mkRecurring "netflix" (sortByDate Scenario.subscription)
                         (Fin 30) (Fin 0) Scenario.march) = true) as ->.
  { unfold isOverdue. cbn [lastTransaction avgInterval]. rewrite Hdays.
    simpl. apply Rltb_true. lra. }
  cbn [map]. left. rewrite missingOf_spec by discriminate.
  now rewrite Hdays.
Qed.

Lemma missing_recurrence_fields_witness :
  exists groups key txs lastTx,
    groupSimilarTransactions
      (Queries.findByPeriod 7 (period Scenario.today 180) Scenario.today
                            Scenario.subscription)
    = AutoCategorization.Returned groups
    /\ In (key, txs) groups
    /\ (3 <= length txs)%nat
    /\ lastOf (sortByDate txs) = Some lastTx
    /\ let avgInterval := Stats.mean (intervalSample txs) in
       let daysSinceLastTransaction := daysSince Scenario.today lastTx in
       lt (div (Fin (stdDevAround (intervalSample txs) avgInterval))
               (Fin avgInterval)) (Fin 0.3) = true
       /\ gt (of_Z daysSinceLastTransaction) (Fin (avgInterval * 1.5)) = true
       /\ missingSpec Scenario.march 30 50
                      (Rabs (Stats.mean (sample Scenario.subscription)))
          = missingSpec lastTx avgInterval daysSinceLastTransaction
                        (Rabs (Stats.mean (sample txs))).
Proof.
  exact (proj1 (missing_recurrence_fields Scenario.today
                  Scenario.subscription 7 _) subscription_emitted).
Defined.

(** C9, counterexample. For three transactions with the same description
    30 days apart, of amounts -100, -100 and +100, seen 50 days after the
    last one, the emitted record has [averageAmount] 100/3, while the mean
    of the absolute amounts is 100. *)
Lemma missing_recurrence_mixed_signs :
  exists r,
    In r (detectUnusualFrequency Scenario.today Scenario.subscription 7)
    /\ averageAmount r = Fin (100 / 3)
    /\ Stats.mean (map Rabs (sample Scenario.subscription)) = 100
    /\ averageAmount r
       <> Fin (Stats.mean (map Rabs (sample Scenario.subscription))).
Proof.
  destruct subscription_statistics as (_ & _ & _ & _ & Havg & Habs).
  exists (missingSpec Scenario.march 30 50
                      (Rabs (Stats.mean (sample Scenario.subscription)))).
  split; [exact subscription_emitted|].
  assert (Hr : Rabs (Stats.mean (sample Scenario.subscription)) = 100 / 3).
  { rewrite Havg, Rabs_Ropp. apply Rabs_right. lra. }
  split; [|split; [exact Habs|]].
  - cbn [missingSpec averageAmount]. now rewrite Hr.
  - cbn [missingSpec averageAmount]. rewrite Hr, Habs. intros [= H]. lra.
Qed.

End AnomalyDetectionFacts.

(** ** The category groups of [detectAnomalies] *)

Module CategoryGroupFacts.

Import AnomalyDetection AnomalyNotions.


Lemma ascending_keys k ts k' ts' rest :
  ascending ((k, ts) :: rest) -> In (k', ts') rest -> k < k'.
Proof.
  intros Hs Hin. apply StronglySorted_inv in Hs as [_ Hall].
  rewrite List.Forall_forall in Hall. exact (Hall _ Hin).
Qed.





End CategoryGroupFacts.

(** ** Signs of doubles *)

Module Binary64Facts.

Import Floats Binary64.













End Binary64Facts.

(** ** The z-score threshold, over doubles *)

Module ZScoreThresholdFacts.

Import Floats Binary64 AnomalyDetection64 AnomalyNotions.





End ZScoreThresholdFacts.

(** ** More on the ledger *)

Module LedgerMore.

Import Ledger LedgerFacts.

Lemma adjust_is_Some_inv k j x s :
  is_Some (accounts (adjust k x s) !! j) -> is_Some (accounts s !! j).
Proof.
  intros Hj. destruct (decide (k = j)) as [->|Hne].
  - rewrite adjust_lookup_same in Hj.
    destruct (accounts s !! j); [now eexists|].
    destruct Hj as [? Hj]. discriminate Hj.
  - now rewrite adjust_lookup_other in Hj.
Qed.

Lemma updateBalance_outcome k x s :
  (is_Some (accounts s !! k) /\ updateBalance k x s = (Ok tt, adjust k x s))
  \/ (accounts s !! k = None
      /\ updateBalance k x s = (Throw NotFoundException, s)).
Proof.
  destruct (accounts s !! k) as [a|] eqn:Ha.
  - left. split; [now eexists|]. apply updateBalance_adjust.
    rewrite Ha. now eexists.
  - right. split; [done|]. now apply updateBalance_missing.
Qed.

Lemma promise_all_updateBalance_Ok_inv landing k1 x1 k2 x2 s s' :
  promise_all_updateBalance landing k1 x1 k2 x2 s = (Ok tt, s') ->
  is_Some (accounts s !! k1) /\ is_Some (accounts s !! k2).
Proof.
  unfold promise_all_updateBalance, incremented.
  destruct (accounts s !! k1), (accounts s !! k2); simpl; try discriminate.
  intros _. split; now eexists.
Qed.

(** The balance effect succeeds exactly when the touched accounts exist. *)
Lemma updateAccountBalance_Ok t s s' :
  updateAccountBalance t s = (Ok tt, s') ->
  touched_exist t s /\ s' = applied t s.
Proof.
  intros H.
  assert (Hex : touched_exist t s).
  { unfold touched_exist.
    unfold updateAccountBalance, updateAccountBalanceWith, try_rethrow in H.
    destruct (is_transfer_with_destination t).
    - destruct (promise_all_updateBalance _ _ _ _ _ s) as [[[]|e] s1] eqn:E;
        [|discriminate H].
      apply promise_all_updateBalance_Ok_inv in E as [Hsrc Hdst].
      split; [exact Hsrc|]. intros _. exact Hdst.
    - destruct (updateBalance_outcome (accountId t) (amount t) s)
        as [[Hsrc E1]|[Hsrc E1]]; rewrite E1 in H; [|discriminate H].
      split; [done|discriminate]. }
  split; [exact Hex|].
  rewrite (updateAccountBalance_applied t s Hex) in H. congruence.
Qed.

Lemma reverseAccountBalance_Ok t s s' :
  reverseAccountBalance t s = (Ok tt, s') ->
  touched_exist t s /\ s' = reversed t s.
Proof.
  intros H.
  assert (Hex : touched_exist t s).
  { unfold touched_exist.
    unfold reverseAccountBalance, reverseAccountBalanceWith, try_rethrow in H.
    destruct (is_transfer_with_destination t).
    - destruct (promise_all_updateBalance _ _ _ _ _ s) as [[[]|e] s1] eqn:E;
        [|discriminate H].
      apply promise_all_updateBalance_Ok_inv in E as [Hsrc Hdst].
      split; [exact Hsrc|]. intros _. exact Hdst.
    - destruct (updateBalance_outcome (accountId t) (- amount t) s)
        as [[Hsrc E1]|[Hsrc E1]]; rewrite E1 in H; [|discriminate H].
      split; [done|discriminate]. }
  split; [exact Hex|].
  rewrite (reverseAccountBalance_reversed t s Hex) in H. congruence.
Qed.



Lemma accounts_findOne_outcome aid uid s :
  (exists a, accounts s !! aid = Some a /\ account_userId a = uid
             /\ accounts_findOne aid uid s = (Ok a, s))
  \/ accounts_findOne aid uid s = (Throw NotFoundException, s).
Proof.
  unfold accounts_findOne. destruct (accounts s !! aid) as [a|]; [|now right].
  destruct (account_userId a =? uid) eqn:E; [|now right].
  left. exists a. repeat split. lia.
Qed.

Import LedgerNotions.

Lemma applied_transactions t s : transactions (applied t s) = transactions s.
Proof.
  unfold applied. destruct (is_transfer_with_destination t);
    now rewrite ?adjust_from_transactions, ?adjust_transactions.
Qed.

Lemma applied_nextId t s : nextId (applied t s) = nextId s.
Proof.
  unfold applied. destruct (is_transfer_with_destination t);
    now rewrite ?adjust_from_nextId, ?adjust_nextId.
Qed.

(** How [create] ends: it returns the saved entity, with its balance
    effect applied if it is paid, or it throws [NotFoundException] or
    [BadRequestException] from its checks and leaves the store as it was. *)
Lemma create_outcome uid dto s :
  (let t := entity uid dto (nextId s) in
   create uid dto s
   = (Ok t, if isPaid t then applied t (inserted t s) else inserted t s)
   /\ touched_exist t (inserted t s))
  \/ (exists e, create uid dto s = (Throw e, s)
                /\ (e = NotFoundException \/ e = BadRequestException)).
Proof.
  remember (create uid dto s) as r eqn:Hr.
  unfold create in Hr. unfold bind at 1 in Hr.
  destruct (accounts_findOne_outcome (c_accountId dto) uid s)
    as [(a & Ha & _ & E)|E]; rewrite E in Hr; [|right; eauto].
  assert (Htail : forall (Hdst : is_transfer_with_destination
                                   (entity uid dto (nextId s)) = true ->
                                 is_Some (accounts s
                                          !! destination
                                               (entity uid dto (nextId s)))),
             let t := entity uid dto (nextId s) in
             (savedTransaction <-- save_new (entity uid dto) ;;
              when (isPaid savedTransaction)
                   (updateAccountBalance savedTransaction) ;;;
              ret savedTransaction) s
             = (Ok t, if isPaid t then applied t (inserted t s)
                      else inserted t s)
             /\ touched_exist t (inserted t s)).
  { intros Hdst t.
    assert (Hex : touched_exist t (inserted t s)).
    { split; simpl; [rewrite Ha; now eexists|exact Hdst]. }
    split; [|exact Hex].
    unfold bind at 1, save_new. fold t. fold (inserted t s).
    unfold bind, when, ret. destruct (isPaid t); [|reflexivity].
    now rewrite (updateAccountBalance_applied t _ Hex). }
  unfold bind at 1 in Hr.
  destruct (TransactionType_eqb (c_type dto) TRANSFER
            && truthy (c_destinationAccountId dto)) eqn:Hc;
    cbn [when] in Hr.
  - unfold bind at 1 in Hr.
    destruct (accounts_findOne_outcome
                (default 0 (c_destinationAccountId dto)) uid s)
      as [(b & Hb & _ & E2)|E2]; rewrite E2 in Hr; [|right; eauto].
    destruct (strict_eq (Some (c_accountId dto))
                        (c_destinationAccountId dto)); cbn [when] in Hr.
    + right. exists BadRequestException. split; [exact Hr|now right].
    + left. rewrite Hr. apply Htail. intros _. unfold destination. simpl.
      destruct (c_destinationAccountId dto); simpl in *; rewrite Hb;
        now eexists.
  - left. rewrite Hr. apply Htail. unfold is_transfer_with_destination.
    simpl. rewrite Hc. discriminate.
Qed.



(** X2. Removing a transaction right after creating it gives back every
    account balance as it was before the creation, and, when the generated
    id was free, the transaction table as well. *)
Theorem create_then_remove uid dto s t s1 :
  create uid dto s = (Ok t, s1) ->
  exists s2,
    remove (id t) uid s1 = (Ok tt, s2)
    /\ accounts s2 = accounts s
    /\ (transactions s !! nextId s = None ->
        transactions s2 = transactions s).
Proof.
  intros H. destruct (create_outcome uid dto s) as [[E Hex]|(e & E & _)];
    [|rewrite E in H; discriminate H].
  rewrite E in H. clear E.
  set (t0 := entity uid dto (nextId s)) in *.
  assert (Hid : id t0 = nextId s) by reflexivity.
  assert (Hu : userId t0 = uid) by reflexivity.
  clearbody t0. injection H as -> Hs1.
  exists (removed t (inserted t s)).
  assert (Hrow : forall s0, transactions s0 = transactions (inserted t s) ->
                            findOne (id t) uid s0 = (Ok t, s0)).
  { intros s0 Hs0. unfold findOne. rewrite Hs0, Hid. simpl.
    rewrite lookup_insert_eq, Hu. now rewrite Z.eqb_refl. }
  split; [|split].
  - unfold remove, bind. destruct (isPaid t) eqn:Hp; subst s1.
    + rewrite Hrow by apply applied_transactions. rewrite Hp. cbn [when].
      rewrite reverseAccountBalance_reversed
        by now apply touched_exist_applied.
      now rewrite reversed_applied.
    + rewrite Hrow by reflexivity. now rewrite Hp.
  - reflexivity.
  - intros Hfree. simpl. rewrite Hid. now apply delete_insert_id.
Qed.

Lemma create_then_remove_witness :
  exists t s1 s2,
    create 7 Scenario.paidTransfer200 Scenario.twoAccounts = (Ok t, s1)
    /\ remove (id t) 7 s1 = (Ok tt, s2)
    /\ accounts s2 = accounts Scenario.twoAccounts
    /\ transactions s2 = transactions Scenario.twoAccounts.
Proof.
  destruct (create 7 Scenario.paidTransfer200 Scenario.twoAccounts)
    as [[t|e] s1] eqn:E; [|vm_compute in E; discriminate E].
  destruct (create_then_remove _ _ _ _ _ E) as (s2 & Hrm & Hacc & Htx).
  exists t, s1, s2. split; [reflexivity|]. split; [exact Hrm|].
  split; [exact Hacc|]. apply Htx. reflexivity.
Defined.

Lemma reversed_transactions t s : transactions (reversed t s) = transactions s.
Proof.
  unfold reversed. destruct (is_transfer_with_destination t);
    now rewrite ?adjust_from_transactions, ?adjust_transactions.
Qed.

Lemma findOne_outcome tid uid s :
  (exists t, transactions s !! tid = Some t /\ userId t = uid
             /\ findOne tid uid s = (Ok t, s))
  \/ ((forall t, transactions s !! tid = Some t -> userId t <> uid)
      /\ findOne tid uid s = (Throw NotFoundException, s)).
Proof.
  unfold findOne. destruct (transactions s !! tid) as [t|].
  - destruct (userId t =? uid) eqn:E.
    + left. exists t. repeat split. lia.
    + right. split; [|done]. intros t' [= <-]. lia.
  - right. split; [|done]. intros t' [=].
Qed.

Lemma accounts_findOne_Throw aid uid s e s' :
  accounts_findOne aid uid s = (Throw e, s') -> e = NotFoundException.
Proof.
  unfold accounts_findOne. destruct (accounts s !! aid) as [a|];
    [destruct (_ =? _)|]; congruence.
Qed.

Lemma validate_update_outcome t uid dto s :
  validate_update t uid dto s = (Ok tt, s)
  \/ validate_update t uid dto s = (Throw NotFoundException, s)
  \/ validate_update t uid dto s = (Throw BadRequestException, s).
Proof.
  pose proof (validate_update_store t uid dto s) as Hs.
  destruct (validate_update t uid dto s) as [[[]|e] s1] eqn:E;
    simpl in Hs; subst s1; [now left|right].
  assert (e <> InternalServerErrorException) as He.
  { intros ->. revert E. unfold validate_update, bind, when, ret, throw.
    destruct (truthy (u_accountId dto) && _).
    - destruct (accounts_findOne (default 0 (u_accountId dto)) uid s)
        as [[a|e] s1] eqn:E1.
      + destruct (_ && _ && _); [|discriminate].
        destruct (accounts_findOne (default 0 (u_destinationAccountId dto))
                                   uid s1) as [[b|e] s2] eqn:E2.
        * destruct (strict_eq _ _); discriminate.
        * apply accounts_findOne_Throw in E2. congruence.
      + apply accounts_findOne_Throw in E1. congruence.
    - destruct (_ && _ && _); [|discriminate].
      destruct (accounts_findOne (default 0 (u_destinationAccountId dto))
                                 uid s) as [[b|e] s2] eqn:E2.
      + destruct (strict_eq _ _); discriminate.
      + apply accounts_findOne_Throw in E2. congruence. }
  destruct e; [now left|now right|done].
Qed.

(** How [update] ends when it returns. *)
Lemma update_Ok_store tid uid dto s t' s' :
  update tid uid dto s = (Ok t', s') ->
  exists t0,
    transactions s !! tid = Some t0 /\ userId t0 = uid
    /\ t' = assign t0 (resign t0 dto)
    /\ let s1 := if isPaid t0 then reversed t0 s else s in
       let s2 := overwritten t' s1 in
       s' = if isPaid t' then applied t' s2 else s2.
Proof.
  intros H. unfold update in H. unfold bind at 1 in H.
  destruct (findOne_outcome tid uid s) as [(t0 & Hl & Hu & E)|[_ E]];
    rewrite E in H; [|discriminate H].
  exists t0. split; [exact Hl|]. split; [exact Hu|].
  unfold bind at 1 in H.
  destruct (validate_update_outcome t0 uid dto s) as [E1|[E1|E1]];
    rewrite E1 in H; try discriminate H.
  set (t1 := assign t0 (resign t0 dto)) in *.
  unfold bind at 1 in H.
  assert (Hrev : exists s1, when (isPaid t0) (reverseAccountBalance t0) s
                            = (Ok tt, s1)
                            /\ s1 = if isPaid t0 then reversed t0 s else s).
  { destruct (when (isPaid t0) (reverseAccountBalance t0) s)
      as [[[]|e] s1] eqn:E2; [|discriminate H].
    exists s1. split; [reflexivity|].
    destruct (isPaid t0); simpl in E2.
    - now apply reverseAccountBalance_Ok in E2.
    - unfold ret in E2. congruence. }
  destruct Hrev as (s1 & E2 & Hs1). rewrite E2 in H.
  unfold bind at 1, save in H. fold (overwritten t1 s1) in H.
  unfold bind at 1 in H.
  destruct (when (isPaid t1) (updateAccountBalance t1) (overwritten t1 s1))
    as [[[]|e] s3] eqn:E3; [|discriminate H].
  unfold ret in H. injection H as <- <-. split; [reflexivity|].
  cbv zeta. rewrite <- Hs1.
  destruct (isPaid t1); simpl in E3.
  - now apply updateAccountBalance_Ok in E3.
  - unfold ret in E3. congruence.
Qed.

(** X3. When [update] succeeds on a transaction that is not a transfer
    with destination before or after and stays on its account, that
    account's balance changes by what the revised transaction posts minus
    what the old one posted (the amount if paid, nothing if unpaid), and no
    other account changes. *)
Theorem update_balance_delta tid uid dto s t' s' t0 :
  update tid uid dto s = (Ok t', s') ->
  transactions s !! tid = Some t0 ->
  is_transfer_with_destination t0 = false ->
  is_transfer_with_destination t' = false ->
  accountId t' = accountId t0 ->
  balanceOf s' (accountId t0)
  = (fun b => b - posted t0 + posted t') <$> balanceOf s (accountId t0)
  /\ forall a, a <> accountId t0 -> balanceOf s' a = balanceOf s a.
Proof.
  intros H Hl H0 H' Hacc.
  destruct (update_Ok_store _ _ _ _ _ _ H) as (t1 & Hl1 & _ & _ & Hs').
  assert (t1 = t0) as -> by congruence. cbv zeta in Hs'. subst s'.
  unfold applied, reversed, posted. rewrite H0, H', Hacc.
  split.
  - destruct (isPaid t0), (isPaid t');
      rewrite ?balanceOf_adjust_same;
      change (balanceOf (overwritten t' ?x)) with (balanceOf x);
      rewrite ?balanceOf_adjust_same;
      (destruct (balanceOf s (accountId t0)); simpl; [|done]; f_equal; lia).
  - intros a Ha.
    destruct (isPaid t0), (isPaid t');
      rewrite ?balanceOf_adjust_other by congruence;
      change (balanceOf (overwritten t' ?x)) with (balanceOf x);
      rewrite ?balanceOf_adjust_other by congruence; reflexivity.
Qed.

Lemma update_balance_delta_witness :
  let s1 := snd (create 7 Scenario.paidExpense50 Scenario.twoAccounts) in
  exists t' s',
    update 1 7 Scenario.amountTo80 s1 = (Ok t', s')
    /\ balanceOf s' 1 = (fun b => b - -50 + 80) <$> balanceOf s1 1
    /\ balanceOf s' 2 = balanceOf s1 2.
Proof.
  intros s1.
  destruct (update 1 7 Scenario.amountTo80 s1) as [[t'|e] s'] eqn:E;
    [|vm_compute in E; discriminate E].
  exists t', s'. split; [reflexivity|].
  assert (Ht' : t' = mkTransaction 1 80 EXPENSE None 0 true 1 None None 7 None)
    by (vm_compute in E; congruence).
  destruct (update_balance_delta 1 7 Scenario.amountTo80 s1 t' s'
              (mkTransaction 1 (-50) EXPENSE None 0 true 1 None None 7 None)
              E) as [H1 H2];
    try (rewrite Ht'; reflexivity); try reflexivity.
  split.
  - rewrite Ht' in H1. exact H1.
  - apply H2. discriminate.
Defined.





(** X5. [update] and [remove] asked for a transaction that does not exist
    or belongs to another user throw [NotFoundException] and change
    nothing. *)
Theorem foreign_transaction_is_not_found tid uid dto s :
  (forall t, transactions s !! tid = Some t -> userId t <> uid) ->
  update tid uid dto s = (Throw NotFoundException, s)
  /\ remove tid uid s = (Throw NotFoundException, s).
Proof.
  intros Hforeign.
  assert (E : findOne tid uid s = (Throw NotFoundException, s)).
  { destruct (findOne_outcome tid uid s) as [(t & Hl & Hu & _)|[_ E]];
      [|exact E]. now destruct (Hforeign t Hl). }
  unfold update, remove, bind. now rewrite E.
Qed.

Lemma foreign_transaction_is_not_found_witness :
  let s1 := snd (create 7 Scenario.paidExpense50 Scenario.twoAccounts) in
  update 1 8 Scenario.amountTo80 s1 = (Throw NotFoundException, s1)
  /\ remove 1 8 s1 = (Throw NotFoundException, s1).
Proof.
  intros s1. apply foreign_transaction_is_not_found.
  intros t Ht. vm_compute in Ht. injection Ht as <-. discriminate.
Defined.

(** X6. The balance effect of a transfer whose source account exists and
    whose destination account does not throws
    [InternalServerErrorException] after having debited the source: the
    two legs are not applied as one unit. *)
Theorem transfer_to_missing_account_debits_source t s :
  is_transfer_with_destination t = true ->
  is_Some (accounts s !! accountId t) ->
  accounts s !! destination t = None ->
  updateAccountBalance t s
  = (Throw InternalServerErrorException,
     adjust (accountId t) (- Z.abs (amount t)) s)
  /\ balanceOf (adjust (accountId t) (- Z.abs (amount t)) s) (accountId t)
     = (fun b => b - Z.abs (amount t)) <$> balanceOf s (accountId t).
Proof.
  intros Ht Hsrc Hdst. split.
  - unfold updateAccountBalance, updateAccountBalanceWith, try_rethrow.
    rewrite Ht. now rewrite promise_all_updateBalance_second_missing.
  - rewrite balanceOf_adjust_same. reflexivity.
Qed.

Lemma transfer_to_missing_account_debits_source_witness :
  let s := mkStore (<[1 := mkAccount 1 1000 7]> ∅) ∅ 1 in
  fst (updateAccountBalance Scenario.transfer200 s)
  = Throw InternalServerErrorException
  /\ balanceOf (snd (updateAccountBalance Scenario.transfer200 s)) 1
     = Some 800.
Proof.
  intros s.
  destruct (transfer_to_missing_account_debits_source Scenario.transfer200 s)
    as [H1 H2]; [reflexivity|eexists; reflexivity|reflexivity|].
  rewrite H1. split; [reflexivity|exact H2].
Defined.

End LedgerMore.

(** ** Account summary and account removal *)

Module AccountsFacts.

Import Ledger LedgerFacts LedgerNotions AccountsService.







Lemma references_false aid t :
  references aid t = false <->
  accountId t <> aid /\ destinationAccountId t <> Some aid.
Proof.
  unfold references, strict_eq. destruct (destinationAccountId t) as [d|].
  - rewrite orb_false_iff. split.
    + intros [H1 H2]. split; [lia|]. intros [= ->]. lia.
    + intros [H1 H2]. split; [lia|].
      destruct (d =? aid) eqn:E; [|done]. destruct H2. f_equal. lia.
  - rewrite orb_false_r. split; [intros H; split; [lia|done]|intros [H _]; lia].
Qed.

Lemma hasTransactionsForAccount_spec aid s :
  hasTransactionsForAccount aid s = true <->
  exists k t, transactions s !! k = Some t /\ references aid t = true.
Proof.
  unfold hasTransactionsForAccount. rewrite Nat.ltb_lt. split.
  - intros Hlen.
    destruct (List.filter (references aid)
                          (map snd (map_to_list (transactions s))))
      as [|t l] eqn:E; [simpl in Hlen; lia|].
    assert (Hin : In t (List.filter (references aid)
                          (map snd (map_to_list (transactions s)))))
      by (rewrite E; now left).
    apply filter_In in Hin as [Hin Href].
    apply in_map_iff in Hin as ([k t'] & <- & Hin).
    apply list_elem_of_In, elem_of_map_to_list in Hin.
    now exists k, t'.
  - intros (k & t & Hl & Href).
    assert (Hin : In t (List.filter (references aid)
                          (map snd (map_to_list (transactions s))))).
    { apply filter_In. split; [|exact Href].
      apply in_map_iff. exists (k, t). split; [reflexivity|].
      now apply list_elem_of_In, elem_of_map_to_list. }
    destruct (List.filter _ _); [destruct Hin|simpl; lia].
Qed.

(** X8. [accountsService.remove] ends in one of three ways: the account is
    missing or belongs to another user, [NotFoundException], nothing
    changes; some transaction has the account as source or destination,
    [ForbiddenException], nothing changes; otherwise the account, which no
    transaction refers to, is deleted and nothing else changes. *)
Theorem account_removal_cases aid uid s :
  ((forall a, accounts s !! aid = Some a -> account_userId a <> uid)
   /\ AccountsService.remove aid uid s = (ThrewNotFound, s))
  \/ ((exists a, accounts s !! aid = Some a /\ account_userId a = uid)
      /\ (exists k t, transactions s !! k = Some t
                      /\ (accountId t = aid
                          \/ destinationAccountId t = Some aid))
      /\ AccountsService.remove aid uid s = (ThrewForbidden, s))
  \/ ((exists a, accounts s !! aid = Some a /\ account_userId a = uid)
      /\ (forall k t, transactions s !! k = Some t ->
                      accountId t <> aid
                      /\ destinationAccountId t <> Some aid)
      /\ AccountsService.remove aid uid s
         = (Removed, mkStore (delete aid (accounts s)) (transactions s)
                             (nextId s))).
Proof.
  unfold AccountsService.remove, accounts_findOne.
  destruct (accounts s !! aid) as [a|] eqn:Ha.
  - destruct (account_userId a =? uid) eqn:Hu.
    + right. assert (Hown : exists a0, Some a = Some a0
                                      /\ account_userId a0 = uid)
        by (exists a; split; [done|lia]).
      destruct (hasTransactionsForAccount aid s) eqn:Hh.
      * left. split; [exact Hown|]. split; [|reflexivity].
        apply hasTransactionsForAccount_spec in Hh as (k & t & Hl & Href).
        exists k, t. split; [exact Hl|].
        destruct (decide (accountId t = aid)) as [|Hn]; [now left|right].
        destruct (decide (destinationAccountId t = Some aid)) as [|Hn'];
          [done|].
        assert (references aid t = false) by now apply references_false.
        congruence.
      * right. split; [exact Hown|]. split; [|reflexivity].
        intros k t Hl. apply references_false.
        destruct (references aid t) eqn:Href; [|done].
        assert (hasTransactionsForAccount aid s = true)
          by (apply hasTransactionsForAccount_spec; now exists k, t).
        congruence.
    + left. split; [|reflexivity]. intros a0 [= <-]. lia.
  - left. split; [|reflexivity]. intros a0 [=].
Qed.

End AccountsFacts.

(** ** Sorting and slicing *)

Module JsFacts.

Lemma insert_sorted_Permutation {A} (le : A -> A -> bool) x l :
  Permutation (Js.insert_sorted le x l) (x :: l).
Proof.
  induction l as [|y l IH]; simpl; [reflexivity|].
  destruct (le x y); [reflexivity|].
  rewrite IH. apply perm_swap.
Qed.

Lemma sortBy_Permutation {A} (le : A -> A -> bool) l :
  Permutation (Js.sortBy le l) l.
Proof.
  unfold Js.sortBy. induction l as [|x l IH]; simpl; [reflexivity|].
  rewrite insert_sorted_Permutation. now constructor.
Qed.

Lemma sortBy_In {A} (le : A -> A -> bool) l x :
  In x (Js.sortBy le l) <-> In x l.
Proof.
  split; apply Permutation_in;
    [apply sortBy_Permutation|symmetry; apply sortBy_Permutation].
Qed.

(** Sorting by a comparison that is total and transitive on the elements
    leaves every element in front of all the later ones. *)
Section Sorted.

Context {A : Type} (le : A -> A -> bool) (P : A -> Prop).
Hypothesis le_total :
  forall a b, P a -> P b -> le a b = true \/ le b a = true.
Hypothesis le_trans :
  forall a b c, P a -> P b -> P c ->
                le a b = true -> le b c = true -> le a c = true.

Lemma insert_sorted_sorted x l :
  P x -> Forall P l ->
  StronglySorted (fun a b => le a b = true) l ->
  StronglySorted (fun a b => le a b = true) (Js.insert_sorted le x l).
Proof.
  intros Hx HP Hs. induction Hs as [|y l Hs IH Hy]; simpl.
  - repeat constructor.
  - apply Forall_cons_1 in HP as [Py Pl].
    destruct (le x y) eqn:E.
    + constructor; [now constructor|]. constructor; [exact E|].
      rewrite List.Forall_forall in *. intros z Hz.
      apply (le_trans x y z); auto.
    + constructor; [now apply IH|].
      assert (Hyx : le y x = true)
        by (destruct (le_total x y Hx Py); congruence).
      rewrite List.Forall_forall in *. intros z Hz.
      apply (Permutation_in _ (insert_sorted_Permutation le x l)) in Hz.
      destruct Hz as [<-|Hz]; auto.
Qed.

Lemma sortBy_sorted l :
  Forall P l -> StronglySorted (fun a b => le a b = true) (Js.sortBy le l).
Proof.
  unfold Js.sortBy. induction 1 as [|x l Hx HP IH]; simpl; [constructor|].
  apply insert_sorted_sorted; [exact Hx| |exact IH].
  rewrite List.Forall_forall in *. intros z Hz.
  apply HP. now apply (sortBy_In le l z).
Qed.

End Sorted.

Lemma firstn_In {A} n (l : list A) x : In x (firstn n l) -> In x l.
Proof.
  intros H. rewrite <- (firstn_skipn n l). apply in_or_app. now left.
Qed.

Lemma slice0_incl {A} (e : Z) (l : list A) x :
  In x (Js.slice0 e l) -> In x l.
Proof. unfold Js.slice0. apply firstn_In. Qed.

Lemma slice0_length {A} (e : Z) (l : list A) :
  (0 <= e)%Z -> (Z.of_nat (length (Js.slice0 e l)) <= e)%Z.
Proof.
  intros He. unfold Js.slice0. rewrite length_firstn.
  assert ((e <? 0)%Z = false) as -> by lia. lia.
Qed.

End JsFacts.

(** ** Where a suggestion comes from *)

Module SuggestionFacts.

Import JsNumber AutoCategorization.

Lemma findAll_In uid ty cats c :
  In c (Queries.findAll uid ty cats) ->
  In c cats /\ category_userId c = uid
  /\ (category_type c = ty \/ category_type c = CategoryType_BOTH).
Proof.
  unfold Queries.findAll. rewrite JsFacts.sortBy_In, filter_In.
  intros [Hc H]. apply andb_true_iff in H as [Hu Ht].
  split; [exact Hc|]. split; [lia|].
  apply orb_true_iff in Ht as [Ht|Ht]; [left|right];
    destruct (category_type c), ty; try discriminate; reflexivity.
Qed.

Lemma findRecent_In uid n rows t :
  In t (Queries.findRecent uid n rows) -> In t rows /\ userId t = uid.
Proof.
  unfold Queries.findRecent. intros H. apply JsFacts.firstn_In in H.
  rewrite JsFacts.sortBy_In, filter_In in H. destruct H as [Ht Hu].
  split; [exact Ht|lia].
Qed.

Lemma scanSimilar_inv q l t :
  scanSimilar q l = Returned (Some t) -> In t l /\ similar q t = true.
Proof.
  induction l as [|u l IH]; simpl; [discriminate|].
  destruct (description u) as [d|] eqn:Hd; [|discriminate].
  destruct (Js.includes (normalizeText d) q || Js.includes q (normalizeText d))
    eqn:E.
  - intros [= <-]. split; [now left|]. unfold similar. now rewrite Hd.
  - intros H. destruct (IH H) as [Hin Hs]. split; [now right|exact Hs].
Qed.

Lemma scanKeywords_inv keywordMap q l r :
  scanKeywords keywordMap q l = Returned (Some r) ->
  exists c, In c l /\ keywordHit keywordMap q c = true
            /\ r = mkSuggestion (Some (category_id c)) (Fin 0.7).
Proof.
  induction l as [|c l IH]; simpl; [discriminate|].
  unfold keywordHit at 1.
  destruct (keywords keywordMap (Js.toLowerCase (name c))) as [ks|] eqn:Hk.
  - destruct (existsb (Js.includes q) ks) eqn:E.
    + intros [= <-]. exists c. split; [now left|].
      unfold keywordHit. rewrite Hk. now split.
    + intros H. destruct (IH H) as (c' & Hin & Hc'). exists c'.
      split; [now right|exact Hc'].
  - destruct (inherited (Js.toLowerCase (name c))); [discriminate|].
    intros H. destruct (IH H) as (c' & Hin & Hc'). exists c'.
    split; [now right|exact Hc'].
Qed.

Lemma fallback_inv cats amount uid r :
  fallbackCategorization cats amount uid = Some r ->
  exists c, In c (Queries.findAll uid (polarity amount) cats)
            /\ r = mkSuggestion (Some (category_id c)) (Fin 0.3).
Proof.
  unfold fallbackCategorization.
  destruct (Queries.findAll uid (polarity amount) cats) as [|c l];
    [discriminate|].
  intros [= <-]. exists c. split; [now left|reflexivity].
Qed.

Section Provenance.

Variable tokenize : string -> list string.
Variable getClassifications : string -> list (Z * number).
Variable isModelTrained : bool.
Variable keywordMap : list (string * list string).
Variable rows : list Transaction.
Variable cats : list Category.

Abbreviation fromClassifier :=
  (SuggestionSources.fromClassifier tokenize getClassifications
                                    isModelTrained).
Abbreviation fromHistory := (SuggestionSources.fromHistory rows).
Abbreviation fromCategories := (SuggestionSources.fromCategories cats).

Lemma fallback_fromCategories amount uid r :
  fallbackCategorization cats amount uid = Some r ->
  fromCategories amount uid r.
Proof.
  intros H. apply fallback_inv in H as (c & Hc & ->).
  apply findAll_In in Hc as (Hin & Hu & Ht).
  split; [now right|]. exists c. now repeat split.
Qed.

Lemma suggest_confidence desc amount uid r :
  suggestCategory tokenize getClassifications isModelTrained keywordMap
                  rows cats desc amount uid = Some r ->
  gt (confidence r) (Fin 0.3) = true
  \/ confidence r = Fin 0.85 \/ confidence r = Fin 0.7
  \/ confidence r = Fin 0.3.
Proof.
  assert (Hfb : fallbackCategorization cats amount uid = Some r ->
                confidence r = Fin 0.3).
  { intros H. now apply fallback_inv in H as (c & _ & ->). }
  unfold suggestCategory.
  destruct (isBlank desc); [intros H; right; right; right; now apply Hfb|].
  unfold trySuggest, classify.
  set (d := default ""%string desc).
  destruct isModelTrained.
  - destruct (getClassifications (extractFeatures tokenize d amount))
      as [|[label value] rest].
    + destruct (findSimilarTransaction rows (normalizeText d) uid)
        as [[t|]|].
      * intros [= <-]. right. now left.
      * destruct (matchCategoryByKeywords keywordMap cats (normalizeText d)
                                          amount uid) as [[m|]|] eqn:Hm.
        -- intros [= <-]. apply scanKeywords_inv in Hm as (c & _ & _ & ->).
           right. right. now left.
        -- intros H. right. right. right. now apply Hfb.
        -- intros H. right. right. right. now apply Hfb.
      * intros H. right. right. right. now apply Hfb.
    + destruct (gt value (Fin 0.3)) eqn:Hgt.
      * intros [= <-]. now left.
      * destruct (findSimilarTransaction rows (normalizeText d) uid)
          as [[t|]|].
        -- intros [= <-]. right. now left.
        -- destruct (matchCategoryByKeywords keywordMap cats
                       (normalizeText d) amount uid) as [[m|]|] eqn:Hm.
           ++ intros [= <-].
              apply scanKeywords_inv in Hm as (c & _ & _ & ->).
              right. right. now left.
           ++ intros H. right. right. right. now apply Hfb.
           ++ intros H. right. right. right. now apply Hfb.
        -- intros H. right. right. right. now apply Hfb.
  - destruct (findSimilarTransaction rows (normalizeText d) uid)
      as [[t|]|].
    + intros [= <-]. right. now left.
    + destruct (matchCategoryByKeywords keywordMap cats (normalizeText d)
                                        amount uid) as [[m|]|] eqn:Hm.
      * intros [= <-]. apply scanKeywords_inv in Hm as (c & _ & _ & ->).
        right. right. now left.
      * intros H. right. right. right. now apply Hfb.
      * intros H. right. right. right. now apply Hfb.
    + intros H. right. right. right. now apply Hfb.
Qed.

(** X9. Whatever [suggestCategory] suggests comes from one of three
    places: the trained classifier's top label, with its probability above
    0.3; the category of one of the same user's transactions with a similar
    description, at confidence 0.85; or one of the same user's categories
    whose type is that of the amount's sign or BOTH, at confidence 0.7 or
    0.3. *)
Theorem suggestion_provenance desc amount uid r :
  suggestCategory tokenize getClassifications isModelTrained keywordMap
                  rows cats desc amount uid = Some r ->
  fromClassifier desc amount r \/ fromHistory desc uid r
  \/ fromCategories amount uid r.
Proof.
  unfold suggestCategory.
  destruct (isBlank desc) eqn:Hb.
  { intros H. right. right. now apply fallback_fromCategories. }
  destruct desc as [d|]; [|discriminate].
  change (default ""%string (Some d)) with d. unfold trySuggest.
  destruct (classify tokenize getClassifications isModelTrained d amount)
    as [top|] eqn:Hc.
  { intros [= <-]. left. unfold classify in Hc.
    destruct isModelTrained; [|discriminate]. split; [reflexivity|].
    destruct (getClassifications (extractFeatures tokenize d amount))
      as [|[label value] rest] eqn:Hg; [discriminate|].
    destruct (gt value (Fin 0.3)) eqn:Hgt; [|discriminate].
    injection Hc as <-. exists d, label, rest. now repeat split. }
  destruct (findSimilarTransaction rows (normalizeText d) uid)
    as [[t|]|] eqn:Hs.
  - intros [= <-]. right. left. unfold findSimilarTransaction in Hs.
    apply scanSimilar_inv in Hs as [Hin Hsim].
    apply findRecent_In in Hin as [Hin Hu].
    split; [reflexivity|]. exists d, t. now repeat split.
  - destruct (matchCategoryByKeywords keywordMap cats (normalizeText d)
                                      amount uid) as [[m|]|] eqn:Hm.
    + intros [= <-]. right. right. unfold matchCategoryByKeywords in Hm.
      apply scanKeywords_inv in Hm as (c & Hc' & _ & ->).
      apply findAll_In in Hc' as (Hin & Hu & Ht).
      split; [now left|]. exists c. now repeat split.
    + intros H. right. right. now apply fallback_fromCategories.
    + intros H. right. right. now apply fallback_fromCategories.
  - intros H. right. right. now apply fallback_fromCategories.
Qed.

(** X10. A suggestion never carries a confidence below 0.3, nor NaN. *)
Theorem suggestion_confidence_floor desc amount uid r :
  suggestCategory tokenize getClassifications isModelTrained keywordMap
                  rows cats desc amount uid = Some r ->
  lt (confidence r) (Fin 0.3) = false /\ confidence r <> NaN.
Proof.
  intros H. apply suggest_confidence in H as [H|[->|[->| ->]]].
  - destruct (confidence r) as [x| | |]; try discriminate.
    + unfold gt, lt in *. apply JsNumberFacts.Rltb_iff in H.
      split; [|discriminate]. apply JsNumberFacts.Rltb_false. lra.
    + now split.
  - split; [|discriminate]. apply JsNumberFacts.Rltb_false. lra.
  - split; [|discriminate]. apply JsNumberFacts.Rltb_false. lra.
  - split; [|discriminate]. apply JsNumberFacts.Rltb_false. lra.
Qed.

End Provenance.

Lemma suggestion_provenance_witness :
  let r := mkSuggestion (Some 9) (Fin 0.85) in
  suggestCategory Scenario.noTokens Scenario.noClasses false []
                  [Scenario.ride] [Scenario.transport]
                  (Some "uber"%string) (-10) 7 = Some r
  /\ (SuggestionSources.fromClassifier Scenario.noTokens Scenario.noClasses
        false (Some "uber"%string) (-10) r
      \/ SuggestionSources.fromHistory [Scenario.ride]
           (Some "uber"%string) 7 r
      \/ SuggestionSources.fromCategories [Scenario.transport] (-10) 7 r).
Proof.
  split; [reflexivity|].
  apply (suggestion_provenance Scenario.noTokens Scenario.noClasses false []
           [Scenario.ride] [Scenario.transport]).
  reflexivity.
Defined.

Lemma suggestion_confidence_floor_witness :
  let r := mkSuggestion (Some 3) (Fin 0.3) in
  suggestCategory Scenario.noTokens Scenario.noClasses false []
                  [Scenario.ride; Scenario.undescribed] [Scenario.transport]
                  (Some "uber"%string) (-10) 7 = Some r
  /\ lt (confidence r) (Fin 0.3) = false /\ confidence r <> NaN.
Proof.
  split; [reflexivity|].
  apply (suggestion_confidence_floor Scenario.noTokens Scenario.noClasses
           false [] [Scenario.ride; Scenario.undescribed]
           [Scenario.transport] (Some "uber"%string) (-10) 7).
  reflexivity.
Defined.

End SuggestionFacts.

(** ** Training and feedback *)

Module LearningFacts.

Import JsNumber AutoCategorization AutoCategorizationLearning.

Lemma known_In word known :
  existsb (String.eqb word) known = true <-> In word known.
Proof.
  rewrite existsb_exists. split.
  - intros (w & Hin & Hw). apply String.eqb_eq in Hw. now subst.
  - intros Hin. exists word. split; [exact Hin|apply String.eqb_refl].
Qed.

Lemma learnWords_extends words known :
  exists extra, learnWords words known = (known ++ extra)%list
                /\ (forall w, In w extra -> In w words /\ ~ In w known)
                /\ List.NoDup extra.
Proof.
  unfold learnWords. revert known.
  induction words as [|w words IH]; intros known; simpl.
  - exists []. rewrite app_nil_r. repeat split; [easy|easy|constructor].
  - unfold pushNew at 2.
    destruct (existsb (String.eqb w) known) eqn:E.
    + destruct (IH known) as (extra & -> & Hex & Hnd).
      exists extra. split; [reflexivity|]. split; [|exact Hnd].
      intros v Hv. destruct (Hex v Hv). split; [now right|assumption].
    + destruct (IH (known ++ [w])%list) as (extra & -> & Hex & Hnd).
      exists (w :: extra). rewrite <- app_assoc. split; [reflexivity|].
      assert (Hw : ~ In w known).
      { intros Hin. apply known_In in Hin. congruence. }
      split.
      * intros v [<-|Hv]; [split; [now left|exact Hw]|].
        destruct (Hex v Hv) as [Hin Hn]. split; [now right|].
        intros Hk. apply Hn. apply in_or_app. now left.
      * constructor; [|exact Hnd]. intros Hin.
        destruct (Hex w Hin) as [_ Hn]. apply Hn. apply in_or_app.
        right. now left.
Qed.

Lemma learnWords_keeps words known w :
  In w known -> In w (learnWords words known).
Proof.
  intros H. destruct (learnWords_extends words known) as (extra & -> & _).
  apply in_or_app. now left.
Qed.

Lemma learnWords_learns words known w :
  In w words -> In w (learnWords words known).
Proof.
  unfold learnWords. revert known.
  induction words as [|v words IH]; intros known; simpl; [easy|].
  intros [->|Hin]; [|now apply IH].
  apply (learnWords_keeps words). unfold pushNew.
  destruct (existsb (String.eqb w) known) eqn:E.
  - now apply known_In.
  - apply in_or_app. right. now left.
Qed.

Lemma learnWords_known words known :
  (forall w, In w words -> In w known) -> learnWords words known = known.
Proof.
  unfold learnWords. induction words as [|v words IH]; simpl; [easy|].
  intros H. unfold pushNew at 2.
  assert (existsb (String.eqb v) known = true) as ->
      by (apply known_In, H; now left).
  apply IH. intros w Hw. apply H. now right.
Qed.

Lemma learnWords_NoDup words known :
  List.NoDup known -> List.NoDup (learnWords words known).
Proof.
  intros Hk. destruct (learnWords_extends words known)
    as (extra & -> & Hex & Hnd).
  revert Hk. induction known as [|k known IH]; simpl; [easy|].
  intros Hk. inversion Hk as [|? ? Hn Hk']; subst. constructor.
  - intros Hin. apply in_app_or in Hin as [Hin|Hin]; [easy|].
    destruct (Hex k Hin) as [_ Hno]. apply Hno. now left.
  - apply IH; [|exact Hk']. intros w Hw. destruct (Hex w Hw) as [H1 H2].
    split; [exact H1|]. intros Hin. apply H2. now right.
Qed.

Lemma keywords_setKeywords key known keywordMap :
  keywords (setKeywords key known keywordMap) key = Some known.
Proof.
  induction keywordMap as [|[k v] rest IH]; simpl.
  - now rewrite String.eqb_refl.
  - destruct (String.eqb k key) eqn:E; simpl; now rewrite E.
Qed.

Lemma keywords_setKeywords_other key known keywordMap k' :
  k' <> key ->
  keywords (setKeywords key known keywordMap) k' = keywords keywordMap k'.
Proof.
  intros Hne. induction keywordMap as [|[k v] rest IH]; simpl.
  - assert (String.eqb key k' = false) as ->; [|reflexivity].
    apply String.eqb_neq. congruence.
  - destruct (String.eqb k key) eqn:E; simpl.
    + apply String.eqb_eq in E. subst k.
      assert (String.eqb key k' = false) as ->; [|reflexivity].
      apply String.eqb_neq. congruence.
    + now rewrite IH.
Qed.

Lemma setKeywords_again key known known' keywordMap :
  setKeywords key known (setKeywords key known' keywordMap)
  = setKeywords key known keywordMap.
Proof.
  induction keywordMap as [|[k v] rest IH]; simpl.
  - now rewrite String.eqb_refl.
  - destruct (String.eqb k key) eqn:E; simpl; rewrite E; [reflexivity|].
    now rewrite IH.
Qed.

(** Every piece of a split occurs in the string that was split. *)
Lemma splitSpaces_head s :
  exists piece pieces, splitSpaces s = piece :: pieces
                       /\ String.prefix piece s = true.
Proof.
  induction s as [|c r (piece & pieces & IH & Hp)]; simpl.
  - now exists EmptyString, [].
  - destruct (N.eqb (Js.code c) 32).
    + now exists EmptyString, (splitSpaces r).
    + rewrite IH. exists (String c piece), pieces. split; [reflexivity|].
      simpl. destruct (ascii_dec c c); [exact Hp|congruence].
Qed.

Lemma splitSpaces_includes s w :
  In w (splitSpaces s) -> Js.includes s w = true.
Proof.
  induction s as [|c r IH]; simpl.
  - intros [<-|[]]. reflexivity.
  - destruct (N.eqb (Js.code c) 32).
    + intros [<-|Hin]; [reflexivity|].
      rewrite (IH Hin). apply orb_true_r.
    + destruct (splitSpaces_head r) as (piece & pieces & Hs & Hp).
      rewrite Hs in *. intros [<-|Hin].
      * simpl. destruct (ascii_dec c c); [|congruence]. now rewrite Hp.
      * rewrite IH; [apply orb_true_r|now right].
Qed.

Lemma relevantWords_includes d w :
  In w (relevantWords d) -> Js.includes (normalizeText d) w = true.
Proof.
  unfold relevantWords. rewrite filter_In. intros [H _].
  now apply splitSpaces_includes.
Qed.

(** X11. What feedback does to the keyword map, for a category whose
    lower-cased name is not an inherited key: the entries of all other keys
    are untouched; the entry of the category's key keeps its keywords, in
    order, and gains behind them exactly the words of the normalized
    description longer than 3 characters that it did not have, each once. *)
Theorem feedback_keywords (categoryName d : string)
        (keywordMap : list (string * list string)) :
  let key := Js.toLowerCase categoryName in
  let before := match keywords keywordMap key with
                | Some l => l
                | None => []
                end in
  let keywordMap' := updateKeywords categoryName d keywordMap in
  inherited key = false ->
  (forall k, k <> key -> keywords keywordMap' k = keywords keywordMap k)
  /\ exists extra,
      keywords keywordMap' key = Some (before ++ extra)%list
      /\ List.NoDup extra
      /\ forall w, In w extra <-> In w (relevantWords d) /\ ~ In w before.
Proof.
  intros key before keywordMap' Hk. subst keywordMap'.
  unfold updateKeywords. fold key. rewrite Hk. fold before. split.
  - intros k Hne. now apply keywords_setKeywords_other.
  - rewrite keywords_setKeywords.
    destruct (learnWords_extends (relevantWords d) before)
      as (extra & Heq & Hex & Hnd).
    exists extra. rewrite Heq. split; [reflexivity|]. split; [exact Hnd|].
    intros w. split; [apply Hex|]. intros [Hw Hn].
    pose proof (learnWords_learns (relevantWords d) before w Hw) as Hin.
    rewrite Heq in Hin. apply in_app_or in Hin as [Hin|Hin]; easy.
Qed.

Lemma feedback_keywords_witness :
  let keywordMap := [("transporte", ["uber"; "taxi"])]%string in
  let keywordMap' :=
      updateKeywords "Transporte" "Uber viagem centro" keywordMap in
  inherited (Js.toLowerCase "Transporte") = false
  /\ keywords keywordMap' "transporte"
     = Some ["uber"; "taxi"; "viagem"; "centro"]%string
  /\ forall k, k <> Js.toLowerCase "Transporte" ->
               keywords keywordMap' k = keywords keywordMap k.
Proof.
  split; [reflexivity|]. split; [reflexivity|].
  exact (proj1 (feedback_keywords "Transporte" "Uber viagem centro"
                  [("transporte", ["uber"; "taxi"])]%string eq_refl)).
Defined.

(** X12. Giving the same feedback twice changes the keyword map no more
    than giving it once. *)
Theorem feedback_keywords_idempotent (categoryName d : string)
        (keywordMap : list (string * list string)) :
  updateKeywords categoryName d (updateKeywords categoryName d keywordMap)
  = updateKeywords categoryName d keywordMap.
Proof.
  unfold updateKeywords.
  destruct (inherited (Js.toLowerCase categoryName)) eqn:E; [reflexivity|].
  rewrite keywords_setKeywords, setKeywords_again. f_equal.
  apply learnWords_known. intros w Hw. now apply learnWords_learns.
Qed.

(** X13. After feedback that put a transaction described [d] under a
    category, the keyword step of [suggestCategory] recognises the same
    description for every category of that name (up to case), as soon as
    the normalized description has a word longer than 3 characters. *)
Theorem feedback_then_keyword_hit (c c' : Category) (d : string)
        (keywordMap : list (string * list string)) :
  inherited (Js.toLowerCase (name c)) = false ->
  relevantWords d <> [] ->
  Js.toLowerCase (name c') = Js.toLowerCase (name c) ->
  keywordHit (updateKeywords (name c) d keywordMap) (normalizeText d) c'
  = true.
Proof.
  intros Hk Hw Hn. unfold keywordHit, updateKeywords. rewrite Hn, Hk.
  rewrite keywords_setKeywords.
  destruct (relevantWords d) as [|w ws] eqn:E; [congruence|].
  apply existsb_exists. exists w. split.
  - apply learnWords_learns. now left.
  - apply relevantWords_includes. rewrite E. now left.
Qed.

Lemma feedback_then_keyword_hit_witness :
  inherited (Js.toLowerCase (name Scenario.transport)) = false
  /\ relevantWords "Pedagio BR-116" <> []
  /\ keywordHit (updateKeywords (name Scenario.transport) "Pedagio BR-116" [])
                (normalizeText "Pedagio BR-116") Scenario.transport = true.
Proof.
  split; [reflexivity|]. split; [discriminate|].
  apply (feedback_then_keyword_hit Scenario.transport Scenario.transport
           "Pedagio BR-116" []); [reflexivity|discriminate|reflexivity].
Defined.

Section Service.

Variable tokenize : string -> list string.

Lemma findTransaction_None tid uid rows :
  (forall t, In t rows -> id t = tid -> userId t <> uid) ->
  findTransaction tid uid rows = None.
Proof.
  intros H. unfold findTransaction.
  destruct (find _ rows) as [t|] eqn:E; [|reflexivity].
  apply find_some in E as [Hin Ht]. apply andb_true_iff in Ht as [H1 H2].
  exfalso. apply (H t Hin); lia.
Qed.

Lemma findCategory_None cid uid cats :
  (forall c, In c cats -> category_id c = cid -> category_userId c <> uid) ->
  findCategory cid uid cats = None.
Proof.
  intros H. unfold findCategory.
  destruct (find _ cats) as [c|] eqn:E; [|reflexivity].
  apply find_some in E as [Hin Hc]. apply andb_true_iff in Hc as [H1 H2].
  exfalso. apply (H c Hin); lia.
Qed.

(** X14. Feedback about a transaction that is not the caller's changes
    nothing.  Feedback that names a category the caller does not own still
    hands the classifier a document labelled with that category id; only
    the keyword map is left alone. *)
Theorem feedback_ownership (rows : list Transaction) (cats : list Category)
        (tid cid uid : Z) (m : Learner) :
  let m' := learnFromFeedback tokenize rows cats tid cid uid m in
  ((forall t, In t rows -> id t = tid -> userId t <> uid) -> m' = m)
  /\ ((forall c, In c cats -> category_id c = cid ->
                 category_userId c <> uid) ->
      forall t d,
        findTransaction tid uid rows = Some t -> description t = Some d ->
        m' = mkLearner (docs m ++ [(extractFeatures tokenize d (amount t),
                                    cid)])%list
                       (keywordMap m) (isModelTrained m)).
Proof.
  intros m'. subst m'. unfold learnFromFeedback. split.
  - intros H. now rewrite (findTransaction_None tid uid rows H).
  - intros H t d -> ->. now rewrite (findCategory_None cid uid cats H).
Qed.

Lemma learnFrom_isModelTrained m f :
  isModelTrained (learnFrom tokenize m f) = isModelTrained m.
Proof.
  unfold learnFrom, learnFromFeedback.
  destruct (findTransaction _ _ _) as [t|]; [|reflexivity].
  destruct (description t); [|reflexivity].
  now destruct (findCategory _ _ _).
Qed.

Lemma learnFromAll_isModelTrained calls m :
  isModelTrained (learnFromAll tokenize calls m) = isModelTrained m.
Proof.
  unfold learnFromAll. revert m.
  induction calls as [|f calls IH]; intros m; simpl; [reflexivity|].
  now rewrite IH, learnFrom_isModelTrained.
Qed.

(** X15. Feedback never marks the model as trained: a service whose model
    is untrained stays so through any run of [learnFromFeedback] calls, and
    what [suggestCategory] then answers does not depend on the classifier,
    whatever documents the feedback gave it. *)
Theorem feedback_never_enables_classifier
        (calls : list Feedback) (m : Learner)
        (getClassifications getClassifications' : string -> list (Z * number))
        (rows : list Transaction) (cats : list Category)
        (desc : option string) (amount uid : Z) :
  let m' := learnFromAll tokenize calls m in
  isModelTrained m = false ->
  isModelTrained m' = false
  /\ suggestCategory tokenize getClassifications (isModelTrained m')
                     (keywordMap m') rows cats desc amount uid
     = suggestCategory tokenize getClassifications' (isModelTrained m')
                       (keywordMap m') rows cats desc amount uid.
Proof.
  intros m' Hm.
  assert (Hm' : isModelTrained m' = false)
    by (subst m'; now rewrite learnFromAll_isModelTrained).
  split; [exact Hm'|]. rewrite Hm'. reflexivity.
Qed.

Lemma addDocuments_spec transactions documents :
  exists added,
    fst (addDocuments tokenize transactions documents)
    = (documents ++ added)%list
    /\ (length added <= length transactions)%nat
    /\ (forall doc, In doc added ->
                    exists t d, In t transactions /\ description t = Some d
                                /\ doc = (extractFeatures tokenize d (amount t),
                                          default 0 (categoryId t)))
    /\ (snd (addDocuments tokenize transactions documents) = true
        <-> Forall (fun t => description t <> None) transactions)
    /\ (snd (addDocuments tokenize transactions documents) = true ->
        length added = length transactions).
Proof.
  revert documents.
  induction transactions as [|t rest IH]; intros documents; simpl.
  - exists []. rewrite app_nil_r. repeat split; try easy; constructor.
  - destruct (description t) as [d|] eqn:Hd; simpl.
    + destruct (IH (documents ++ [(extractFeatures tokenize d (amount t),
                                   default 0 (categoryId t))])%list)
        as (added & Heq & Hlen & Hdocs & Hflag & Hall).
      exists ((extractFeatures tokenize d (amount t),
               default 0 (categoryId t)) :: added).
      rewrite Heq, <- app_assoc. split; [reflexivity|].
      split; [simpl; lia|]. split; [|split].
      * intros doc [<-|Hin].
        -- exists t, d. split; [now left|]. now split.
        -- destruct (Hdocs doc Hin) as (t' & d' & Hin' & H').
           exists t', d'. split; [now right|exact H'].
      * rewrite Hflag. split.
        -- intros H. constructor; [congruence|exact H].
        -- intros H. now inversion H.
      * intros H. simpl. now rewrite (Hall H).
    + exists []. rewrite app_nil_r. split; [reflexivity|].
      split; [simpl; lia|]. split; [easy|]. split; [|discriminate].
      split; [discriminate|]. intros H. inversion H; congruence.
Qed.

Lemma findCategorized_In limit rows t :
  In t (findCategorized limit rows) ->
  In t rows /\ exists cid, categoryId t = Some cid.
Proof.
  unfold findCategorized. intros H. apply JsFacts.firstn_In in H.
  rewrite JsFacts.sortBy_In, filter_In in H. destruct H as [Hin Hc].
  split; [exact Hin|]. destruct (categoryId t) as [cid|]; [|discriminate].
  now exists cid.
Qed.

(** X16. [trainModelWithHistoricalData] never touches the keyword map.
    It marks the model as trained exactly when it was so already, or the
    5000 most recent categorized transactions, taken over all users, are at
    least one and all have a description.  Every document it adds is
    labelled with the category id of a described, categorized row, whoever
    owns it. *)
Theorem training_outcome (rows : list Transaction) (m : Learner) :
  let categorized := findCategorized 5000 rows in
  let m' := trainModelWithHistoricalData tokenize rows m in
  keywordMap m' = keywordMap m
  /\ (isModelTrained m' = true
      <-> isModelTrained m = true
          \/ (categorized <> []
              /\ Forall (fun t => description t <> None) categorized))
  /\ exists added,
      docs m' = (docs m ++ added)%list
      /\ forall doc, In doc added ->
                     exists t d, In t rows /\ description t = Some d
                                 /\ categoryId t = Some (snd doc)
                                 /\ fst doc
                                    = extractFeatures tokenize d (amount t).
Proof.
  intros categorized m'. subst m'. unfold trainModelWithHistoricalData.
  fold categorized.
  destruct (addDocuments_spec categorized (docs m))
    as (added & Heq & Hlen & Hdocs & Hflag & Hall).
  assert (Hadded : forall doc, In doc added ->
            exists t d, In t rows /\ description t = Some d
                        /\ categoryId t = Some (snd doc)
                        /\ fst doc = extractFeatures tokenize d (amount t)).
  { intros doc Hin. destruct (Hdocs doc Hin) as (t & d & Ht & Hd & ->).
    apply findCategorized_In in Ht as (Ht & cid & Hc).
    exists t, d. rewrite Hc. now repeat split. }
  destruct categorized as [|t0 rest] eqn:Hcz.
  { simpl. split; [reflexivity|]. split.
    - split; [now left|]. intros [H|[H _]]; [exact H|congruence].
    - exists []. now rewrite app_nil_r. }
  change (0 <? length (t0 :: rest))%nat with true. cbv iota.
  destruct (addDocuments tokenize (t0 :: rest) (docs m)) as [docs' flag].
  simpl in Heq, Hflag, Hall. subst docs'. destruct flag.
  - assert ((0 <? length (docs m ++ added))%nat = true) as ->.
    { apply Nat.ltb_lt. rewrite length_app, (Hall eq_refl). simpl. lia. }
    simpl. split; [reflexivity|]. split.
    + split; [|reflexivity]. intros _. right. split; [discriminate|].
      now apply Hflag.
    + now exists added.
  - simpl. split; [reflexivity|]. split.
    + split; [now left|]. intros [H|[_ H]]; [exact H|].
      apply Hflag in H. discriminate.
    + now exists added.
Qed.

End Service.

Lemma feedback_ownership_witness :
  let rows := [Scenario.ride] in
  let m := mkLearner [] [] false in
  (forall t, In t rows -> id t = id Scenario.ride -> userId t <> 8)
  /\ learnFromFeedback Scenario.noTokens rows [Scenario.transport]
                       (id Scenario.ride) 9 8 m = m
  /\ (forall c, In c [Scenario.transport] -> category_id c = 4 ->
                category_userId c <> 7)
  /\ docs (learnFromFeedback Scenario.noTokens rows [Scenario.transport]
                             (id Scenario.ride) 4 7 m)
     = [(extractFeatures Scenario.noTokens "Uber" (amount Scenario.ride), 4)].
Proof.
  assert (H1 : forall t, In t [Scenario.ride] ->
                         id t = id Scenario.ride -> userId t <> 8).
  { intros t [<-|[]] _. discriminate. }
  assert (H2 : forall c, In c [Scenario.transport] -> category_id c = 4 ->
                         category_userId c <> 7).
  { intros c [<-|[]] H. discriminate H. }
  destruct (feedback_ownership Scenario.noTokens [Scenario.ride]
              [Scenario.transport] (id Scenario.ride) 9 8
              (mkLearner [] [] false)) as [Ha _].
  destruct (feedback_ownership Scenario.noTokens [Scenario.ride]
              [Scenario.transport] (id Scenario.ride) 4 7
              (mkLearner [] [] false)) as [_ Hb].
  split; [exact H1|]. split; [exact (Ha H1)|]. split; [exact H2|].
  now rewrite (Hb H2 Scenario.ride "Uber"%string eq_refl eq_refl).
Defined.

Lemma feedback_never_enables_classifier_witness :
  let m := mkLearner [] [] false in
  let call := mkFeedback [Scenario.ride] [Scenario.transport]
                         (id Scenario.ride) 3 7 in
  isModelTrained m = false
  /\ isModelTrained (learnFromAll Scenario.noTokens [call; call] m) = false.
Proof.
  split; [reflexivity|].
  exact (proj1 (feedback_never_enables_classifier Scenario.noTokens
                  [mkFeedback [Scenario.ride] [Scenario.transport]
                              (id Scenario.ride) 3 7;
                   mkFeedback [Scenario.ride] [Scenario.transport]
                              (id Scenario.ride) 3 7]
                  (mkLearner [] [] false)
                  Scenario.noClasses Scenario.noClasses [] [] None 0 0
                  eq_refl)).
Defined.

End LearningFacts.

(** ** The forecast per category *)

Module SpendingForecastFacts.

Import JsNumber JsDate Stats SpendingPrediction SpendingForecast.
Import JsNumberFacts.
Local Open Scope R_scope.

Lemma MonthKey_eqb_eq a b : MonthKey_eqb a b = true <-> a = b.
Proof.
  unfold MonthKey_eqb. destruct a as [y m], b as [y' m']; simpl.
  rewrite andb_true_iff, !Z.eqb_eq. split; [intros [-> ->]|intros [= -> ->]];
    easy.
Qed.

Lemma MonthKey_eqb_refl a : MonthKey_eqb a a = true.
Proof. now apply MonthKey_eqb_eq. Qed.

Lemma MonthKey_eqb_neq a b : MonthKey_eqb a b = false <-> a <> b.
Proof.
  rewrite <- MonthKey_eqb_eq. destruct (MonthKey_eqb a b); split; congruence.
Qed.

Lemma seen_In k months :
  existsb (MonthKey_eqb k) months = true <-> In k months.
Proof.
  rewrite existsb_exists. split.
  - intros (k' & Hin & Hk). apply MonthKey_eqb_eq in Hk. now subst.
  - intros Hin. exists k. split; [exact Hin|apply MonthKey_eqb_refl].
Qed.

Lemma Reqb_eq x y : Reqb x y = true -> x = y.
Proof. unfold Reqb. now destruct (Req_dec_T x y). Qed.

(** One round of the grouping loop on a map that holds, for distinct keys,
    the running totals [f]. *)
Lemma accumulate_total k (a : Z) (f : MonthKey -> Z) months :
  List.NoDup months -> (~ In k months -> f k = 0%Z) ->
  accumulate k (of_Z a) (map (fun k' => (k', of_Z (f k'))) months)
  = map (fun k' => (k', of_Z (f k' + if MonthKey_eqb k k' then a else 0)))
        (if existsb (MonthKey_eqb k) months then months
         else months ++ [k])%list.
Proof.
  intros Hnd Hf. induction Hnd as [|k' months Hk' Hnd IH]; simpl.
  - rewrite MonthKey_eqb_refl, Hf by easy. unfold of_Z. simpl.
    do 2 f_equal. rewrite plus_IZR. reflexivity.
  - destruct (MonthKey_eqb k k') eqn:E; simpl.
    + apply MonthKey_eqb_eq in E. subst k'. f_equal.
      * rewrite MonthKey_eqb_refl. f_equal. unfold of_Z, falsy.
        destruct (Reqb (IZR (f k)) 0) eqn:Hz; simpl; rewrite plus_IZR;
          [apply Reqb_eq in Hz; now rewrite Hz|reflexivity].
      * apply map_ext_in. intros k' Hin.
        assert (MonthKey_eqb k k' = false) as ->
            by (apply MonthKey_eqb_neq; congruence).
        now rewrite Z.add_0_r.
    + rewrite IH.
      * destruct (existsb (MonthKey_eqb k) months); simpl;
          now rewrite E, Z.add_0_r.
      * intros Hn. apply Hf. intros [->|Hin]; [|easy].
        now rewrite MonthKey_eqb_refl in E.
Qed.

Lemma monthsOf_snoc pre t :
  monthsOf (pre ++ [t])
  = (if existsb (MonthKey_eqb (monthKey (date t))) (monthsOf pre)
     then monthsOf pre
     else monthsOf pre ++ [monthKey (date t)])%list.
Proof. unfold monthsOf. now rewrite fold_left_app. Qed.

Lemma monthTotal_snoc k pre t :
  monthTotal k (pre ++ [t])
  = (monthTotal k pre
     + if MonthKey_eqb (monthKey (date t)) k then amount t else 0)%Z.
Proof.
  unfold monthTotal. rewrite List.filter_app, List.map_app. simpl.
  induction (map amount _) as [|x xs IH]; simpl.
  - destruct (MonthKey_eqb (monthKey (date t)) k); simpl; lia.
  - rewrite IH. lia.
Qed.

Lemma monthsOf_spec transactions :
  List.NoDup (monthsOf transactions)
  /\ forall k, In k (monthsOf transactions)
               <-> exists t, In t transactions /\ monthKey (date t) = k.
Proof.
  induction transactions as [|t pre [Hnd Hin]] using rev_ind.
  - split; [constructor|]. intros k. split; [easy|]. now intros (t & [] & _).
  - rewrite monthsOf_snoc.
    destruct (existsb _ (monthsOf pre)) eqn:E.
    + split; [exact Hnd|]. intros k. rewrite Hin. split.
      * intros (u & Hu & Hk). exists u. split; [|exact Hk].
        apply in_or_app. now left.
      * intros (u & Hu & Hk). apply in_app_or in Hu as [Hu|[<-|[]]].
        -- now exists u.
        -- apply Hin. apply seen_In in E. now rewrite <- Hk.
    + assert (Hn : ~ In (monthKey (date t)) (monthsOf pre)).
      { intros H. apply seen_In in H. congruence. }
      split.
      * apply List.NoDup_app; [exact Hnd|repeat constructor; easy|].
        intros k Hk [<-|[]]. exact (Hn Hk).
      * intros k. rewrite in_app_iff, Hin. split.
        -- intros [(u & Hu & Hk)|[<-|[]]].
           ++ exists u. split; [|exact Hk]. apply in_or_app. now left.
           ++ exists t. split; [|reflexivity]. apply in_or_app.
              right. now left.
        -- intros (u & Hu & Hk). apply in_app_or in Hu as [Hu|[<-|[]]].
           ++ left. now exists u.
           ++ right. now left.
Qed.

Lemma monthTotal_unseen k transactions :
  ~ In k (monthsOf transactions) -> monthTotal k transactions = 0%Z.
Proof.
  intros Hn. unfold monthTotal.
  assert (List.filter (fun t => MonthKey_eqb (monthKey (date t)) k)
                      transactions = []) as ->; [|reflexivity].
  destruct (List.filter _ transactions) as [|t l] eqn:E; [reflexivity|].
  exfalso. apply Hn. apply monthsOf_spec.
  assert (Hin : In t (List.filter
                        (fun t => MonthKey_eqb (monthKey (date t)) k)
                        transactions)) by (rewrite E; now left).
  apply filter_In in Hin as [Hin Hk]. apply MonthKey_eqb_eq in Hk.
  now exists t.
Qed.

Lemma monthlyMap_spec transactions :
  fold_left (fun monthlyMap t =>
               accumulate (monthKey (date t)) (of_Z (amount t)) monthlyMap)
            transactions []
  = map (fun k => (k, of_Z (monthTotal k transactions)))
        (monthsOf transactions).
Proof.
  induction transactions as [|t pre IH] using rev_ind; [reflexivity|].
  rewrite fold_left_app. simpl. rewrite IH.
  rewrite accumulate_total.
  - rewrite <- monthsOf_snoc. apply map_ext. intros k.
    now rewrite monthTotal_snoc.
  - apply monthsOf_spec.
  - apply monthTotal_unseen.
Qed.

(** X17. [aggregateByMonth] lists each month in which one of the
    transactions falls once, in the order in which the months first occur,
    with the absolute value of the signed sum of that month's amounts:
    within a month, amounts of opposite sign cancel. *)
Theorem aggregateByMonth_totals (transactions : list Transaction) :
  aggregateByMonth transactions
  = map (fun k => mkMonthly k (Fin (Rabs (IZR (monthTotal k transactions)))))
        (monthsOf transactions)
  /\ List.NoDup (map month (aggregateByMonth transactions))
  /\ forall t, In t transactions ->
               In (monthKey (date t))
                  (map month (aggregateByMonth transactions)).
Proof.
  assert (H : aggregateByMonth transactions
              = map (fun k =>
                       mkMonthly
                         k (Fin (Rabs (IZR (monthTotal k transactions)))))
                    (monthsOf transactions)).
  { unfold aggregateByMonth. rewrite monthlyMap_spec, map_map.
    reflexivity. }
  split; [exact H|]. rewrite H, map_map. simpl. rewrite map_id.
  split; [apply monthsOf_spec|].
  intros t Ht. apply monthsOf_spec. now exists t.
Qed.

(** *** The trend *)



(** *** The range of the forecast *)

Lemma wma_of_data (data : list (MonthKey * R)) :
  calculateWeightedMovingAverage (map monthly data)
  = if (length data <? 3)%nat
    then mkPrediction (Fin (simpleAverage (map snd data))) (Fin 0.3)
    else mkPrediction (Fin (weightedAverage (map snd (byMonth data))))
                      (confidenceOf (map snd (byMonth data))).
Proof.
  unfold calculateWeightedMovingAverage. rewrite length_map.
  destruct (length data <? 3)%nat eqn:E.
  - rewrite SpendingPredictionFacts.amounts_from.
    destruct data as [|e data]; [reflexivity|].
    change (0 <? length (e :: data))%nat with true. cbv iota.
    unfold of_nat. rewrite div_fin by (apply INR_pos_ne; simpl; lia).
    unfold simpleAverage. simpl map. rewrite Rplus_0_l.
    simpl length. now rewrite length_map.
  - apply Nat.ltb_ge in E.
    rewrite (SpendingPredictionFacts.sortBy_map
               monthly (fun a b => MonthKey_leb (fst a) (fst b)))
      by reflexivity.
    fold (byMonth data).
    assert (Hlen : length (byMonth data) = length data)
      by apply SpendingPredictionFacts.sortBy_length.
    rewrite SpendingPredictionFacts.weigh_from, !Rplus_0_l.
    set (xs := map snd (byMonth data)).
    assert (Hxs : length xs = length data)
      by (unfold xs; now rewrite length_map).
    rewrite length_map, Hlen, <- Hxs.
    fold (weights (length xs)).
    rewrite div_fin
      by (apply Rgt_not_eq, SpendingPredictionFacts.weights_total_pos; lia).
    fold (weightedAverage xs).
    rewrite SpendingPredictionFacts.squares_from, Rplus_0_l. fold xs.
    unfold of_nat.
    rewrite div_fin by (apply INR_pos_ne; lia).
    fold (populationVariance xs (weightedAverage xs)).
    rewrite sqrt_fin.
    2:{ unfold populationVariance. apply Rmult_le_pos.
        - apply (total_squares_nonneg (fun x => x - weightedAverage xs)).
        - left. apply Rinv_0_lt_compat. apply lt_0_INR. lia. }
    fold (stdDevAround xs (weightedAverage xs)).
    rewrite (div_fin (INR (length xs)) 12) by lra.
    reflexivity.
Qed.

Lemma total_nonneg xs : Forall (fun x => 0 <= x) xs -> 0 <= total xs.
Proof. induction 1 as [|x xs Hx _ IH]; simpl; lra. Qed.

Lemma weights_pos i n : Forall (fun w => 0 < w) (map INR (seq (S i) n)).
Proof.
  apply List.Forall_forall. intros w Hw.
  apply in_map_iff in Hw as (k & <- & Hk).
  apply in_seq in Hk. apply lt_0_INR. lia.
Qed.

Lemma weighted_nonneg xs ws :
  Forall (fun x => 0 <= x) xs -> Forall (fun w => 0 < w) ws ->
  0 <= total (map (fun p => fst p * snd p) (combine xs ws)).
Proof.
  intros Hx. revert ws. induction Hx as [|x xs Hx _ IH]; intros ws Hw;
    simpl; [lra|].
  destruct Hw as [|w ws Hw Hws]; simpl; [lra|].
  specialize (IH ws Hws). nra.
Qed.

Lemma weighted_pos xs ws :
  Forall (fun x => 0 <= x) xs -> Forall (fun w => 0 < w) ws ->
  (length xs <= length ws)%nat -> Exists (fun x => 0 < x) xs ->
  0 < total (map (fun p => fst p * snd p) (combine xs ws)).
Proof.
  intros Hx. revert ws. induction Hx as [|x xs Hx Hxs IH]; intros ws Hw Hl He;
    [inversion He|].
  destruct Hw as [|w ws Hw Hws]; simpl in *; [lia|].
  pose proof (weighted_nonneg xs ws Hxs Hws) as Hn.
  inversion He as [? ? Hpos|? ? Hlater]; subst.
  - nra.
  - specialize (IH ws Hws ltac:(lia) Hlater). nra.
Qed.

Lemma weighted_zero xs ws :
  Forall (fun x => x = 0) xs ->
  total (map (fun p => fst p * snd p) (combine xs ws)) = 0.
Proof.
  intros Hx. revert ws. induction Hx as [|x xs Hx _ IH]; intros ws;
    simpl; [reflexivity|].
  destruct ws as [|w ws]; simpl; [reflexivity|]. rewrite IH, Hx. lra.
Qed.

Lemma squares_zero xs :
  Forall (fun x => x = 0) xs ->
  total (map (fun x => (x - 0) * (x - 0)) xs) = 0.
Proof. induction 1 as [|x xs Hx _ IH]; simpl; [|rewrite IH, Hx]; lra. Qed.

Lemma byMonth_amounts (Q : R -> Prop) data :
  Forall (fun e => Q (snd e)) data -> Forall Q (map snd (byMonth data)).
Proof.
  intros H. apply List.Forall_forall. intros x Hx.
  apply in_map_iff in Hx as (e & <- & He).
  apply JsFacts.sortBy_In in He.
  rewrite List.Forall_forall in H. now apply H.
Qed.

Lemma byMonth_some_amount (Q : R -> Prop) data :
  Exists (fun e => Q (snd e)) data -> Exists Q (map snd (byMonth data)).
Proof.
  intros H. apply List.Exists_exists in H as (e & He & HQ).
  apply List.Exists_exists. exists (snd e). split; [|exact HQ].
  apply in_map. now apply JsFacts.sortBy_In.
Qed.

Lemma simpleAverage_nonneg xs :
  Forall (fun x => 0 <= x) xs -> 0 <= simpleAverage xs.
Proof.
  intros H. unfold simpleAverage. destruct xs as [|x xs]; [lra|].
  apply Rmult_le_pos; [now apply total_nonneg|].
  left. apply Rinv_0_lt_compat, lt_0_INR. simpl. lia.
Qed.

Lemma weightedAverage_nonneg xs :
  Forall (fun x => 0 <= x) xs -> 0 <= weightedAverage xs.
Proof.
  intros H. unfold weightedAverage, weights.
  destruct xs as [|x xs].
  - simpl. unfold Rdiv. rewrite Rmult_0_l. lra.
  - apply Rmult_le_pos; [apply weighted_nonneg; [exact H|apply weights_pos]|].
    left. apply Rinv_0_lt_compat.
    apply SpendingPredictionFacts.weights_total_pos. simpl. lia.
Qed.

Lemma wma_amount_nonneg (data : list (MonthKey * R)) :
  Forall (fun e => 0 <= snd e) data ->
  exists a, p_amount (calculateWeightedMovingAverage (map monthly data))
            = Fin a /\ 0 <= a.
Proof.
  intros H. rewrite wma_of_data. destruct (length data <? 3)%nat.
  - eexists. split; [reflexivity|]. apply simpleAverage_nonneg.
    apply List.Forall_forall. intros x Hx.
    apply in_map_iff in Hx as (e & <- & He).
    rewrite List.Forall_forall in H. now apply H.
  - eexists. split; [reflexivity|]. apply weightedAverage_nonneg.
    now apply (byMonth_amounts (fun x => 0 <= x)).
Qed.

(** X19. The confidence of a forecast from at least three months of
    amounts that are finite and not negative.  When every month's amount
    is 0 the forecast is 0 and its confidence is NaN (0 / 0).  Otherwise
    the forecast is positive and the confidence is a finite value between
    0 and 1, and no more than a twelfth of the number of months. *)
Theorem forecast_confidence_range (data : list (MonthKey * R)) :
  let p := calculateWeightedMovingAverage (map monthly data) in
  (3 <= length data)%nat ->
  Forall (fun e => 0 <= snd e) data ->
  (Forall (fun e => snd e = 0) data ->
   p_amount p = Fin 0 /\ p_confidence p = NaN)
  /\ (Exists (fun e => 0 < snd e) data ->
      exists a c, p_amount p = Fin a /\ 0 < a
                  /\ p_confidence p = Fin c /\ 0 <= c <= 1
                  /\ c <= INR (length data) / 12).
Proof.
  intros p Hlen Hpos. subst p. rewrite wma_of_data.
  assert ((length data <? 3)%nat = false) as -> by (apply Nat.ltb_ge; lia).
  cbn [p_amount p_confidence].
  set (xs := map snd (byMonth data)).
  assert (Hxs : length xs = length data).
  { unfold xs, byMonth.
    now rewrite length_map, SpendingPredictionFacts.sortBy_length. }
  assert (HW : 0 < total (weights (length xs))).
  { apply SpendingPredictionFacts.weights_total_pos. lia. }
  assert (Hn : 0 < INR (length xs)) by (apply lt_0_INR; lia).
  split.
  - intros Hz.
    assert (Hxz : Forall (fun x => x = 0) xs)
      by now apply (byMonth_amounts (fun x => x = 0)).
    assert (Havg : weightedAverage xs = 0).
    { unfold weightedAverage. rewrite weighted_zero by exact Hxz.
      unfold Rdiv. apply Rmult_0_l. }
    rewrite Havg. split; [reflexivity|].
    unfold confidenceOf, stdDevAround, populationVariance.
    rewrite Havg, squares_zero by exact Hxz.
    unfold Rdiv at 1. rewrite Rmult_0_l, sqrt_0, div_zero_zero.
    reflexivity.
  - intros He.
    assert (Hx0 : Forall (fun x => 0 <= x) xs)
      by now apply (byMonth_amounts (fun x => 0 <= x)).
    assert (Hx1 : Exists (fun x => 0 < x) xs)
      by now apply (byMonth_some_amount (fun x => 0 < x)).
    assert (Havg : 0 < weightedAverage xs).
    { unfold weightedAverage. apply Rmult_lt_0_compat.
      - apply weighted_pos; [exact Hx0|apply weights_pos| |exact Hx1].
        unfold weights. now rewrite length_map, length_seq.
      - now apply Rinv_0_lt_compat. }
    exists (weightedAverage xs). unfold confidenceOf.
    set (sd := stdDevAround xs (weightedAverage xs)).
    assert (Hsd : 0 <= sd) by apply sqrt_pos.
    rewrite div_fin by lra.
    set (cv := sd / weightedAverage xs).
    assert (Hcv : 0 <= cv).
    { unfold cv. apply Rmult_le_pos; [exact Hsd|].
      left. now apply Rinv_0_lt_compat. }
    rewrite Hxs.
    set (share := INR (length data) / 12).
    assert (Hshare : 0 < share).
    { unfold share. rewrite <- Hxs. apply Rmult_lt_0_compat; lra. }
    unfold min, lt, sub, neg.
    destruct (Rlt_dec 1 cv) as [H1|H1];
      [rewrite (Rltb_true _ _ H1)|rewrite (Rltb_false _ _ H1)];
      (destruct (Rlt_dec 1 share) as [H2|H2];
       [rewrite (Rltb_true _ _ H2)|rewrite (Rltb_false _ _ H2)]);
      cbn [add mul]; eexists; (split; [reflexivity|]);
      (split; [exact Havg|]); (split; [reflexivity|]); split; nra.
Qed.

Lemma forecast_confidence_range_witness :
  let data := [((2024, 1)%Z, 0); ((2024, 2)%Z, 0); ((2024, 3)%Z, 0)] in
  (3 <= length data)%nat
  /\ Forall (fun e => 0 <= snd e) data
  /\ Forall (fun e => snd e = 0) data
  /\ p_confidence (calculateWeightedMovingAverage (map monthly data)) = NaN.
Proof.
  assert (H0 : Forall (fun e : MonthKey * R => 0 <= snd e)
                      [((2024, 1)%Z, 0); ((2024, 2)%Z, 0); ((2024, 3)%Z, 0)])
    by (repeat constructor; simpl; lra).
  assert (H1 : Forall (fun e : MonthKey * R => snd e = 0)
                      [((2024, 1)%Z, 0); ((2024, 2)%Z, 0); ((2024, 3)%Z, 0)])
    by (repeat constructor).
  split; [simpl; lia|]. split; [exact H0|]. split; [exact H1|].
  exact (proj2 (proj1 (forecast_confidence_range
                         [((2024, 1)%Z, 0); ((2024, 2)%Z, 0);
                          ((2024, 3)%Z, 0)]
                         ltac:(simpl; lia) H0) H1)).
Defined.

(** *** The list of forecasts *)

Lemma aggregate_as_data transactions :
  aggregateByMonth transactions
  = map monthly
        (map (fun k => (k, Rabs (IZR (monthTotal k transactions))))
             (monthsOf transactions)).
Proof.
  unfold aggregateByMonth. rewrite monthlyMap_spec, !map_map. reflexivity.
Qed.

Lemma aggregate_data_nonneg transactions :
  Forall (fun e : MonthKey * R => 0 <= snd e)
         (map (fun k => (k, Rabs (IZR (monthTotal k transactions))))
              (monthsOf transactions)).
Proof.
  apply List.Forall_forall. intros e He.
  apply in_map_iff in He as (k & <- & _). apply Rabs_pos.
Qed.

Lemma findByPeriod_In uid startDate endDate rows t :
  In t (Queries.findByPeriod uid startDate endDate rows) <->
  In t rows /\ userId t = uid /\ isPaid t = true
  /\ (startDate <= date t <= endDate)%Z.
Proof.
  unfold Queries.findByPeriod. rewrite JsFacts.sortBy_In, filter_In.
  rewrite !andb_true_iff, Z.eqb_eq, !Z.leb_le. tauto.
Qed.

Lemma strict_eq_Some x cid : strict_eq x (Some cid) = true <-> x = Some cid.
Proof.
  destruct x as [v|]; simpl; [|split; discriminate].
  rewrite Z.eqb_eq. split; congruence.
Qed.

Lemma trend_without_spending p cur :
  gt cur (Fin 0) = false -> determineTrend p cur = stable.
Proof.
  unfold determineTrend. intros ->. unfold gt, lt, neg.
  now rewrite !Rltb_false by lra.
Qed.

Lemma predictCategory_inv now transactions c p :
  predictCategory now transactions c = Some p ->
  cp_categoryId p = category_id c /\ cp_categoryName p = name c
  /\ (exists t, In t transactions /\ categoryId t = Some (category_id c))
  /\ (exists a, nextMonthPrediction p = Fin a /\ 0 <= a)
  /\ (exists y, currentMonthActual p = Fin y /\ 0 <= y)
  /\ ((forall t, In t transactions ->
                 categoryId t = Some (category_id c) ->
                 monthKey (date t) <> monthKey now) ->
      currentMonthActual p = Fin 0 /\ trend p = stable).
Proof.
  unfold predictCategory.
  set (own := List.filter _ transactions).
  destruct own as [|t0 own'] eqn:Hown; [discriminate|].
  change (0 <? length (t0 :: own'))%nat with true. cbv iota.
  rewrite <- Hown. intros [= <-].
  cbn [cp_categoryId cp_categoryName nextMonthPrediction currentMonthActual
       trend].
  assert (Hmem : forall t, In t own <->
                           In t transactions
                           /\ categoryId t = Some (category_id c)).
  { intros t. unfold own. now rewrite filter_In, strict_eq_Some. }
  split; [reflexivity|]. split; [reflexivity|]. split.
  { assert (Hin : In t0 own) by (rewrite Hown; now left).
    exists t0. now apply Hmem. }
  rewrite aggregate_as_data. split.
  { apply wma_amount_nonneg, aggregate_data_nonneg. }
  set (data := map (fun k => (k, Rabs (IZR (monthTotal k own))))
                   (monthsOf own)).
  destruct (find _ (map monthly data)) as [d|] eqn:Hf.
  - apply find_some in Hf as [Hd Hk].
    apply in_map_iff in Hd as (e & <- & He).
    apply in_map_iff in He as (k & <- & Hin). simpl in *.
    split; [eexists; split; [reflexivity|apply Rabs_pos]|].
    intros Hno. exfalso. apply MonthKey_eqb_eq in Hk. subst k.
    apply monthsOf_spec in Hin as (t & Ht & Hkey).
    apply Hmem in Ht as [Ht Hc]. exact (Hno t Ht Hc Hkey).
  - split; [exists 0; split; [reflexivity|lra]|].
    intros _. split; [reflexivity|].
    apply trend_without_spending. apply Rltb_false. lra.
Qed.

Lemma flat_map_option_In {A B} (f : A -> option B) l y :
  In y (flat_map (fun x => match f x with
                           | Some v => [v]
                           | None => []
                           end) l)
  <-> exists x, In x l /\ f x = Some y.
Proof.
  rewrite in_flat_map. split.
  - intros (x & Hx & Hy). exists x. split; [exact Hx|].
    destruct (f x) as [v|]; [|easy]. destruct Hy as [->|[]]. reflexivity.
  - intros (x & Hx & Hy). exists x. split; [exact Hx|].
    rewrite Hy. now left.
Qed.

(** X20. Every forecast returned by [predictNextMonthSpending] is for a
    category that the user owns and whose type is EXPENSE or BOTH, and
    rests on at least one paid transaction of that user in that category
    from the twelve months before the call.  The forecast and the current
    month's amount are finite and not negative; when the category has no
    such transaction in the current month, the current amount is 0 and
    the trend is [stable]. *)
Theorem forecast_entries (now : Z) (rows : list Transaction)
        (cats : list Category) (uid : Z) (p : CategoryPrediction) :
  let startDate := setMonth now (getMonth now - 12) in
  let counted t c :=
      In t rows /\ userId t = uid /\ isPaid t = true
      /\ (startDate <= date t <= now)%Z
      /\ categoryId t = Some (category_id c) in
  In p (predictNextMonthSpending now rows cats uid) ->
  exists c,
    In c cats /\ category_userId c = uid
    /\ (category_type c = CategoryType_EXPENSE
        \/ category_type c = CategoryType_BOTH)
    /\ cp_categoryId p = category_id c /\ cp_categoryName p = name c
    /\ (exists t, counted t c)
    /\ (exists a, nextMonthPrediction p = Fin a /\ 0 <= a)
    /\ (exists y, currentMonthActual p = Fin y /\ 0 <= y)
    /\ ((forall t, counted t c -> monthKey (date t) <> monthKey now) ->
        currentMonthActual p = Fin 0 /\ trend p = stable).
Proof.
  intros startDate counted. unfold predictNextMonthSpending.
  fold startDate.
  set (transactions := Queries.findByPeriod uid startDate now rows).
  destruct (length transactions =? 0)%nat; [easy|].
  rewrite JsFacts.sortBy_In, flat_map_option_In.
  intros (c & Hc & Hp).
  apply SuggestionFacts.findAll_In in Hc as (Hc & Hu & Hty).
  apply predictCategory_inv in Hp
    as (Hid & Hname & (t & Ht & Hcat) & Ha & Hy & Hnone).
  exists c. split; [exact Hc|]. split; [exact Hu|]. split; [exact Hty|].
  split; [exact Hid|]. split; [exact Hname|]. split.
  { exists t. apply findByPeriod_In in Ht. unfold counted. tauto. }
  split; [exact Ha|]. split; [exact Hy|].
  intros Hno. apply Hnone. intros u Hu' Hcu. apply Hno.
  apply findByPeriod_In in Hu'. unfold counted. tauto.
Qed.

Lemma forecast_entries_witness :
  let p := mkCategoryPrediction 3 "Transporte" (Fin 0) (Fin 40) stable
                                (Fin 0.3) in
  In p (predictNextMonthSpending Cases.midApril [Cases.marchRide]
                                 [Scenario.transport] 7)
  /\ exists c, In c [Scenario.transport] /\ cp_categoryId p = category_id c.
Proof.
  assert (H : In (mkCategoryPrediction 3 "Transporte" (Fin 0) (Fin 40)
                                       stable (Fin 0.3))
                 (predictNextMonthSpending Cases.midApril [Cases.marchRide]
                                           [Scenario.transport] 7)).
  { unfold predictNextMonthSpending.
    set (ts := Queries.findByPeriod _ _ _ _).
    vm_compute in ts. subst ts.
    set (cs := Queries.findAll _ _ _). vm_compute in cs. subst cs.
    cbn [length Nat.eqb flat_map app].
    unfold predictCategory.
    set (own := List.filter _ _). vm_compute in own. subst own.
    cbn [length Nat.ltb Nat.leb].
    rewrite aggregate_as_data.
    set (data := map _ (monthsOf _)).
    assert (data = [((2024, 3)%Z, Rabs (-40))]) as ->.
    { unfold data. set (ms := monthsOf _). vm_compute in ms. subst ms.
      cbn [map]. set (mt := monthTotal _ _). vm_compute in mt.
      now subst mt. }
    rewrite wma_of_data.
    cbn [length Nat.ltb Nat.leb p_amount p_confidence simpleAverage map snd
         total fold_right].
    set (k := monthKey _). vm_compute in k. subst k.
    cbn [find monthly fst snd month MonthKey_eqb Z.eqb Pos.eqb andb].
    rewrite trend_without_spending by (apply Rltb_false; lra).
    unfold Js.sortBy. cbn [fold_right Js.insert_sorted app].
    left. cbn [category_id name].
    replace ((Rabs (-40) + 0) / INR 1) with 40; [reflexivity|].
    rewrite Rabs_left by lra. simpl. lra. }
  split; [exact H|].
  destruct (forecast_entries _ _ _ _ _ H) as (c & Hc & _ & _ & Hid & _).
  exists c. split; [exact Hc|exact Hid].
Defined.

Lemma StronglySorted_refine {A} (R R' : A -> A -> Prop) (P : A -> Prop) l :
  (forall a b, P a -> P b -> R a b -> R' a b) ->
  Forall P l -> StronglySorted R l -> StronglySorted R' l.
Proof.
  intros HR HP Hs. induction Hs as [|a l Hs IH Ha]; [constructor|].
  apply Forall_cons_1 in HP as [Pa Pl]. constructor; [now apply IH|].
  rewrite List.Forall_forall in *. intros b Hb. apply HR; auto.
Qed.

(** X21. The forecasts come back ordered by forecast amount, largest
    first. *)
Theorem forecasts_descending (now : Z) (rows : list Transaction)
        (cats : list Category) (uid : Z) :
  StronglySorted
    (fun a b => exists x y, nextMonthPrediction a = Fin x
                            /\ nextMonthPrediction b = Fin y /\ y <= x)
    (predictNextMonthSpending now rows cats uid).
Proof.
  unfold predictNextMonthSpending.
  set (transactions := Queries.findByPeriod _ _ _ _).
  destruct (length transactions =? 0)%nat; [constructor|].
  set (predictions := flat_map _ _).
  set (finite := fun p => exists a, nextMonthPrediction p = Fin a).
  assert (Hfin : Forall finite predictions).
  { apply List.Forall_forall. intros p Hp.
    apply flat_map_option_In in Hp as (c & _ & Hp).
    apply predictCategory_inv in Hp as (_ & _ & _ & (a & Ha & _) & _).
    now exists a. }
  set (le := fun a b : CategoryPrediction =>
               negb (gt (sub (nextMonthPrediction b)
                             (nextMonthPrediction a)) (Fin 0))).
  assert (Hle : forall a b x y,
             nextMonthPrediction a = Fin x -> nextMonthPrediction b = Fin y ->
             (le a b = true <-> y <= x)).
  { intros a b x y Ha Hb. unfold le. rewrite Ha, Hb.
    unfold sub, neg, gt, lt. cbn [add]. rewrite negb_true_iff.
    destruct (Rlt_dec 0 (y + - x)) as [H|H].
    - rewrite (Rltb_true _ _ H). split; [discriminate|lra].
    - rewrite (Rltb_false _ _ H). split; [lra|reflexivity]. }
  apply (StronglySorted_refine (fun a b => le a b = true) _ finite).
  - intros a b [x Ha] [y Hb] H. exists x, y.
    split; [exact Ha|]. split; [exact Hb|]. now apply (Hle a b x y Ha Hb).
  - apply List.Forall_forall. intros p Hp. apply JsFacts.sortBy_In in Hp.
    rewrite List.Forall_forall in Hfin. now apply Hfin.
  - apply (JsFacts.sortBy_sorted le finite); [| |exact Hfin].
    + intros a b [x Ha] [y Hb].
      rewrite (Hle a b x y Ha Hb), (Hle b a y x Hb Ha). lra.
    + intros a b c [x Ha] [y Hb] [z Hc].
      rewrite (Hle a b x y Ha Hb), (Hle b c y z Hb Hc), (Hle a c x z Ha Hc).
      lra.
Qed.

End SpendingForecastFacts.

(** ** Calendar arithmetic *)

Module CalendarFacts.

Import JsDate Calendar.

Ltac dlia := Z.to_euclidean_division_equations; lia.

(** Decides the comparisons on the month in [days_from_civil] before the
    arithmetic. *)
Ltac civil :=
  unfold days_from_civil;
  repeat match goal with
         | |- context [?a <=? ?b] => destruct (Z.leb_spec a b); try lia
         | |- context [?a <? ?b] => destruct (Z.ltb_spec a b); try lia
         end;
  dlia.

(** The civil date of a day number is a date of the calendar, and it is
    the date of that day. *)
Lemma civil_roundtrip z :
  let '(y, m, d) := civil_from_days z in
  days_from_civil y m d = z /\ 1 <= m <= 12 /\ 1 <= d <= 31.
Proof.
  unfold civil_from_days.
  set (z' := z + 719468). set (era := z' / 146097).
  set (doe := z' - era * 146097).
  assert (Hdoe : 0 <= doe <= 146096) by (unfold doe, era; dlia).
  set (yoe := (doe - doe / 1460 + doe / 36524 - doe / 146096) / 365).
  assert (Hyoe : 0 <= yoe <= 399) by (unfold yoe; dlia).
  set (doy := doe - (365 * yoe + yoe / 4 - yoe / 100)).
  assert (Hdoy : 0 <= doy <= 365) by (unfold doy, yoe; dlia).
  set (mp := (5 * doy + 2) / 153).
  assert (Hmp : 0 <= mp <= 11) by (unfold mp; dlia).
  set (d := doy - (153 * mp + 2) / 5 + 1).
  assert (Hd : 1 <= d <= 31) by (unfold d, mp; dlia).
  unfold days_from_civil.
  destruct (mp <? 10) eqn:E.
  - apply Z.ltb_lt in E.
    assert ((mp + 3 <=? 2) = false) as -> by lia.
    assert ((2 <? mp + 3) = true) as -> by lia.
    replace (mp + 3 - 3) with mp by lia.
    replace ((yoe + era * 400) / 400) with era by dlia.
    replace (yoe + era * 400 - era * 400) with yoe by lia.
    split; [|lia]. unfold d, doy, doe, z'. lia.
  - apply Z.ltb_ge in E.
    assert ((mp - 9 <=? 2) = true) as -> by lia.
    assert ((2 <? mp - 9) = false) as -> by lia.
    replace (mp - 9 + 9) with mp by lia.
    replace (yoe + era * 400 + 1 - 1) with (yoe + era * 400) by lia.
    replace ((yoe + era * 400) / 400) with era by dlia.
    replace (yoe + era * 400 - era * 400) with yoe by lia.
    split; [|lia]. unfold d, doy, doe, z'. lia.
Qed.

Lemma getMonth_range t : 0 <= getMonth t <= 11.
Proof.
  unfold getMonth. pose proof (civil_roundtrip (Day t)) as H.
  destruct (civil_from_days (Day t)) as [[y m] d]. simpl. lia.
Qed.

Lemma getDate_range t : 1 <= getDate t <= 31.
Proof.
  unfold getDate. pose proof (civil_roundtrip (Day t)) as H.
  destruct (civil_from_days (Day t)) as [[y m] d]. simpl. lia.
Qed.

(** A month has 28 to 31 days. *)
Lemma monthStart_step n : 28 <= monthStart (n + 1) - monthStart n <= 31.
Proof.
  unfold monthStart.
  assert (Hq : n = 12 * (n / 12) + n mod 12) by (apply Z.div_mod; lia).
  assert (Hr : 0 <= n mod 12 < 12) by (apply Z.mod_pos_bound; lia).
  set (y := n / 12) in *. set (r := n mod 12) in *.
  assert (Hc : r = 0 \/ r = 1 \/ r = 2 \/ r = 3 \/ r = 4 \/ r = 5 \/ r = 6
               \/ r = 7 \/ r = 8 \/ r = 9 \/ r = 10 \/ r = 11) by lia.
  assert (Hn : (r < 11 /\ (n + 1) / 12 = y /\ (n + 1) mod 12 = r + 1)
               \/ (r = 11 /\ (n + 1) / 12 = y + 1 /\ (n + 1) mod 12 = 0)).
  { clearbody y r. subst n. dlia. }
  clearbody y r. clear Hq.
  destruct Hn as [(Hlt & -> & ->)|(-> & -> & ->)].
  - repeat (destruct Hc as [->|Hc]; [civil|]). lia.
  - civil.
Qed.

Lemma monthStart_later n k :
  0 <= k -> 28 * k <= monthStart (n + k) - monthStart n <= 31 * k.
Proof.
  intros Hk. revert k Hk. apply natlike_ind.
  - rewrite Z.add_0_r. lia.
  - intros k Hk IH. pose proof (monthStart_step (n + k)) as Hs.
    replace (n + Z.succ k) with (n + k + 1) by lia. lia.
Qed.

Lemma MakeDay_monthStart y m d :
  MakeDay y m d = monthStart (12 * y + m) + d - 1.
Proof.
  unfold MakeDay, monthStart.
  replace ((12 * y + m) / 12) with (y + m / 12) by dlia.
  replace ((12 * y + m) mod 12) with (m mod 12) by dlia.
  reflexivity.
Qed.

(** The day of a time value, from its month and its day of the month. *)
Lemma Day_monthStart t : Day t = monthStart (monthIndex t) + getDate t - 1.
Proof.
  unfold monthIndex, getFullYear, getMonth, getDate, monthStart.
  pose proof (civil_roundtrip (Day t)) as H.
  destruct (civil_from_days (Day t)) as [[y m] d]. simpl.
  destruct H as (H & Hm & _).
  replace ((12 * y + (m - 1)) / 12) with y by dlia.
  replace ((12 * y + (m - 1)) mod 12 + 1) with m by dlia.
  unfold days_from_civil in *. lia.
Qed.

Lemma time_value t : t = Day t * msPerDay + TimeWithinDay t.
Proof.
  unfold Day, TimeWithinDay. change msPerDay with 86400000.
  pose proof (Z.div_mod t 86400000). lia.
Qed.

Lemma setMonth_shift t m :
  setMonth t m - t
  = (monthStart (12 * getFullYear t + m) - monthStart (monthIndex t))
    * msPerDay.
Proof.
  unfold setMonth, MakeDate. rewrite MakeDay_monthStart.
  pose proof (time_value t) as Ht. rewrite (Day_monthStart t) in Ht.
  change msPerDay with 86400000 in *.
  generalize dependent (TimeWithinDay t). intros w Ht.
  generalize dependent (monthStart (monthIndex t)). intros a Ht. lia.
Qed.

Lemma setDate_shift t d :
  setDate t d = t + (d - getDate t) * msPerDay.
Proof.
  unfold setDate, MakeDate. rewrite MakeDay_monthStart.
  fold (monthIndex t).
  pose proof (time_value t) as Ht. rewrite (Day_monthStart t) in Ht.
  change msPerDay with 86400000 in *.
  generalize dependent (TimeWithinDay t). intros w Ht.
  generalize dependent (monthStart (monthIndex t)). intros a Ht. lia.
Qed.

Lemma setMonth_next t :
  28 * msPerDay <= setMonth t (getMonth t + 1) - t <= 31 * msPerDay.
Proof.
  rewrite setMonth_shift. fold (monthIndex t).
  replace (12 * getFullYear t + (getMonth t + 1)) with (monthIndex t + 1)
    by (unfold monthIndex; lia).
  pose proof (monthStart_step (monthIndex t)) as H.
  change msPerDay with 86400000. lia.
Qed.

Lemma setMonth_back t k : 0 <= k -> setMonth t (getMonth t - k) <= t.
Proof.
  intros Hk. pose proof (setMonth_shift t (getMonth t - k)) as H.
  pose proof (monthStart_later (monthIndex t - k) k Hk) as Hm.
  replace (monthIndex t - k + k) with (monthIndex t) in Hm by lia.
  replace (12 * getFullYear t + (getMonth t - k)) with (monthIndex t - k)
    in H by (unfold monthIndex; lia).
  change msPerDay with 86400000 in H. lia.
Qed.

(** X22. The step [current.setMonth(current.getMonth() + 1)] of the loop
    in [fillMissingMonths] moves the date forward by 28 to 31 days and
    keeps the time of day: the loop always makes progress, by the length
    of the month it leaves and not by the distance to the same day of the
    next month. *)
Theorem next_month_step (t : Z) :
  let t' := setMonth t (getMonth t + 1) in
  28 * msPerDay <= t' - t <= 31 * msPerDay
  /\ TimeWithinDay t' = TimeWithinDay t.
Proof.
  intros t'. subst t'. split; [apply setMonth_next|].
  unfold setMonth, MakeDate, TimeWithinDay. change msPerDay with 86400000.
  dlia.
Qed.

End CalendarFacts.

(** ** The monthly trend, with the empty months filled in *)

Module TrendFacts.

Import JsNumber JsDate Calendar SpendingPrediction SpendingForecast.
Import CalendarFacts.

(** What [fillMissingMonths] appends: an amount of 0 under the key of a
    month that the data does not have and that one of the dates visited
    between [startDate] and [endDate] falls in. *)
Lemma fillLoop_spec fuel existingMonths current endDate result :
  (1 <= fuel)%nat ->
  endDate - current < (Z.of_nat fuel - 1) * (28 * msPerDay) ->
  exists zeros,
    fillLoop fuel existingMonths current endDate result
    = Some (result ++ zeros)%list
    /\ Forall (fun a => m_amount a = Fin 0
                        /\ ~ In (month a) existingMonths
                        /\ exists t, current <= t <= endDate
                                     /\ month a = monthKey t) zeros
    /\ (current <= endDate ->
        In (monthKey current) existingMonths
        \/ In (monthKey current) (map month zeros)).
Proof.
  revert current result.
  induction fuel as [|fuel IH]; intros current result Hf Hd; [lia|].
  simpl. destruct (current <=? endDate) eqn:E.
  - apply Z.leb_le in E.
    pose proof (setMonth_next current) as Hstep.
    set (next := setMonth current (getMonth current + 1)) in *.
    assert (Hf' : (1 <= fuel)%nat).
    { destruct fuel; [|lia]. change msPerDay with 86400000 in Hd. lia. }
    assert (Hd' : endDate - next < (Z.of_nat fuel - 1) * (28 * msPerDay)).
    { change msPerDay with 86400000 in *. lia. }
    assert (Hle : current <= next)
      by (change msPerDay with 86400000 in Hstep; lia).
    destruct (existsb (MonthKey_eqb (monthKey current)) existingMonths)
      eqn:Hseen.
    + destruct (IH next result Hf' Hd') as (zeros & -> & Hz & _).
      exists zeros. split; [reflexivity|]. split.
      * eapply List.Forall_impl; [|exact Hz]. intros a (H1 & H2 & t & Ht & H3).
        split; [exact H1|]. split; [exact H2|]. exists t. split; [lia|easy].
      * intros _. left. now apply SpendingForecastFacts.seen_In.
    + destruct (IH next (result ++ [mkMonthly (monthKey current) (Fin 0)])%list
                   Hf' Hd') as (zeros & -> & Hz & _).
      exists (mkMonthly (monthKey current) (Fin 0) :: zeros).
      rewrite <- app_assoc. split; [reflexivity|]. split.
      * constructor.
        -- split; [reflexivity|]. split.
           ++ intros Hin. apply SpendingForecastFacts.seen_In in Hin.
              simpl in Hin. congruence.
           ++ exists current. split; [lia|reflexivity].
        -- eapply List.Forall_impl; [|exact Hz].
           intros a (H1 & H2 & t & Ht & H3).
           split; [exact H1|]. split; [exact H2|]. exists t.
           split; [lia|easy].
      * intros _. right. now left.
  - apply Z.leb_gt in E. exists []. rewrite app_nil_r.
    split; [reflexivity|]. split; [constructor|lia].
Qed.

(** [fillMissingMonths] returns on every input; from a start date after
    the end date it returns the data as they are. *)
Lemma fillMissingMonths_returns (data : list MonthlyAggregate)
      (startDate endDate : Z) :
  (exists result, fillMissingMonths data startDate endDate = Some result)
  /\ (endDate < startDate ->
      fillMissingMonths data startDate endDate = Some data).
Proof.
  destruct (fillLoop_spec
              (Z.to_nat (Z.max 0 ((endDate - startDate) / (28 * msPerDay))
                         + 2))
              (map month data) startDate endDate data)
    as (zeros & Heq & _).
  - lia.
  - change msPerDay with 86400000. dlia.
  - split; [eexists; exact Heq|]. intros Hlt. unfold fillMissingMonths.
    destruct (Z.to_nat _) as [|fuel] eqn:E; [lia|]. simpl.
    now assert ((startDate <=? endDate) = false) as -> by lia.
Qed.

(** X23. Between a start date and a later end date [fillMissingMonths]
    always returns: it keeps the data as it is, in order, and appends only
    entries of amount 0 whose months the data does not have and which
    contain a date of the interval; the month of the start date is in the
    result. *)
Theorem fillMissingMonths_appends_zeros
        (data : list MonthlyAggregate) (startDate endDate : Z) :
  startDate <= endDate ->
  exists zeros,
    fillMissingMonths data startDate endDate = Some (data ++ zeros)%list
    /\ Forall (fun a => m_amount a = Fin 0
                        /\ ~ In (month a) (map month data)
                        /\ exists t, startDate <= t <= endDate
                                     /\ month a = monthKey t) zeros
    /\ In (monthKey startDate) (map month (data ++ zeros)).
Proof.
  intros Hle. unfold fillMissingMonths.
  destruct (fillLoop_spec
              (Z.to_nat (Z.max 0 ((endDate - startDate) / (28 * msPerDay))
                         + 2))
              (map month data) startDate endDate data)
    as (zeros & Heq & Hz & Hstart).
  - change msPerDay with 86400000. dlia.
  - change msPerDay with 86400000. dlia.
  - exists zeros. split; [exact Heq|]. split; [exact Hz|].
    rewrite List.map_app. apply in_or_app. exact (Hstart Hle).
Qed.

Lemma fillMissingMonths_appends_zeros_witness :
  let startDate := utc 2024 1 15 in
  let endDate := utc 2024 3 15 in
  startDate <= endDate
  /\ exists zeros,
      fillMissingMonths [mkMonthly (2024, 2) (Fin 50)] startDate endDate
      = Some ([mkMonthly (2024, 2) (Fin 50)] ++ zeros)%list.
Proof.
  assert (H : utc 2024 1 15 <= utc 2024 3 15) by (vm_compute; discriminate).
  split; [exact H|].
  destruct (fillMissingMonths_appends_zeros
              [mkMonthly (2024, 2) (Fin 50)] (utc 2024 1 15) (utc 2024 3 15)
              H) as (zeros & Heq & _).
  exists zeros. exact Heq.
Defined.

Lemma MonthKey_leb_total a b :
  MonthKey_leb a b = true \/ MonthKey_leb b a = true.
Proof.
  unfold MonthKey_leb. destruct a as [y m], b as [y' m']. simpl.
  rewrite !orb_true_iff, !andb_true_iff, !Z.ltb_lt, !Z.eqb_eq, !Z.leb_le.
  lia.
Qed.

Lemma MonthKey_leb_trans a b c :
  MonthKey_leb a b = true -> MonthKey_leb b c = true ->
  MonthKey_leb a c = true.
Proof.
  unfold MonthKey_leb. destruct a as [y m], b as [y' m'], c as [y'' m''].
  simpl.
  rewrite !orb_true_iff, !andb_true_iff, !Z.ltb_lt, !Z.eqb_eq, !Z.leb_le.
  lia.
Qed.

(** X24. For a number of months that is not negative [getCategoryTrend]
    always returns a series.  The series is in ascending order of month;
    it consists of the monthly aggregates of the user's paid transactions
    of the category in the window, and of entries of amount 0 for months
    without such a transaction. *)
Theorem getCategoryTrend_returns (now : Z) (rows : list Transaction)
        (uid cid months : Z) :
  let startDate := setMonth now (getMonth now - months) in
  let aggregates :=
      aggregateByMonth
        (List.filter (fun t => strict_eq (categoryId t) (Some cid))
                     (Queries.findByPeriod uid startDate now rows)) in
  0 <= months ->
  exists series zeros,
    getCategoryTrend now rows uid cid months = Some series
    /\ Permutation series (aggregates ++ zeros)
    /\ StronglySorted
         (fun a b => MonthKey_leb (month a) (month b) = true) series
    /\ Forall (fun a => m_amount a = Fin 0
                        /\ ~ In (month a) (map month aggregates)) zeros.
Proof.
  intros startDate aggregates Hm. unfold getCategoryTrend.
  fold startDate. fold aggregates.
  destruct (fillLoop_spec
              (Z.to_nat (Z.max 0 ((now - startDate) / (28 * msPerDay)) + 2))
              (map month aggregates) startDate now aggregates)
    as (zeros & Heq & Hz & _).
  - pose proof (setMonth_back now months Hm). fold startDate in H.
    change msPerDay with 86400000. dlia.
  - pose proof (setMonth_back now months Hm). fold startDate in H.
    change msPerDay with 86400000. dlia.
  - unfold fillMissingMonths. rewrite Heq.
    eexists. exists zeros. split; [reflexivity|]. split; [|split].
    + apply JsFacts.sortBy_Permutation.
    + apply (JsFacts.sortBy_sorted
               (fun a b => MonthKey_leb (month a) (month b))
               (fun _ => True)).
      * intros a b _ _. apply MonthKey_leb_total.
      * intros a b c _ _ _. apply MonthKey_leb_trans.
      * apply List.Forall_forall. easy.
    + eapply List.Forall_impl; [|exact Hz]. intros a (H1 & H2 & _). now split.
Qed.

Lemma getCategoryTrend_returns_witness :
  0 <= 12
  /\ exists series,
      getCategoryTrend Cases.midApril [Cases.marchRide] 7 3 12 = Some series.
Proof.
  split; [lia|].
  destruct (getCategoryTrend_returns Cases.midApril [Cases.marchRide] 7 3 12
              ltac:(lia)) as (series & _ & H & _).
  exists series. exact H.
Defined.

End TrendFacts.

(** ** How far an amount can lie from the mean of its group *)

Module ZScoreFacts.

Import JsNumber JsDate Stats AnomalyDetection JsNumberFacts.
Import AnomalyDetectionFacts.
Local Open Scope R_scope.

Lemma filter_none {A} (f : A -> bool) l :
  (forall x, In x l -> f x = false) -> List.filter f l = [].
Proof.
  induction l as [|x l IH]; intros H; simpl; [reflexivity|].
  rewrite (H x) by now left. apply IH. intros y Hy. apply H. now right.
Qed.

Lemma total_app xs ys : total (xs ++ ys) = total xs + total ys.
Proof. induction xs as [|x xs IH]; simpl; [|rewrite IH]; lra. Qed.

Lemma total_shifted c xs :
  total (map (fun y => y - c) xs) = total xs - INR (length xs) * c.
Proof.
  induction xs as [|x xs IH]; [simpl; lra|].
  change (length (x :: xs)) with (S (length xs)). rewrite S_INR.
  simpl map. simpl total. rewrite IH. lra.
Qed.

(** The square of a sum is at most the number of terms times the sum of
    the squares. *)
Lemma square_of_total xs :
  total xs * total xs <= INR (length xs) * total (map (fun x => x * x) xs).
Proof.
  induction xs as [|x xs IH]; [simpl; lra|].
  change (length (x :: xs)) with (S (length xs)). rewrite S_INR.
  simpl map. simpl total.
  set (s := total xs) in *. set (q := total (map (fun x => x * x) xs)) in *.
  set (k := INR (length xs)) in *.
  assert (Hk : 0 <= k) by apply pos_INR.
  assert (Hq : 0 <= q) by apply (total_squares_nonneg (fun x => x)).
  destruct (Req_dec_T k 0) as [Hz|Hnz].
  - assert (s * s <= 0) by nra. assert (s = 0) by nra. nra.
  - assert (0 <= k * x * x - 2 * x * s + q).
    { apply (Rmult_le_reg_l k); [lra|].
      pose proof (Rle_0_sqr (k * x - s)) as Hsq. unfold Rsqr in Hsq. nra. }
    nra.
Qed.

(** No amount is further from the mean than [sqrt (n - 1)] standard
    deviations. *)
Lemma deviation_bound xs x :
  In x xs ->
  let m := Stats.mean xs in
  INR (length xs) * ((x - m) * (x - m))
  <= (INR (length xs) - 1) * total (map (fun y => (y - m) * (y - m)) xs).
Proof.
  intros Hin m. apply in_split in Hin as (l1 & l2 & Hxs).
  set (others := (l1 ++ l2)%list).
  assert (Hlen : INR (length xs) = INR (length others) + 1).
  { rewrite Hxs. unfold others. rewrite !length_app. simpl.
    rewrite <- S_INR. f_equal. lia. }
  assert (Htot : total xs = x + total others).
  { rewrite Hxs. unfold others. rewrite !total_app. simpl. lra. }
  assert (Hsq : total (map (fun y => (y - m) * (y - m)) xs)
                = (x - m) * (x - m)
                  + total (map (fun y => (y - m) * (y - m)) others)).
  { rewrite Hxs. unfold others. rewrite !List.map_app, !total_app. simpl.
    lra. }
  assert (Hm : INR (length xs) * m = total xs).
  { unfold m, Stats.mean. field. rewrite Hlen.
    pose proof (pos_INR (length others)). lra. }
  pose proof (square_of_total (map (fun y => y - m) others)) as Hcs.
  rewrite length_map, total_shifted, map_map in Hcs.
  rewrite Hlen, Hsq. rewrite Hlen in Hm.
  set (k := INR (length others)) in *.
  set (q := total (map (fun y => (y - m) * (y - m)) others)) in *.
  assert (Hd : total others - k * m = - (x - m)) by lra.
  rewrite Hd in Hcs. nra.
Qed.

Lemma zOf_bound group t :
  In t group ->
  let stats := calculateCategoryStats group in
  zOf stats t = NaN
  \/ exists z, zOf stats t = Fin z /\ 0 <= z
               /\ z * z <= INR (length group) - 1.
Proof.
  intros Hin stats.
  assert (Hne : group <> []) by (intros ->; destruct Hin).
  destruct (stats_of_sample group Hne) as [Hmean Hsd]. fold stats in Hmean, Hsd.
  set (xs := sample group) in *. set (m := Stats.mean xs) in *.
  set (x := IZR (amount t)).
  assert (Hx : In x xs)
    by (unfold xs, sample, x;
        now apply (in_map (fun u => IZR (amount u)))).
  assert (Hlen : length xs = length group)
    by (unfold xs, sample; apply length_map).
  pose proof (deviation_bound xs x Hx) as Hdev. cbv zeta in Hdev.
  fold m in Hdev.
  set (ssq := total (map (fun y => (y - m) * (y - m)) xs)) in *.
  assert (Hn : 0 < INR (length xs)).
  { apply lt_0_INR. rewrite Hlen. destruct group; [easy|simpl; lia]. }
  assert (Hsq : 0 <= ssq) by apply (total_squares_nonneg (fun y => y - m)).
  assert (Hvar : populationVariance xs m = ssq / INR (length xs))
    by reflexivity.
  assert (Hvar0 : 0 <= populationVariance xs m).
  { rewrite Hvar. apply Rmult_le_pos; [exact Hsq|].
    left. now apply Rinv_0_lt_compat. }
  unfold zOf. rewrite Hmean, Hsd. unfold of_Z, sub, neg. cbn [add abs].
  fold x. replace (x + - m) with (x - m) by lra.
  set (sd := stdDevAround xs m).
  assert (Hsd2 : sd * sd = populationVariance xs m)
    by (apply sqrt_sqrt; exact Hvar0).
  assert (Hsd0 : 0 <= sd) by apply sqrt_pos.
  destruct (Req_dec_T sd 0) as [Hz|Hnz].
  - left. rewrite Hz.
    assert (Hsq0 : ssq = 0).
    { rewrite Hz, Hvar in Hsd2.
      assert (ssq = ssq / INR (length xs) * INR (length xs)) as ->
          by (field; lra).
      rewrite <- Hsd2. lra. }
    assert (Hd0 : (x - m) * (x - m) = 0).
    { pose proof (Rle_0_sqr (x - m)) as Hp. unfold Rsqr in Hp.
      rewrite Hsq0, Rmult_0_r in Hdev.
      rewrite <- (Rmult_0_r (INR (length xs))) in Hdev.
      apply Rmult_le_reg_l in Hdev; [lra|exact Hn]. }
    assert (x - m = 0) as -> by (apply Rsqr_0_uniq; exact Hd0).
    rewrite Rabs_R0. apply div_zero_zero.
  - right. rewrite div_fin by exact Hnz.
    exists (Rabs (x - m) / sd). split; [reflexivity|].
    assert (Hpos : 0 < sd) by lra. split.
    + apply Rmult_le_pos; [apply Rabs_pos|].
      left. now apply Rinv_0_lt_compat.
    + rewrite <- Hlen.
      assert (Hab : Rabs (x - m) * Rabs (x - m) = (x - m) * (x - m)).
      { rewrite <- Rabs_mult. apply Rabs_right.
        pose proof (Rle_0_sqr (x - m)) as H. unfold Rsqr in H. lra. }
      assert (Hq : Rabs (x - m) / sd * (Rabs (x - m) / sd)
                   = (x - m) * (x - m) / (sd * sd))
        by (rewrite <- Hab; field; lra).
      rewrite Hq, Hsd2, Hvar.
      apply (Rmult_le_reg_r (ssq / INR (length xs))).
      * rewrite <- Hvar, <- Hsd2. nra.
      * assert ((x - m) * (x - m) / (ssq / INR (length xs))
                * (ssq / INR (length xs)) = (x - m) * (x - m)) as ->.
        { field. split; [lra|]. intros H0. rewrite H0 in Hvar.
          unfold Rdiv in Hvar. rewrite Rmult_0_l in Hvar.
          rewrite Hvar in Hsd2. nra. }
        apply (Rmult_le_reg_l (INR (length xs))); [exact Hn|].
        assert (INR (length xs) * ((INR (length xs) - 1)
                                   * (ssq / INR (length xs)))
                = (INR (length xs) - 1) * ssq) as -> by (field; lra).
        exact Hdev.
Qed.

(** X25. A category group of 4 transactions or fewer never yields a
    z-score anomaly: no z-score in it is greater than 2 (none exceeds
    [sqrt 3]), so a category needs at least 5 paid transactions in the
    window before one of them can be flagged. *)
Theorem small_groups_are_never_flagged (cid : Z)
        (group : list Transaction) :
  (length group <= 4)%nat ->
  scanCategory (cid, group) = []
  /\ forall t, In t group ->
               gt (zScore t (calculateCategoryStats group)) (Fin 2) = false.
Proof.
  intros Hlen.
  assert (Hz : forall t, In t group ->
                         gt (zOf (calculateCategoryStats group) t) (Fin 2)
                         = false).
  { intros t Ht. destruct (zOf_bound group t Ht) as [->|(z & -> & Hz & Hb)];
      [reflexivity|].
    apply Rltb_false. intros H2.
    assert (INR (length group) <= 4).
    { replace 4 with (INR 4) by (simpl; lra). now apply le_INR. }
    nra. }
  split.
  - destruct (Nat.lt_ge_cases (length group) 3) as [Hlt|Hge];
      [now apply scanCategory_small|].
    rewrite scanCategory_filter by exact Hge.
    rewrite filter_none; [reflexivity|exact Hz].
  - intros t Ht. rewrite zScore_zOf. now apply Hz.
Qed.

Lemma small_groups_are_never_flagged_witness :
  (length Scenario.subscription <= 4)%nat
  /\ scanCategory (2%Z, Scenario.subscription) = [].
Proof.
  assert (H : (length Scenario.subscription <= 4)%nat) by (simpl; lia).
  split; [exact H|].
  exact (proj1 (small_groups_are_never_flagged 2 Scenario.subscription H)).
Defined.

End ZScoreFacts.

(** ** What [detectAnomalies] returns *)

Module AnomalyResultFacts.

Import JsNumber JsDate Stats AnomalyDetection JsNumberFacts.
Import AnomalyDetectionFacts.

(** Every group holds transactions of the list whose category is the
    key of the group. *)
Lemma pushByCategory_members (Q : Z -> Transaction -> Prop) k t groups :
  Q k t ->
  (forall k' ts, In (k', ts) groups -> Forall (Q k') ts) ->
  forall k' ts, In (k', ts) (pushByCategory k t groups) -> Forall (Q k') ts.
Proof.
  intros Ht. induction groups as [|[k0 ts0] rest IH]; intros Hg k' ts; simpl.
  - intros [[= <- <-]|[]]. now repeat constructor.
  - destruct (k =? k0) eqn:E.
    + apply Z.eqb_eq in E. subst k0. intros [[= <- <-]|Hin].
      * apply Forall_app. split; [apply (Hg k); now left|].
        now repeat constructor.
      * apply Hg. now right.
    + destruct (k <? k0).
      * intros [[= <- <-]|Hin]; [now repeat constructor|now apply Hg].
      * intros [[= <- <-]|Hin]; [apply Hg; now left|].
        apply IH; [|exact Hin]. intros k1 ts1 H1. apply Hg. now right.
Qed.

Lemma groupByCategory_members transactions k ts t :
  In (k, ts) (groupByCategory transactions) -> In t ts ->
  In t transactions /\ categoryId t = Some k /\ truthy (categoryId t) = true.
Proof.
  set (Q := fun (k : Z) (t : Transaction) =>
              In t transactions /\ categoryId t = Some k
              /\ truthy (categoryId t) = true).
  assert (H : forall pending groups,
             (forall t, In t pending -> In t transactions) ->
             (forall k' ts', In (k', ts') groups -> Forall (Q k') ts') ->
             forall k' ts',
               In (k', ts')
                  (fold_left
                     (fun groups t =>
                        if truthy (categoryId t)
                        then pushByCategory (default 0 (categoryId t)) t
                                            groups
                        else groups) pending groups) ->
               Forall (Q k') ts').
  { induction pending as [|u pending IH]; intros groups Hp Hg; simpl;
      [exact Hg|].
    apply IH; [intros v Hv; apply Hp; now right|].
    destruct (truthy (categoryId u)) eqn:Hu; [|exact Hg].
    apply pushByCategory_members; [|exact Hg].
    split; [apply Hp; now left|]. split; [|exact Hu].
    destruct (categoryId u); [reflexivity|discriminate]. }
  intros Hin Ht.
  assert (Hall : Forall (Q k) ts).
  { apply (H transactions [] (fun _ h => h)); [intros ? ? []|exact Hin]. }
  rewrite List.Forall_forall in Hall. exact (Hall t Ht).
Qed.

Lemma StronglySorted_firstn {A} (R : A -> A -> Prop) n l :
  StronglySorted R l -> StronglySorted R (firstn n l).
Proof.
  intros Hs. revert n. induction Hs as [|a l Hs IH Ha]; intros n.
  - rewrite firstn_nil. constructor.
  - destruct n as [|n]; simpl; [constructor|].
    constructor; [apply IH|]. rewrite List.Forall_forall in *.
    intros b Hb. apply Ha. now apply (JsFacts.firstn_In n).
Qed.

Local Open Scope R_scope.

(** The score of an emitted z-score anomaly. *)
Lemma flagged_score group t :
  In t group ->
  gt (zScore t (calculateCategoryStats group)) (Fin 2) = true ->
  exists s, JsNumber.min (div (zScore t (calculateCategoryStats group))
                              (Fin 4)) (Fin 1) = Fin s
            /\ 0.5 < s <= 1.
Proof.
  intros Hin Hgt. rewrite zScore_zOf in *.
  destruct (ZScoreFacts.zOf_bound group t Hin) as [Hz|(z & Hz & _ & _)];
    rewrite Hz in *; [discriminate|].
  apply Rltb_iff in Hgt. rewrite div_fin by lra.
  unfold JsNumber.min, lt.
  destruct (Rlt_dec 1 (z / 4)) as [H|H].
  - rewrite (Rltb_true _ _ H). exists 1. split; [reflexivity|lra].
  - rewrite (Rltb_false _ _ H). exists (z / 4). split; [reflexivity|lra].
Qed.

Lemma period_days now days :
  period now days = (now - days * msPerDay)%Z.
Proof. unfold period. rewrite CalendarFacts.setDate_shift. lia. Qed.

Lemma emitted_anomalies now days uid rows a :
  let transactions :=
      Queries.findByPeriod uid (period now days) now rows in
  In a (zScoreAnomalies transactions
        ++ map uncategorized
               (List.filter (fun t => negb (truthy (categoryId t)))
                            transactions))%list ->
  exists t, AnomalyNotions.inWindow now days uid rows t
            /\ AnomalyNotions.reports a t /\ AnomalyNotions.scored a t.
Proof.
  intros transactions Hin.
  assert (Hwin : forall t, In t transactions ->
                           AnomalyNotions.inWindow now days uid rows t).
  { intros t Ht. unfold transactions in Ht.
    apply SpendingForecastFacts.findByPeriod_In in Ht.
    rewrite period_days in Ht. unfold AnomalyNotions.inWindow. tauto. }
  apply in_app_or in Hin as [Hin|Hin].
  - unfold zScoreAnomalies in Hin.
    apply in_flat_map in Hin as ([k ts] & Hg & Hin).
    unfold scanCategory in Hin.
    destruct (length ts <? 3)%nat; [destruct Hin|].
    apply in_flat_map in Hin as (t & Ht & Hin).
    destruct (gt (zScore t (calculateCategoryStats ts)) (Fin 2)) eqn:Hz;
      [|destruct Hin].
    destruct Hin as [<-|[]].
    destruct (groupByCategory_members transactions k ts t Hg Ht)
      as (Hmem & Hcat & Htruthy).
    exists t. split; [now apply Hwin|]. split; [now repeat split|].
    right. split; [exact Htruthy|]. split; [now rewrite Hcat|].
    now apply flagged_score.
  - apply in_map_iff in Hin as (t & <- & Ht).
    apply filter_In in Ht as [Ht Hc]. apply negb_true_iff in Hc.
    exists t. split; [now apply Hwin|]. split; [now repeat split|].
    left. now repeat split.
Qed.

(** X26. What [detectAnomalies] returns.  Every anomaly reports one paid
    transaction of the user from the 90 days before the call, either
    without category at the fixed score 0.7, or within its category at a
    score above 0.5 and at most 1; the anomalies are in descending order of
    score; and for a limit that is not negative there are no more of them
    than the limit. *)
Theorem detectAnomalies_result (now : Z) (rows : list Transaction)
        (uid maxResults : Z) :
  let result := detectAnomalies now rows uid maxResults in
  Forall (fun a => exists t, AnomalyNotions.inWindow now 90 uid rows t
                             /\ AnomalyNotions.reports a t
                             /\ AnomalyNotions.scored a t) result
  /\ StronglySorted AnomalyNotions.scoreNotBelow result
  /\ ((0 <= maxResults)%Z ->
      (Z.of_nat (length result) <= maxResults)%Z).
Proof.
  intros result. subst result. unfold detectAnomalies.
  set (transactions := Queries.findByPeriod uid (period now 90) now rows).
  destruct (length transactions <? 5)%nat.
  { split; [constructor|]. split; [constructor|]. simpl. lia. }
  set (anomalies := (zScoreAnomalies transactions ++ _)%list).
  set (le := fun a b : Anomaly =>
               negb (gt (sub (anomalyScore b) (anomalyScore a)) (Fin 0))).
  set (good := fun a => exists t, AnomalyNotions.inWindow now 90 uid rows t
                                  /\ AnomalyNotions.reports a t
                                  /\ AnomalyNotions.scored a t).
  assert (Hgood : Forall good anomalies).
  { apply List.Forall_forall. intros a Ha.
    now apply (emitted_anomalies now 90 uid rows a). }
  assert (Hfin : forall a, good a -> exists x, anomalyScore a = Fin x).
  { intros a (t & _ & _ & [(_ & _ & H & _)|(_ & _ & s & H & _)]);
      eexists; exact H. }
  assert (Hle : forall a b x y,
             anomalyScore a = Fin x -> anomalyScore b = Fin y ->
             (le a b = true <-> y <= x)).
  { intros a b x y Ha Hb. unfold le. rewrite Ha, Hb.
    unfold sub, neg, gt, lt. cbn [add]. rewrite negb_true_iff.
    destruct (Rlt_dec 0 (y + - x)) as [H|H].
    - rewrite (Rltb_true _ _ H). split; [discriminate|lra].
    - rewrite (Rltb_false _ _ H). split; [lra|reflexivity]. }
  assert (Hsorted : Forall good (Js.sortBy le anomalies)).
  { apply List.Forall_forall. intros a Ha. apply JsFacts.sortBy_In in Ha.
    rewrite List.Forall_forall in Hgood. now apply Hgood. }
  split; [|split].
  - apply List.Forall_forall. intros a Ha. apply JsFacts.slice0_incl in Ha.
    rewrite List.Forall_forall in Hsorted. now apply Hsorted.
  - unfold Js.slice0. apply StronglySorted_firstn.
    apply (SpendingForecastFacts.StronglySorted_refine
             (fun a b => le a b = true) _ good).
    + intros a b Ha Hb H. destruct (Hfin a Ha) as [x Hx].
      destruct (Hfin b Hb) as [y Hy]. exists x, y.
      split; [exact Hx|]. split; [exact Hy|]. now apply (Hle a b x y Hx Hy).
    + exact Hsorted.
    + apply (JsFacts.sortBy_sorted le good); [| |exact Hgood].
      * intros a b Ha Hb. destruct (Hfin a Ha) as [x Hx].
        destruct (Hfin b Hb) as [y Hy].
        rewrite (Hle a b x y Hx Hy), (Hle b a y x Hy Hx). lra.
      * intros a b c Ha Hb Hc. destruct (Hfin a Ha) as [x Hx].
        destruct (Hfin b Hb) as [y Hy]. destruct (Hfin c Hc) as [z Hz].
        rewrite (Hle a b x y Hx Hy), (Hle b c y z Hy Hz),
          (Hle a c x z Hx Hz). lra.
  - intros Hmax. now apply JsFacts.slice0_length.
Qed.

Lemma detectAnomalies_result_witness :
  (0 <= 5)%Z
  /\ (Z.of_nat (length (detectAnomalies Scenario.today Scenario.subscription
                                        7 5)) <= 5)%Z.
Proof.
  split; [lia|].
  exact (proj2 (proj2 (detectAnomalies_result Scenario.today
                         Scenario.subscription 7 5)) ltac:(lia)).
Defined.

End AnomalyResultFacts.

(** ** Recurring transactions *)

Module RecurrenceFacts.

Import JsNumber JsDate Stats AnomalyDetection JsNumberFacts.
Import AnomalyDetectionFacts AutoCategorization.

Lemma groupSimilarFrom_raises groups transactions :
  (exists t, In t transactions /\ description t = None) ->
  groupSimilarFrom groups transactions = Raised.
Proof.
  revert groups.
  induction transactions as [|u rest IH]; intros groups (t & Hin & Hd);
    [destruct Hin|].
  simpl. destruct Hin as [->|Hin]; [now rewrite Hd|].
  destruct (description u); [|reflexivity].
  destruct (joinGroup _ u groups); apply IH; now exists t.
Qed.

(** X27. One paid transaction without description among the user's
    transactions of the last 180 days is enough for
    [detectUnusualFrequency] to report nothing at all: the grouping raises
    on it and the error is swallowed. *)
Theorem undescribed_transaction_silences_recurrences
        (now : Z) (rows : list Transaction) (uid : Z) :
  (exists t, AnomalyNotions.inWindow now 180 uid rows t
             /\ description t = None) ->
  detectUnusualFrequency now rows uid = [].
Proof.
  intros (t & (Hin & Hu & Hp & Hd) & Hnone). unfold detectUnusualFrequency.
  unfold groupSimilarTransactions. rewrite groupSimilarFrom_raises;
    [reflexivity|].
  exists t. split; [|exact Hnone].
  apply SpendingForecastFacts.findByPeriod_In.
  rewrite AnomalyResultFacts.period_days. tauto.
Qed.

Lemma undescribed_transaction_silences_recurrences_witness :
  (exists t, AnomalyNotions.inWindow 1000 180 7
               (Scenario.undescribed :: Scenario.subscription) t
             /\ description t = None)
  /\ detectUnusualFrequency 1000
       (Scenario.undescribed :: Scenario.subscription) 7 = [].
Proof.
  assert (H : exists t, AnomalyNotions.inWindow 1000 180 7
                          (Scenario.undescribed :: Scenario.subscription) t
                        /\ description t = None).
  { exists Scenario.undescribed. split; [|reflexivity].
    split; [now left|]. split; [reflexivity|]. split; [reflexivity|].
    vm_compute. split; discriminate. }
  split; [exact H|].
  exact (undescribed_transaction_silences_recurrences
           1000 (Scenario.undescribed :: Scenario.subscription) 7 H).
Defined.

Lemma prefix_refl s : String.prefix s s = true.
Proof.
  induction s as [|c s IH]; simpl; [reflexivity|].
  destruct (ascii_dec c c); [exact IH|congruence].
Qed.

Lemma similar_refl s : areDescriptionsSimilar s s = true.
Proof.
  unfold areDescriptionsSimilar.
  assert (Js.includes s s = true) as ->; [|reflexivity].
  destruct s; simpl; [reflexivity|].
  destruct (ascii_dec a a); [|congruence]. now rewrite prefix_refl.
Qed.

Lemma joinGroup_Some normalizedDesc t groups groups' :
  joinGroup normalizedDesc t groups = Some groups' ->
  exists pre key ts post,
    groups = (pre ++ (key, ts) :: post)%list
    /\ groups' = (pre ++ (key, ts ++ [t]) :: post)%list
    /\ areDescriptionsSimilar normalizedDesc key = true.
Proof.
  revert groups'. induction groups as [|[k ts] rest IH]; intros groups';
    simpl; [discriminate|].
  destruct (areDescriptionsSimilar normalizedDesc k) eqn:E.
  - intros [= <-]. now exists [], k, ts, rest.
  - destruct (joinGroup normalizedDesc t rest) as [rest'|]; [|discriminate].
    intros [= <-].
    destruct (IH rest' eq_refl) as (pre & key & ts' & post & -> & -> & Hs).
    now exists ((k, ts) :: pre), key, ts', post.
Qed.

Lemma joinGroup_None normalizedDesc t groups :
  joinGroup normalizedDesc t groups = None ->
  forall key, In key (map fst groups) ->
              areDescriptionsSimilar normalizedDesc key = false.
Proof.
  induction groups as [|[k ts] rest IH]; simpl; [intros _ ? []|].
  destruct (areDescriptionsSimilar normalizedDesc k) eqn:E; [discriminate|].
  destruct (joinGroup normalizedDesc t rest); [discriminate|].
  intros _ key [<-|Hin]; [exact E|now apply IH].
Qed.

Lemma insertIndexKey_Permutation n k t groups :
  Permutation (insertIndexKey n k t groups) ((k, [t]) :: groups).
Proof.
  induction groups as [|[k' ts] rest IH]; simpl; [reflexivity|].
  destruct (arrayIndex k'); [|reflexivity].
  destruct (n <? n0)%N; [reflexivity|].
  rewrite IH. apply perm_swap.
Qed.

Lemma newGroup_Permutation k t groups :
  k <> "__proto__"%string ->
  Permutation (newGroup k t groups) ((k, [t]) :: groups).
Proof.
  intros Hk. unfold newGroup.
  destruct (String.eqb_spec k "__proto__"); [contradiction|].
  destruct (arrayIndex k).
  - apply insertIndexKey_Permutation.
  - symmetry. apply Permutation.Permutation_cons_append.
Qed.

Lemma concat_Permutation {A} (l l' : list (list A)) :
  Permutation l l' -> Permutation (concat l) (concat l').
Proof.
  induction 1 as [|x l l' _ IH|x y l|l l' l'' _ IH1 _ IH2]; simpl.
  - reflexivity.
  - now apply Permutation.Permutation_app_head.
  - rewrite !app_assoc. apply Permutation.Permutation_app_tail.
    apply Permutation.Permutation_app_comm.
  - now transitivity (concat l').
Qed.

Lemma members_with_one_more {K A} pre (key : K) (ts : list A) t post :
  Permutation (concat (map snd (pre ++ (key, ts ++ [t]) :: post)))
              (concat (map snd (pre ++ (key, ts) :: post)) ++ [t]).
Proof.
  rewrite !List.map_app, !concat_app. simpl. rewrite <- !app_assoc.
  do 2 apply Permutation.Permutation_app_head.
  apply Permutation.Permutation_app_comm.
Qed.

Lemma groupSimilarFrom_partition transactions :
  Forall GroupNotions.keyed transactions ->
  forall groups processed out,
    groupSimilarFrom groups transactions = Returned out ->
    Permutation (concat (map snd groups)) processed ->
    List.NoDup (map fst groups) ->
    (forall key ts, In (key, ts) groups ->
                    ts <> [] /\ Forall (GroupNotions.belongsTo key) ts) ->
    Permutation (concat (map snd out)) (processed ++ transactions)
    /\ List.NoDup (map fst out)
    /\ (forall key ts, In (key, ts) out ->
                       ts <> [] /\ Forall (GroupNotions.belongsTo key) ts).
Proof.
  induction transactions as [|t rest IH];
    intros Hkeyed groups processed out; simpl.
  - intros [= <-] Hp Hn Hm. rewrite app_nil_r.
    split; [exact Hp|]. split; [exact Hn|exact Hm].
  - apply Forall_cons_1 in Hkeyed as [Hkey Hkeyed].
    specialize (IH Hkeyed).
    destruct (description t) as [d|] eqn:Hd; [|discriminate].
    specialize (Hkey d Hd).
    set (nd := normalizeDescription d) in *.
    assert (Hself : GroupNotions.belongsTo nd t)
      by (exists d; split; [exact Hd|apply similar_refl]).
    replace (processed ++ t :: rest)%list
      with ((processed ++ [t]) ++ rest)%list
      by (rewrite <- app_assoc; reflexivity).
    destruct (joinGroup nd t groups) as [groups'|] eqn:Hj.
    + apply joinGroup_Some in Hj
        as (pre & key & ts & post & -> & -> & Hsim).
      intros Hout Hp Hn Hm. apply (IH _ _ _ Hout).
      * rewrite <- Hp. apply members_with_one_more.
      * rewrite List.map_app in *. exact Hn.
      * intros k' ts' Hin. apply in_app_or in Hin as [Hin|[[= <- <-]|Hin]].
        -- apply Hm. apply in_or_app. now left.
        -- destruct (Hm key ts) as [_ Hall];
             [apply in_or_app; right; now left|].
           split; [now destruct ts|]. apply Forall_app. split; [exact Hall|].
           constructor; [|constructor]. exists d. now split.
        -- apply Hm. apply in_or_app. right. now right.
    + intros Hout Hp Hn Hm.
      pose proof (newGroup_Permutation nd t groups Hkey) as Hnew.
      apply (IH _ _ _ Hout).
      * rewrite (concat_Permutation _ _ (Permutation_map snd Hnew)).
        simpl. rewrite Hp. apply Permutation.Permutation_cons_append.
      * apply (Permutation_NoDup
                 (Permutation_sym (Permutation_map fst Hnew))).
        simpl. constructor; [|exact Hn].
        intros Hin. pose proof (joinGroup_None nd t groups Hj nd Hin) as Hf.
        rewrite similar_refl in Hf. discriminate.
      * intros k' ts' Hin.
        apply (Permutation_in _ Hnew) in Hin as [[= <- <-]|Hin].
        -- split; [discriminate|]. now repeat constructor.
        -- now apply Hm.
Qed.

(** X28. When [groupSimilarTransactions] returns and no description has
    the normal form [__proto__], its groups divide the transactions among
    them: every transaction is in exactly one group, no group is empty, no
    two groups have the same key, and every member of a group has a
    description whose normal form contains the key of the group or is
    contained in it. *)
Theorem similar_groups_partition (transactions : list Transaction)
        (groups : list (string * list Transaction)) :
  Forall GroupNotions.keyed transactions ->
  groupSimilarTransactions transactions = Returned groups ->
  Permutation (concat (map snd groups)) transactions
  /\ List.NoDup (map fst groups)
  /\ forall key ts, In (key, ts) groups ->
                    ts <> [] /\ Forall (GroupNotions.belongsTo key) ts.
Proof.
  intros Hkeyed H.
  apply (groupSimilarFrom_partition transactions Hkeyed [] [] groups H).
  - reflexivity.
  - constructor.
  - intros ? ? [].
Qed.

Lemma similar_groups_partition_witness :
  Forall GroupNotions.keyed Scenario.subscription
  /\ groupSimilarTransactions Scenario.subscription
     = Returned [("netflix"%string, Scenario.subscription)]
  /\ Permutation
       (concat (map snd [("netflix"%string, Scenario.subscription)]))
       Scenario.subscription.
Proof.
  assert (Hk : Forall GroupNotions.keyed Scenario.subscription).
  { repeat constructor; intros d [= <-]; discriminate. }
  assert (H : groupSimilarTransactions Scenario.subscription
              = Returned [("netflix"%string, Scenario.subscription)])
    by (vm_compute; reflexivity).
  split; [exact Hk|]. split; [exact H|].
  exact (proj1 (similar_groups_partition Scenario.subscription _ Hk H)).
Defined.

(** A transaction whose description has the normal form [__proto__] and
    which no group takes in ends up in no group. *)
Lemma unkeyed_transaction_is_dropped (t : Transaction) :
  description t = Some "__proto__"%string ->
  groupSimilarTransactions [t] = Returned [].
Proof.
  intros Hd. unfold groupSimilarTransactions. simpl. now rewrite Hd.
Qed.

Local Open Scope R_scope.

Lemma round_div_nonneg n : (0 <= n)%Z -> (0 <= round_div n msPerDay)%Z.
Proof.
  intros H. unfold round_div. change msPerDay with 86400000%Z.
  apply Z.div_pos; lia.
Qed.

Lemma intervalsOf_nonneg l :
  StronglySorted (fun a b => (date a <=? date b)%Z = true) l ->
  Forall (fun i => (0 <= i)%Z) (intervalsOf l).
Proof.
  induction 1 as [|a l Hs IH Ha]; [constructor|].
  destruct l as [|b l]; [constructor|].
  change (intervalsOf (a :: b :: l))
    with (round_div (date b - date a) msPerDay :: intervalsOf (b :: l)).
  constructor; [|exact IH]. apply round_div_nonneg.
  apply Forall_cons_1 in Ha as [Hab _]. apply Z.leb_le in Hab. lia.
Qed.

Lemma sortByDate_sorted transactions :
  StronglySorted (fun a b => (date a <=? date b)%Z = true)
                 (sortByDate transactions).
Proof.
  apply (JsFacts.sortBy_sorted (fun a b => (date a <=? date b)%Z)
                               (fun _ => True)).
  - intros a b _ _. rewrite !Z.leb_le. lia.
  - intros a b c _ _ _. rewrite !Z.leb_le. lia.
  - apply List.Forall_forall. easy.
Qed.

Lemma intervalSample_nonneg transactions :
  Forall (fun x => 0 <= x) (intervalSample transactions).
Proof.
  unfold intervalSample. apply List.Forall_forall. intros x Hx.
  apply in_map_iff in Hx as (i & <- & Hi).
  pose proof (intervalsOf_nonneg _ (sortByDate_sorted transactions)) as H.
  rewrite List.Forall_forall in H. apply IZR_le. now apply H.
Qed.

(** A group passes the regularity test only with a positive average
    interval. *)
Lemma regular_interval_positive xs :
  Forall (fun x => 0 <= x) xs ->
  lt (div (Fin (stdDevAround xs (Stats.mean xs))) (Fin (Stats.mean xs)))
     (Fin 0.3) = true ->
  0 < Stats.mean xs.
Proof.
  intros Hxs Hlt.
  assert (Hm : 0 <= Stats.mean xs).
  { unfold Stats.mean. destruct xs as [|x xs'].
    - simpl. unfold Rdiv. rewrite Rmult_0_l. lra.
    - apply Rmult_le_pos;
        [now apply SpendingForecastFacts.total_nonneg|].
      left. apply Rinv_0_lt_compat, lt_0_INR. simpl. lia. }
  destruct (Req_dec_T (Stats.mean xs) 0) as [Hz|Hnz]; [|lra].
  exfalso. rewrite Hz in Hlt. simpl in Hlt.
  rewrite Reqb_true in Hlt by reflexivity.
  unfold inf_of_sign in Hlt.
  destruct (Rltb 0 (stdDevAround xs 0)); [simpl in Hlt; discriminate|].
  rewrite Rltb_false in Hlt; [simpl in Hlt; discriminate|].
  pose proof (sqrt_pos (populationVariance xs 0)) as Hsd.
  unfold stdDevAround. lra.
Qed.

(** X29. A recurrence reported by [detectUnusualFrequency] has a positive
    average interval; the days since its last transaction exceed one and a
    half times that interval, so that it is overdue by more than half an
    interval; and its average amount is finite and not negative. *)
Theorem reported_recurrence_is_overdue (now : Z) (rows : list Transaction)
        (uid : Z) (r : MissingRecurrence) :
  In r (detectUnusualFrequency now rows uid) ->
  exists (avg : R) (days : Z) (a : R),
    0 < avg /\ avg * 1.5 < IZR days
    /\ daysPastDue r = Fin (IZR days - avg) /\ avg / 2 < IZR days - avg
    /\ expectedDate r
       = Fin (IZR (lastDate r) + avg * 24 * 60 * 60 * 1000)
    /\ averageAmount r = Fin a /\ 0 <= a.
Proof.
  unfold detectUnusualFrequency, detectInterruptedPatterns,
    identifyRecurringGroups.
  destruct (groupSimilarTransactions _) as [groups|]; [|intros []].
  intros Hin. apply in_map_iff in Hin as (g & <- & Hg).
  apply filter_In in Hg as [Hg Hover].
  apply in_flat_map in Hg as ([key txs] & Hgroup & Hg).
  destruct (Nat.lt_ge_cases (length txs) 3) as [Hlt|Hge].
  { unfold recurringOf in Hg. apply Nat.ltb_lt in Hlt.
    rewrite Hlt in Hg. destruct Hg. }
  rewrite recurringOf_spec in Hg by exact Hge.
  destruct (lt _ _) eqn:Hcv; [|destruct Hg].
  destruct (lastOf (sortByDate txs)) as [lastTx|] eqn:Hlast; [|destruct Hg].
  destruct Hg as [<-|[]].
  pose proof (regular_interval_positive _ (intervalSample_nonneg txs) Hcv)
    as Hpos.
  set (avg := Stats.mean (intervalSample txs)) in *.
  unfold isOverdue in Hover. cbn [lastTransaction avgInterval] in Hover.
  apply Rltb_iff in Hover.
  rewrite missingOf_spec by (intros ->; simpl in Hge; lia).
  exists avg, (daysSince now lastTx), (Rabs (Stats.mean (sample txs))).
  unfold missingSpec. cbn [daysPastDue expectedDate averageAmount lastDate].
  repeat split; try reflexivity; try lra. apply Rabs_pos.
Qed.

Lemma reported_recurrence_is_overdue_witness :
  let r := missingSpec Scenario.march 30 50
                       (Rabs (Stats.mean (sample Scenario.subscription))) in
  In r (detectUnusualFrequency Scenario.today Scenario.subscription 7)
  /\ exists (avg : R) (days : Z) (a : R),
      0 < avg /\ avg * 1.5 < IZR days
      /\ daysPastDue r = Fin (IZR days - avg) /\ avg / 2 < IZR days - avg
      /\ expectedDate r
         = Fin (IZR (lastDate r) + avg * 24 * 60 * 60 * 1000)
      /\ averageAmount r = Fin a /\ 0 <= a.
Proof.
  split; [exact subscription_emitted|].
  exact (reported_recurrence_is_overdue
           Scenario.today Scenario.subscription 7 _ subscription_emitted).
Defined.

End RecurrenceFacts.

(** ** The wording of an anomaly among expenses *)

Module ReasonFacts.

Import JsNumber Stats AnomalyDetection JsNumberFacts AnomalyDetectionFacts.
Local Open Scope R_scope.

Lemma fold_min xs a :
  exists m, fold_left JsNumber.min (map Fin xs) (Fin a) = Fin m
            /\ m <= a /\ Forall (fun x => m <= x) xs
            /\ (m = a \/ In m xs).
Proof.
  revert a. induction xs as [|x xs IH]; intros a; simpl.
  - exists a. repeat split; [lra|constructor|now left].
  - unfold lt. destruct (Rlt_dec x a) as [H|H].
    + rewrite (Rltb_true _ _ H).
      destruct (IH x) as (m & -> & Hm & Hall & Hin). exists m.
      split; [reflexivity|]. split; [lra|]. split; [now constructor|].
      right. destruct Hin as [->|Hin]; [now left|now right].
    + rewrite (Rltb_false _ _ H).
      destruct (IH a) as (m & -> & Hm & Hall & Hin). exists m.
      split; [reflexivity|]. split; [lra|]. split; [constructor; [lra|easy]|].
      destruct Hin as [->|Hin]; [now left|right; now right].
Qed.

Lemma fold_max xs a :
  exists m, fold_left JsNumber.max (map Fin xs) (Fin a) = Fin m
            /\ a <= m /\ Forall (fun x => x <= m) xs
            /\ (m = a \/ In m xs).
Proof.
  revert a. induction xs as [|x xs IH]; intros a; simpl.
  - exists a. repeat split; [lra|constructor|now left].
  - unfold lt. destruct (Rlt_dec a x) as [H|H].
    + rewrite (Rltb_true _ _ H).
      destruct (IH x) as (m & -> & Hm & Hall & Hin). exists m.
      split; [reflexivity|]. split; [lra|]. split; [now constructor|].
      right. destruct Hin as [->|Hin]; [now left|now right].
    + rewrite (Rltb_false _ _ H).
      destruct (IH a) as (m & -> & Hm & Hall & Hin). exists m.
      split; [reflexivity|]. split; [lra|]. split; [constructor; [lra|easy]|].
      destruct Hin as [->|Hin]; [now left|right; now right].
Qed.

(** The extremes of a non-empty group are amounts of the group that bound
    all its amounts. *)
Lemma extremes_of_sample group :
  group <> [] ->
  exists lo hi,
    s_min (calculateCategoryStats group) = Fin lo
    /\ s_max (calculateCategoryStats group) = Fin hi
    /\ In lo (sample group) /\ In hi (sample group)
    /\ Forall (fun x => lo <= x <= hi) (sample group).
Proof.
  intros Hne. unfold calculateCategoryStats. cbn [s_min s_max].
  rewrite amounts_sample.
  destruct (sample group) as [|x xs] eqn:E.
  { destruct group; [congruence|discriminate]. }
  cbn [map fold_left].
  assert (JsNumber.min PosInf (Fin x) = Fin x) as -> by reflexivity.
  assert (JsNumber.max NegInf (Fin x) = Fin x) as -> by reflexivity.
  destruct (fold_min xs x) as (lo & -> & Hlo & Hlos & Hloin).
  destruct (fold_max xs x) as (hi & -> & Hhi & Hhis & Hhiin).
  exists lo, hi. split; [reflexivity|]. split; [reflexivity|].
  split; [destruct Hloin as [->|H]; [now left|now right]|].
  split; [destruct Hhiin as [->|H]; [now left|now right]|].
  constructor; [lra|]. rewrite List.Forall_forall in *.
  intros y Hy. split; [now apply Hlos|now apply Hhis].
Qed.

(** X30. In a category group of expenses, whose stored amounts are all
    negative, [getAnomalyReason] never words an anomaly as exceptional:
    the comparisons with 90% of the maximum and 110% of the minimum cannot
    succeed on negative values.  A transaction is worded as above normal
    when its signed amount exceeds the mean, that is when less was spent
    than on average, and as below normal otherwise. *)
Theorem expense_anomalies_are_never_exceptional
        (group : list Transaction) (t : Transaction) :
  let stats := calculateCategoryStats group in
  (forall u, In u group -> (amount u < 0)%Z) ->
  In t group ->
  exists percent,
    getAnomalyReason t stats
    = Deviates (if Rlt_dec (Stats.mean (sample group)) (IZR (amount t))
                then AboveNormal else BelowNormal) percent.
Proof.
  intros stats Hneg Hin.
  assert (Hne : group <> []) by (intros ->; destruct Hin).
  destruct (stats_of_sample group Hne) as [Hmean _].
  destruct (extremes_of_sample group Hne)
    as (lo & hi & Hlo & Hhi & Hloin & Hhiin & Hall).
  fold stats in Hmean, Hlo, Hhi.
  assert (Hsample : forall x, In x (sample group) -> x < 0).
  { intros x Hx. unfold sample in Hx. apply in_map_iff in Hx as (u & <- & Hu).
    apply IZR_lt. now apply Hneg. }
  assert (Hx : lo <= IZR (amount t) <= hi).
  { rewrite List.Forall_forall in Hall. apply Hall. unfold sample.
    now apply (in_map (fun u => IZR (amount u))). }
  pose proof (Hsample lo Hloin) as Hlo0.
  pose proof (Hsample hi Hhiin) as Hhi0.
  unfold getAnomalyReason. rewrite Hmean, Hlo, Hhi. unfold of_Z.
  cbn [mul]. unfold gt, lt.
  destruct (Rlt_dec (Stats.mean (sample group)) (IZR (amount t))) as [H|H].
  - rewrite (Rltb_true _ _ H). rewrite Rltb_false by lra.
    eexists. reflexivity.
  - rewrite (Rltb_false _ _ H). rewrite Rltb_false by lra.
    eexists. reflexivity.
Qed.

Lemma expense_anomalies_are_never_exceptional_witness :
  let group := [Scenario.january; Scenario.february] in
  (forall u, In u group -> (amount u < 0)%Z)
  /\ exists percent,
      getAnomalyReason Scenario.january (calculateCategoryStats group)
      = Deviates (if Rlt_dec (Stats.mean (sample group))
                             (IZR (amount Scenario.january))
                  then AboveNormal else BelowNormal) percent.
Proof.
  assert (H : forall u, In u [Scenario.january; Scenario.february] ->
                        (amount u < 0)%Z).
  { intros u [<-|[<-|[]]]; simpl; lia. }
  split; [exact H|].
  apply (expense_anomalies_are_never_exceptional
           [Scenario.january; Scenario.february] Scenario.january H).
  now left.
Defined.

End ReasonFacts.
